(** * space23: availability / booking scheduling core

    A shallow embedding of the scheduling engine of the lesson-booking
    marketplace: the interval algebra of [lib/scheduling], the free-slot
    generator, the atomic availability store and the checkout / cancel /
    payment-webhook handlers.

    Conventions used throughout.
    - An absolute instant (a JS [Date], a luxon [DateTime] in zone UTC, or
      the ISO-8601 string that denotes it) is its number of milliseconds
      since the epoch, a [Z].  A [number] holding milliseconds is a [Z] as
      well; a string that does not parse ([NaN] after [toMs]) is [None].
    - A table of the relational store is the list of its rows, in
      insertion order; a [serial] primary key is drawn from a counter kept
      in the store.
    - [Array.prototype.sort] is the stable sort of ECMAScript 2019; it is
      modelled by a stable insertion sort driven by the source comparator. *)

From Stdlib Require Import ZArith List Bool Lia String DecimalString.
From Stdlib Require Import Sorting.Sorted Sorting.Permutation.
Import ListNotations.
Open Scope Z_scope.

Set Implicit Arguments.

(** ** JavaScript primitives shared by the route handlers *)

Module Js.

(** A value or a thrown [Error] carrying its message. *)
Inductive result (A : Type) : Type :=
| Ok (a : A)
| Throw (msg : string).
Arguments Ok {A} a.
Arguments Throw {A} msg.

Definition bind {A B} (r : result A) (k : A -> result B) : result B :=
  match r with
  | Ok a => k a
  | Throw m => Throw m
  end.

(** [arr.sort(cmp)]: [cmp a b <= 0] keeps [a] in front of [b]; equal
    elements keep their input order. *)
Fixpoint insertBy {A} (cmp : A -> A -> Z) (x : A) (l : list A) : list A :=
  match l with
  | [] => [x]
  | y :: l' => if cmp x y <=? 0 then x :: y :: l' else y :: insertBy cmp x l'
  end.

Fixpoint sort {A} (cmp : A -> A -> Z) (l : list A) : list A :=
  match l with
  | [] => []
  | x :: l' => insertBy cmp x (sort cmp l')
  end.

(** [a || b] on numbers: [a] unless it is zero. *)
Definition orElse (a b : Z) : Z := if a =? 0 then b else a.

(** [arr.includes(x)] on numbers. *)
Definition includes (l : list Z) (x : Z) : bool := existsb (Z.eqb x) l.

(** A request field holding an ISO-8601 instant, as [DateTime.fromISO]
    sees it: absent or empty, present but not valid, or an instant. *)
Inductive IsoField : Type :=
| IsoMissing
| IsoInvalid
| IsoAt (ms : Z).

End Js.

Notation "x <- r ;; k" := (Js.bind r (fun x => k))
  (at level 61, r at next level, right associativity).

(** ** lib/scheduling: interval algebra *)

Module Scheduling.
Import Js.

(** [type Interval = { startMs: number; endMs: number }] *)
Record Interval : Type := mkInterval { startMs : Z; endMs : Z }.

(** The filter predicate of [mergeIntervals]; [Number.isFinite] holds of
    every [Z]. *)
Definition isValid (i : Interval) : bool := endMs i >? startMs i.

(** [assertValid]: the [Number.isFinite] test cannot fail on a [Z]; the
    [end <= start] test is kept. *)
Definition assertValid (i : Interval) : result unit :=
  if endMs i <=? startMs i then Throw "Invalid interval (end <= start)"
  else Ok tt.

Definition cmpStartEnd (a b : Interval) : Z :=
  orElse (startMs a - startMs b) (endMs a - endMs b).

(** The [for] loop of [mergeIntervals]: [out] is the array built so
    far, [cur] the interval being grown, [rest] is [cleaned.slice(idx)]. *)
Fixpoint mergeLoop (out : list Interval) (cur : Interval)
         (rest : list Interval) : result (list Interval) :=
  match rest with
  | [] => Ok (out ++ [cur])
  | next :: rest' =>
      _ <- assertValid next ;;
      if startMs next <=? endMs cur
      then mergeLoop out
             (mkInterval (startMs cur) (Z.max (endMs cur) (endMs next))) rest'
      else mergeLoop (out ++ [cur]) next rest'
  end.

Definition mergeIntervals (intervals : list Interval)
  : result (list Interval) :=
  let cleaned :=
    sort cmpStartEnd
      (map (fun i => mkInterval (startMs i) (endMs i))
           (filter isValid intervals)) in
  match cleaned with
  | [] => Ok []
  | cur :: rest =>
      _ <- assertValid cur ;;
      mergeLoop [] cur rest
  end.

(** One pass of the inner [while (k < b.length && b[k].startMs < curEnd)]
    loop of [subtractIntervals] on the cut intervals from index [k] on.
    Returns the pieces pushed and the final [curStart]. *)
Fixpoint cutSegment (curStart curEnd : Z) (bk : list Interval)
  : list Interval * Z :=
  match bk with
  | [] => ([], curStart)
  | c :: bk' =>
      if startMs c <? curEnd then
        let left :=
          if startMs c >? curStart
          then [mkInterval curStart (Z.min (startMs c) curEnd)]
          else [] in
        let curStart' := Z.max curStart (endMs c) in
        if curStart' >=? curEnd then (left, curStart')
        else
          let '(more, final) := cutSegment curStart' curEnd bk' in
          (left ++ more, final)
      else ([], curStart)
  end.

(** [while (j < b.length && b[j].endMs <= curStart) j++] on [b.slice(j)]. *)
Fixpoint skipCuts (curStart : Z) (bj : list Interval) : list Interval :=
  match bj with
  | [] => []
  | c :: bj' => if endMs c <=? curStart then skipCuts curStart bj' else bj
  end.

(** The [for (const seg of a)] loop; [bj] is [b.slice(j)], the index [j]
    surviving from one segment to the next. *)
Fixpoint subtractLoop (a : list Interval) (bj : list Interval)
  : list Interval :=
  match a with
  | [] => []
  | seg :: a' =>
      let curStart := startMs seg in
      let curEnd := endMs seg in
      let bj' := skipCuts curStart bj in
      let '(pieces, final) := cutSegment curStart curEnd bj' in
      let tail := if final <? curEnd then [mkInterval final curEnd] else [] in
      pieces ++ tail ++ subtractLoop a' bj'
  end.

Definition subtractIntervals (base cut : list Interval)
  : result (list Interval) :=
  a <- mergeIntervals base ;;
  b <- mergeIntervals cut ;;
  match a with
  | [] => Ok []
  | _ =>
      match b with
      | [] => Ok a
      | _ => Ok (subtractLoop a b)
      end
  end.

(** *** lib/scheduling/mergeIntervals.ts (rows in, ISO intervals out) *)

(** [IntervalRow]: each bound is a [Date] or a string; [None] is a string
    that [toMs] turns into [NaN]. *)
Record IntervalRow : Type := mkRow { startUtc : option Z; endUtc : option Z }.

(** [MergedInterval]: two ISO strings of valid instants. *)
Record MergedInterval : Type := mkMerged { mStartUtc : Z; mEndUtc : Z }.

(** A [MergedInterval] read back as an [IntervalRow]. *)
Definition asRow (m : MergedInterval) : IntervalRow :=
  mkRow (Some (mStartUtc m)) (Some (mEndUtc m)).

(** [map(toMs)] followed by the [isFinite && end > start] filter. *)
Definition rowItem (r : IntervalRow) : option Interval :=
  match startUtc r, endUtc r with
  | Some s, Some e => if e >? s then Some (mkInterval s e) else None
  | _, _ => None
  end.

Fixpoint rowItems (rows : list IntervalRow) : list Interval :=
  match rows with
  | [] => []
  | r :: rows' =>
      match rowItem r with
      | Some i => i :: rowItems rows'
      | None => rowItems rows'
      end
  end.

Definition cmpStart (a b : Interval) : Z := startMs a - startMs b.

(** The loop that grows the last element of [out] in place. *)
Fixpoint mergeRowsLoop (out : list Interval) (items : list Interval)
  : list Interval :=
  match items with
  | [] => out
  | cur :: items' =>
      let prev := last out cur in
      if startMs cur <=? endMs prev
      then mergeRowsLoop
             (removelast out ++
                [mkInterval (startMs prev) (Z.max (endMs prev) (endMs cur))])
             items'
      else mergeRowsLoop (out ++ [cur]) items'
  end.

Definition mergeIntervalRows (rows : list IntervalRow)
  : list MergedInterval :=
  match sort cmpStart (rowItems rows) with
  | [] => []
  | first :: items =>
      map (fun x => mkMerged (startMs x) (endMs x))
          (mergeRowsLoop [first] items)
  end.

End Scheduling.

(** ** lib/db/schema.ts: the tables the scheduling core reads and writes *)

Module Schema.
Import Js.

(** [bookings.status]: pending | paid | canceled | refunded. *)
Inductive BookingStatus : Type := Pending | Paid | Canceled | Refunded.

Record Booking : Type := mkBooking {
  b_id : Z;
  b_teacherId : Z;
  b_studentId : Z;
  b_startUtc : Z;
  b_endUtc : Z;
  b_durationMinutes : Z;
  b_priceCents : Z;
  b_currency : string;
  b_status : BookingStatus;
  b_stripeCheckoutSessionId : option string;
  b_stripePaymentIntentId : option string;
  b_updatedAt : Z
}.

(** [teacher_availability]; [source] is "manual" by column default. *)
Record Availability : Type := mkAvailability {
  a_id : Z;
  a_teacherId : Z;
  a_startUtc : Z;
  a_endUtc : Z;
  a_source : string;
  a_createdAt : Z
}.

(** [lesson_offers]; [is_active] is an integer 1/0. *)
Record LessonOffer : Type := mkOffer {
  o_id : Z;
  o_teacherId : Z;
  o_durationMinutes : Z;
  o_priceCents : Z;
  o_currency : string;
  o_isActive : Z
}.

(** [availability_overrides]; [kind] is "add" or "block". *)
Record Override : Type := mkOverride {
  ov_id : Z;
  ov_teacherId : Z;
  ov_startUtc : Z;
  ov_endUtc : Z;
  ov_kind : string
}.

(** [availability_rules]: weekday 0=Sun..6=Sat, minutes since local
    midnight, IANA zone name, validity window. *)
Record Rule : Type := mkRule {
  r_id : Z;
  r_teacherId : Z;
  r_weekday : Z;
  r_startMin : Z;
  r_endMin : Z;
  r_timezone : string;
  r_validFrom : Z;
  r_validTo : Z
}.

Record Db : Type := mkDb {
  bookings : list Booking;
  teacherAvailability : list Availability;
  lessonOffers : list LessonOffer;
  availabilityOverrides : list Override;
  availabilityRules : list Rule;
  bookingsSeq : Z;
  teacherAvailabilitySeq : Z;
  availabilityOverridesSeq : Z;
  availabilityRulesSeq : Z
}.

Definition setBookings (s : Db) (bs : list Booking) : Db :=
  mkDb bs (teacherAvailability s) (lessonOffers s) (availabilityOverrides s)
       (availabilityRules s) (bookingsSeq s) (teacherAvailabilitySeq s)
       (availabilityOverridesSeq s) (availabilityRulesSeq s).

Definition setAvailability (s : Db) (rows : list Availability) : Db :=
  mkDb (bookings s) rows (lessonOffers s) (availabilityOverrides s)
       (availabilityRules s) (bookingsSeq s) (teacherAvailabilitySeq s)
       (availabilityOverridesSeq s) (availabilityRulesSeq s).

Definition setOverrides (s : Db) (rows : list Override) : Db :=
  mkDb (bookings s) (teacherAvailability s) (lessonOffers s) rows
       (availabilityRules s) (bookingsSeq s) (teacherAvailabilitySeq s)
       (availabilityOverridesSeq s) (availabilityRulesSeq s).

(** [insert(bookings).values(v).returning()]: the row gets the next value
    of the serial sequence. *)
Definition insertBooking (s : Db) (mk : Z -> Booking) : Booking * Db :=
  let b := mk (bookingsSeq s) in
  (b, mkDb (bookings s ++ [b]) (teacherAvailability s) (lessonOffers s)
           (availabilityOverrides s) (availabilityRules s)
           (bookingsSeq s + 1) (teacherAvailabilitySeq s)
           (availabilityOverridesSeq s) (availabilityRulesSeq s)).

(** [insert(teacherAvailability).values(v)] for one row. *)
Definition insertAvailability (s : Db) (mk : Z -> Availability) : Db :=
  mkDb (bookings s) (teacherAvailability s ++ [mk (teacherAvailabilitySeq s)])
       (lessonOffers s) (availabilityOverrides s) (availabilityRules s)
       (bookingsSeq s) (teacherAvailabilitySeq s + 1)
       (availabilityOverridesSeq s) (availabilityRulesSeq s).

(** [insert(teacherAvailability).values(rows)] for an array of rows. *)
Definition insertAvailabilities (s : Db) (mks : list (Z -> Availability))
  : Db :=
  fold_left insertAvailability mks s.

Definition insertOverride (s : Db) (mk : Z -> Override) : Db :=
  mkDb (bookings s) (teacherAvailability s) (lessonOffers s)
       (availabilityOverrides s ++ [mk (availabilityOverridesSeq s)])
       (availabilityRules s)
       (bookingsSeq s) (teacherAvailabilitySeq s)
       (availabilityOverridesSeq s + 1) (availabilityRulesSeq s).

Definition insertRule (s : Db) (mk : Z -> Rule) : Rule * Db :=
  let r := mk (availabilityRulesSeq s) in
  (r, mkDb (bookings s) (teacherAvailability s) (lessonOffers s)
           (availabilityOverrides s) (availabilityRules s ++ [r])
           (bookingsSeq s) (teacherAvailabilitySeq s)
           (availabilityOverridesSeq s) (availabilityRulesSeq s + 1)).

(** [update(bookings).set(...).where(eq(bookings.id, id))]. *)
Definition updateBookingsById (s : Db) (id : Z) (f : Booking -> Booking)
  : Db :=
  setBookings s
    (map (fun b => if b_id b =? id then f b else b) (bookings s)).

(** [db.transaction(body)]: a body that throws leaves the store as it was
    found and the error reaches the caller. *)
Definition transaction {A} (body : Db -> result (A * Db)) (s : Db)
  : result A * Db :=
  match body s with
  | Ok (a, s') => (Ok a, s')
  | Throw m => (Throw m, s)
  end.

Definition GRID_MINUTES : Z := 30.
Definition minutes (n : Z) : Z := n * 60000.

End Schema.

(** ** app/api/teachers/[teacherId]/free-slots/route.ts *)

Module FreeSlots.
Import Js Scheduling Schema.

(** [type Slot]: the two ISO strings are kept as the instants they
    denote.  For instants of the years 0000 to 9999 [toISOString] is
    injective and [localeCompare] on its results is the chronological
    order, which is what [localeCompare] below returns. *)
Record Slot : Type := mkSlot {
  slotStartUtc : Z;
  slotEndUtc : Z;
  durationMinutes : Z
}.

Definition localeCompare (a b : Z) : Z :=
  match a ?= b with
  | Lt => -1
  | Eq => 0
  | Gt => 1
  end.

(** The route-local [mergeIntervals]: no filtering, sort by start. *)
Definition mergeIntervals (rows : list Interval) : list Interval :=
  match rows with
  | [] => []
  | _ =>
      match sort cmpStart rows with
      | [] => []
      | first :: rest => mergeRowsLoop [first] rest
      end
  end.

Definition START_GRID_MIN : Z := 15.
Definition stepMs : Z := START_GRID_MIN * 60000.

(** [key(s)]: the string [start|end|duration]; the three components
    determine it and are kept as a triple. *)
Definition Key : Type := (Z * Z * Z)%type.
Definition key (s : Slot) : Key :=
  (slotStartUtc s, slotEndUtc s, durationMinutes s).
Definition keyEqb (a b : Key) : bool :=
  let '(a1, a2, a3) := a in
  let '(b1, b2, b3) := b in
  (a1 =? b1) && (a2 =? b2) && (a3 =? b3).

(** The mutable locals [seen] and [out]. *)
Record Acc : Type := mkAcc { seen : list Key; out : list Slot }.

Definition has (s : list Key) (k : Key) : bool := existsb (keyEqb k) s.

(** The body of [for (const d of durSet)] at grid point [t]. *)
Definition emit (t end_ : Z) (acc : Acc) (d : Z) : Acc :=
  let e := t + d * 60000 in
  if e <=? end_ then
    let slot := mkSlot t e d in
    let k := key slot in
    if has (seen acc) k then acc
    else mkAcc (seen acc ++ [k]) (out acc ++ [slot])
  else acc.

(** [while (t < end) { for d ...; t += stepMs }]; [None] when the fuel
    runs out before the loop condition fails. *)
Fixpoint walk (fuel : nat) (durSet : list Z) (end_ t : Z) (acc : Acc)
  : option Acc :=
  if t <? end_ then
    match fuel with
    | O => None
    | S fuel' =>
        walk fuel' durSet end_ (t + stepMs) (fold_left (emit t end_) durSet acc)
    end
  else Some acc.

(** The body of [for (const it of intervals)]. *)
Definition visit (fromMs toMs : Z) (durSet : list Z) (acc : Acc)
           (it : Interval) : option Acc :=
  let start := Z.max (startMs it) fromMs in
  let end_ := Z.min (endMs it) toMs in
  if end_ <=? start then Some acc
  else
    let t := start in
    let mod_ := Z.rem t stepMs in
    let t := if mod_ =? 0 then t else t + (stepMs - mod_) in
    walk (Z.to_nat ((end_ - t) / stepMs + 1)) durSet end_ t acc.

Fixpoint visitAll (fromMs toMs : Z) (durSet : list Z) (acc : Acc)
         (intervals : list Interval) : option Acc :=
  match intervals with
  | [] => Some acc
  | it :: rest =>
      match visit fromMs toMs durSet acc it with
      | Some acc' => visitAll fromMs toMs durSet acc' rest
      | None => None
      end
  end.

Definition cmpSlot (a b : Slot) : Z :=
  orElse (localeCompare (slotStartUtc a) (slotStartUtc b))
         (durationMinutes a - durationMinutes b).

Definition generateSlots (intervals : list Interval) (fromMs toMs : Z)
           (durations : list Z) : option (list Slot) :=
  let durSet := filter (includes [30; 45; 60]) durations in
  match visitAll fromMs toMs durSet (mkAcc [] []) intervals with
  | Some acc => Some (sort cmpSlot (out acc))
  | None => None
  end.

(** The request after [Number(teacherIdRaw)] and [parseIsoUtc]: [None] is
    a non-finite id, or a missing or unparsable bound. *)
Record Request : Type := mkRequest {
  rq_teacherId : option Z;
  rq_from : option Z;
  rq_to : option Z
}.

Inductive Response : Type :=
| Error (status : Z) (error : string)
| Slots (teacherId fromIso toIso : Z) (offersDurations : list Z)
        (count : Z) (slots : list Slot).

Definition activeDurations (s : Db) (teacherId : Z) : list Z :=
  map o_durationMinutes
      (filter (fun o => (o_teacherId o =? teacherId) && (o_isActive o =? 1))
              (lessonOffers s)).

Definition overlapRows (s : Db) (teacherId fromMs toMs : Z)
  : list Interval :=
  map (fun r => mkInterval (a_startUtc r) (a_endUtc r))
      (filter (fun r => (a_teacherId r =? teacherId)
                        && (a_startUtc r <? toMs) && (a_endUtc r >? fromMs))
              (teacherAvailability s)).

Definition GET (s : Db) (rq : Request) : option Response :=
  match rq_teacherId rq with
  | None => Some (Error 400 "Invalid teacherId")
  | Some teacherId =>
      match rq_from rq, rq_to rq with
      | Some fromMs, Some toMsVal =>
          if toMsVal <=? fromMs then Some (Error 400 "Invalid range")
          else
            let offers := activeDurations s teacherId in
            let durations :=
              match offers with
              | [] => [30; 45; 60]
              | _ => offers
              end in
            let intervalsRaw :=
              filter isValid (overlapRows s teacherId fromMs toMsVal) in
            let merged := mergeIntervals intervalsRaw in
            match generateSlots merged fromMs toMsVal durations with
            | Some slots =>
                Some (Slots teacherId fromMs toMsVal durations
                            (Z.of_nat (List.length slots)) slots)
            | None => None
            end
      | _, _ => Some (Error 400 "Missing/invalid from/to")
      end
  end.

End FreeSlots.

(** ** app/api/bookings/checkout/route.ts *)

Module Checkout.
Import Js Schema.

(** [requireUser()]: the session user, if any. *)
Record User : Type := mkUser { u_id : Z; u_email : option string }.

(** [body.startUtc] after [String(..)] and [DateTime.fromISO] is an
    [IsoField]. *)

(** The request: [Number(body.teacherId)] and [Number(body.durationMinutes)]
    are [None] when not finite. *)
Record Request : Type := mkRequest {
  rq_user : option User;
  rq_teacherId : option Z;
  rq_startUtc : IsoField;
  rq_durationMinutes : option Z
}.

(** What [stripe.checkout.sessions.create] answers. *)
Record StripeSession : Type := mkSession { cs_id : string; cs_url : string }.

(** [process.env] and the payment provider, as seen by one request. *)
Record Env : Type := mkEnv {
  STRIPE_DISABLED : bool;
  NEXT_PUBLIC_BASE_URL : string;
  stripeCreate : Booking -> result StripeSession;
  now : Z
}.

Inductive Response : Type :=
| Error (status : Z) (error : string)
| CheckoutUrl (checkoutUrl : string).

Definition showId (id : Z) : string :=
  NilZero.string_of_int (Z.to_int id).

Definition requiredStarts (start durationMinutes : Z) : list Z :=
  start :: (if durationMinutes =? 60 then [start + minutes GRID_MINUTES]
            else []).

Definition findOffer (s : Db) (teacherId durationMinutes : Z)
  : option LessonOffer :=
  find (fun o => (o_teacherId o =? teacherId)
                 && (o_durationMinutes o =? durationMinutes)
                 && (o_isActive o =? 1))
       (lessonOffers s).

(** [where teacherId = .. and startUtc in requiredStarts]. *)
Definition matchingRows (s : Db) (teacherId : Z) (starts : list Z)
  : list Availability :=
  filter (fun r => (a_teacherId r =? teacherId) && includes starts (a_startUtc r))
         (teacherAvailability s).

(** [rEnd.diff(rStart, "minutes").minutes !== GRID_MINUTES] *)
Definition notAtomic (r : Availability) : bool :=
  negb (a_endUtc r - a_startUtc r =? minutes GRID_MINUTES).

(** [delete(teacherAvailability).where(inArray(id, ids))] *)
Definition deleteAvailabilityByIds (s : Db) (ids : list Z) : Db :=
  setAvailability s
    (filter (fun r => negb (includes ids (a_id r))) (teacherAvailability s)).

(** The callback handed to [db.transaction]. *)
Definition checkoutTx (env : Env) (user : User)
           (teacherId start durationMinutes : Z) (s : Db)
  : result (string * Db) :=
  match findOffer s teacherId durationMinutes with
  | None => Throw "No price for this duration"
  | Some offer =>
      let starts := requiredStarts start durationMinutes in
      let rows := matchingRows s teacherId starts in
      if negb (Nat.eqb (List.length rows) (List.length starts))
      then Throw "Slot not available"
      else if existsb notAtomic rows
      then Throw "Availability row is not 30-min atomic"
      else
        let '(booking, s1) :=
          insertBooking s (fun id =>
            mkBooking id teacherId (u_id user) start
                      (start + minutes durationMinutes) durationMinutes
                      (o_priceCents offer) (o_currency offer) Pending
                      None None (now env)) in
        let s2 := deleteAvailabilityByIds s1 (map a_id rows) in
        if STRIPE_DISABLED env then
          let s3 := updateBookingsById s2 (b_id booking) (fun b =>
            mkBooking (b_id b) (b_teacherId b) (b_studentId b) (b_startUtc b)
                      (b_endUtc b) (b_durationMinutes b) (b_priceCents b)
                      (b_currency b) Paid (b_stripeCheckoutSessionId b)
                      (b_stripePaymentIntentId b) (now env)) in
          Ok (NEXT_PUBLIC_BASE_URL env ++ "/booking/success?bookingId="
                ++ showId (b_id booking), s3)%string
        else
          checkout <- stripeCreate env booking ;;
          let s3 := updateBookingsById s2 (b_id booking) (fun b =>
            mkBooking (b_id b) (b_teacherId b) (b_studentId b) (b_startUtc b)
                      (b_endUtc b) (b_durationMinutes b) (b_priceCents b)
                      (b_currency b) (b_status b) (Some (cs_id checkout))
                      (b_stripePaymentIntentId b) (now env)) in
          Ok (cs_url checkout, s3)
  end.

Definition POST (env : Env) (rq : Request) (s : Db) : Response * Db :=
  match rq_user rq with
  | None => (Error 401 "Unauthorized", s)
  | Some user =>
      if u_id user =? 0 then (Error 401 "Unauthorized", s) else
      match rq_teacherId rq, rq_startUtc rq, rq_durationMinutes rq with
      | Some teacherId, IsoInvalid, Some durationMinutes =>
          if negb (includes [30; 60] durationMinutes)
          then (Error 400 "Only 30/60 supported right now (45 requires 15-min grid).", s)
          else (Error 400 "Invalid startUtc", s)
      | Some teacherId, IsoAt start, Some durationMinutes =>
          if negb (includes [30; 60] durationMinutes)
          then (Error 400 "Only 30/60 supported right now (45 requires 15-min grid).", s)
          else
            match transaction (checkoutTx env user teacherId start durationMinutes) s with
            | (Ok checkoutUrl, s') => (CheckoutUrl checkoutUrl, s')
            | (Throw msg, s') =>
                (Error 400 (if String.eqb msg EmptyString then "Checkout failed" else msg), s')
            end
      | _, _, _ => (Error 400 "Missing/invalid fields", s)
      end
  end.

End Checkout.

(** ** app/api/bookings/cancel/route.ts *)

Module Cancel.
Import Js Schema.

(** [for (let i = 0; i < blocks; i++) out.push(start + GRID_MINUTES * i)] *)
Fixpoint atomicStartsFrom (start : Z) (i : Z) (remaining : nat) : list Z :=
  match remaining with
  | O => []
  | S n => (start + minutes (GRID_MINUTES * i)) :: atomicStartsFrom start (i + 1) n
  end.

(** [diff] is a number of minutes, possibly fractional: [diff % 30 !== 0]
    is decided on the milliseconds. *)
Definition buildAtomicStarts (startUtc endUtc : Z) : list Z :=
  let diffMs := endUtc - startUtc in
  if diffMs <=? 0 then []
  else if negb (diffMs mod minutes GRID_MINUTES =? 0) then []
  else
    let blocks := diffMs / minutes GRID_MINUTES in
    atomicStartsFrom startUtc 0 (Z.to_nat blocks).

Record Request : Type := mkRequest {
  rq_userId : option Z;
  rq_bookingId : option Z
}.

Inductive TxResult : Type :=
| NotFound
| CannotCancel (status : BookingStatus)
| Done (restored : Z).

Inductive Response : Type :=
| Error (status : Z) (error : string)
| Restored (restored : Z).

Definition statusName (st : BookingStatus) : string :=
  match st with
  | Pending => "pending"
  | Paid => "paid"
  | Canceled => "canceled"
  | Refunded => "refunded"
  end.

(** [select .. where id = bookingId and studentId = user.id limit 1] *)
Definition findBooking (s : Db) (bookingId userId : Z) : option Booking :=
  find (fun b => (b_id b =? bookingId) && (b_studentId b =? userId))
       (bookings s).

(** The [startUtc] of the teacher's rows among [requiredStarts]. *)
Definition existingStarts (s : Db) (teacherId : Z) (starts : list Z)
  : list Z :=
  map a_startUtc
      (filter (fun r => (a_teacherId r =? teacherId)
                        && includes starts (a_startUtc r))
              (teacherAvailability s)).

Definition rowsToInsert (now teacherId : Z) (existingSet starts : list Z)
  : list (Z -> Availability) :=
  map (fun startDate id =>
         mkAvailability id teacherId startDate
                        (startDate + minutes GRID_MINUTES) "manual" now)
      (filter (fun d => negb (includes existingSet d)) starts).

Definition cancelTx (now userId bookingId : Z) (s : Db)
  : result (TxResult * Db) :=
  match findBooking s bookingId userId with
  | None => Ok (NotFound, s)
  | Some b =>
      match b_status b with
      | Paid | Refunded => Ok (CannotCancel (b_status b), s)
      | _ =>
          let s1 :=
            match b_status b with
            | Canceled => s
            | _ =>
                updateBookingsById s (b_id b) (fun b =>
                  mkBooking (b_id b) (b_teacherId b) (b_studentId b)
                            (b_startUtc b) (b_endUtc b) (b_durationMinutes b)
                            (b_priceCents b) (b_currency b) Canceled
                            (b_stripeCheckoutSessionId b)
                            (b_stripePaymentIntentId b) now)
            end in
          let starts := buildAtomicStarts (b_startUtc b) (b_endUtc b) in
          match starts with
          | [] => Ok (Done 0, s1)
          | _ =>
              let existingSet := existingStarts s1 (b_teacherId b) starts in
              let rows := rowsToInsert now (b_teacherId b) existingSet starts in
              let s2 :=
                match rows with
                | [] => s1
                | _ => insertAvailabilities s1 rows
                end in
              Ok (Done (Z.of_nat (List.length rows)), s2)
          end
      end
  end.

Definition POST (now : Z) (rq : Request) (s : Db) : Response * Db :=
  match rq_userId rq with
  | None => (Error 401 "Unauthorized", s)
  | Some userId =>
      if userId =? 0 then (Error 401 "Unauthorized", s) else
      match rq_bookingId rq with
      | None => (Error 400 "Missing/invalid bookingId", s)
      | Some bookingId =>
          match transaction (cancelTx now userId bookingId) s with
          | (Ok NotFound, s') => (Error 404 "Booking not found", s')
          | (Ok (CannotCancel st), s') =>
              (Error 400 ("Cannot cancel booking with status " ++ statusName st), s')
          | (Ok (Done restored), s') => (Restored restored, s')
          | (Throw msg, s') =>
              (Error 500 (if String.eqb msg EmptyString then "Cancel failed" else msg), s')
          end
      end
  end.

End Cancel.

(** ** app/api/teachers/[teacherId]/availability/route.ts *)

Module Availability.
Import Js Schema.

(** Luxon field access in zone UTC, on the epoch milliseconds. *)
Definition minuteOf (t : Z) : Z := (t / 60000) mod 60.

(** [dt.set({ minute: m, second: 0, millisecond: 0 })] *)
Definition setMinute (t m : Z) : Z := (t / 3600000) * 3600000 + m * 60000.

(** [dt.set({ second: 0, millisecond: 0 })] *)
Definition clearSeconds (t : Z) : Z := (t / 60000) * 60000.

Definition roundDownToGrid (dt : Z) : Z :=
  let m := minuteOf dt - (minuteOf dt) mod GRID_MINUTES in
  setMinute dt m.

(** One atomic slot, [{ startUtc, endUtc }]. *)
Record GridSlot : Type := mkSlot { g_startUtc : Z; g_endUtc : Z }.

(** [while (t.plus({minutes: 30}) <= end) { out.push(..); t = t.plus(..) }];
    [None] when the fuel runs out before the loop condition fails. *)
Fixpoint splitLoop (fuel : nat) (t end_ : Z) : option (list GridSlot) :=
  if t + minutes GRID_MINUTES <=? end_ then
    match fuel with
    | O => None
    | S fuel' =>
        match splitLoop fuel' (t + minutes GRID_MINUTES) end_ with
        | Some rest => Some (mkSlot t (t + minutes GRID_MINUTES) :: rest)
        | None => None
        end
    end
  else Some [].

Definition splitIntoGridSlots (startUtcIso endUtcIso : IsoField)
  : option (list GridSlot) :=
  match startUtcIso, endUtcIso with
  | IsoAt start, IsoAt end_ =>
      if end_ <=? start then Some []
      else
        let start := roundDownToGrid start in
        let end_ := clearSeconds end_ in
        splitLoop (Z.to_nat ((end_ - start) / minutes GRID_MINUTES)) start end_
  | _, _ => Some []
  end.

Record Request : Type := mkRequest {
  rq_userId : option Z;
  rq_teacherId : option Z;
  rq_startUtc : IsoField;
  rq_endUtc : IsoField
}.

Inductive Response : Type :=
| Error (status : Z) (error : string)
| Inserted (inserted : Z).

(** [select id .. where teacherId = .. and startUtc = .. and endUtc = ..
    limit 1], tested for emptiness. *)
Definition exists_ (s : Db) (teacherId : Z) (g : GridSlot) : bool :=
  existsb (fun r => (a_teacherId r =? teacherId)
                    && (a_startUtc r =? g_startUtc g)
                    && (a_endUtc r =? g_endUtc g))
          (teacherAvailability s).

(** The body of [for (const s of slots)] inside the transaction. *)
Definition insertIfMissing (now teacherId : Z) (s : Db) (g : GridSlot) : Db :=
  if exists_ s teacherId g then s
  else insertAvailability s (fun id =>
         mkAvailability id teacherId (g_startUtc g) (g_endUtc g) "manual" now).

Definition postTx (now teacherId : Z) (slots : list GridSlot) (s : Db)
  : result (unit * Db) :=
  Ok (tt, fold_left (insertIfMissing now teacherId) slots s).

Definition POST (now : Z) (rq : Request) (s : Db) : option (Response * Db) :=
  match rq_userId rq with
  | None => Some (Error 401 "Unauthorized", s)
  | Some userId =>
      match rq_teacherId rq with
      | None => Some (Error 400 "Invalid teacherId", s)
      | Some teacherId =>
          if negb (userId =? teacherId) then Some (Error 403 "Forbidden", s)
          else
            match rq_startUtc rq, rq_endUtc rq with
            | IsoMissing, _ | _, IsoMissing =>
                Some (Error 400 "Missing startUtc/endUtc", s)
            | startUtc, endUtc =>
                match splitIntoGridSlots startUtc endUtc with
                | None => None
                | Some [] => Some (Error 400 "Empty selection", s)
                | Some slots =>
                    match transaction (postTx now teacherId slots) s with
                    | (Ok _, s') =>
                        Some (Inserted (Z.of_nat (List.length slots)), s')
                    | (Throw msg, s') => Some (Error 500 msg, s')
                    end
                end
            end
      end
  end.

End Availability.

(** ** app/api/teachers/[teacherId]/availability-rules/route.ts *)

Module AvailabilityRules.
Import Js Schema.

(** [whereTouching]: the teacher's "add" overrides that overlap or touch
    [[startMs, endMs]]. *)
Definition touching (teacherId startMs endMs : Z) (o : Override) : bool :=
  (ov_teacherId o =? teacherId) && String.eqb (ov_kind o) "add"
  && (ov_startUtc o <=? endMs) && (ov_endUtc o >=? startMs).

Definition insertMergedAvailabilityBlock (teacherId startUtc endUtc : Z)
           (s : Db) : Db :=
  let existing := filter (touching teacherId startUtc endUtc)
                         (availabilityOverrides s) in
  let mergedStart :=
    fold_left (fun m o => if ov_startUtc o <? m then ov_startUtc o else m)
              existing startUtc in
  let mergedEnd :=
    fold_left (fun m o => if ov_endUtc o >? m then ov_endUtc o else m)
              existing endUtc in
  let s1 :=
    match existing with
    | [] => s
    | _ => setOverrides s
             (filter (fun o => negb (touching teacherId startUtc endUtc o))
                     (availabilityOverrides s))
    end in
  insertOverride s1 (fun id => mkOverride id teacherId mergedStart mergedEnd "add").

(** The body as [createRuleSchema.parse] returns it (the zone defaults
    to "Europe/Berlin"). *)
Record RuleBody : Type := mkBody {
  weekday : Z;
  startMin : Z;
  endMin : Z;
  timezone : string
}.

(** A calendar day of the expansion window in the rule's zone, as luxon
    computes it: the instant of its local midnight and its weekday
    (1 = Monday .. 7 = Sunday).  The days from [validFrom] to [validTo]
    come with the request. *)
Record Day : Type := mkDay { d_startOfDay : Z; d_weekday : Z }.

Record Request : Type := mkRequest {
  rq_teacherId : option Z;
  rq_body : RuleBody;
  rq_validFrom : Z;
  rq_validTo : Z;
  rq_days : list Day
}.

Inductive Response : Type :=
| Error (status : Z) (error : string)
| Created (rule : Rule).

(** The body of [while (day <= endDay)]. *)
Definition expandDay (teacherId : Z) (body : RuleBody) (s : Db) (day : Day)
  : Db :=
  let weekday0 := (d_weekday day) mod 7 in
  if weekday0 =? weekday body then
    let startLocal := d_startOfDay day + minutes (startMin body) in
    let endLocal := d_startOfDay day + minutes (endMin body) in
    insertMergedAvailabilityBlock teacherId startLocal endLocal s
  else s.

Definition POST (rq : Request) (s : Db) : Response * Db :=
  match rq_teacherId rq with
  | None => (Error 400 "Invalid teacherId", s)
  | Some teacherId =>
      let body := rq_body rq in
      if endMin body <=? startMin body
      then (Error 400 "endMin must be > startMin", s)
      else
        let '(rule, s1) :=
          insertRule s (fun id =>
            mkRule id teacherId (weekday body) (startMin body) (endMin body)
                   (timezone body) (rq_validFrom rq) (rq_validTo rq)) in
        (Created rule, fold_left (expandDay teacherId body) (rq_days rq) s1)
  end.

End AvailabilityRules.

(** ** app/api/stripe/webhook/route.ts *)

Module Webhook.
Import Js Schema.

(** The value of [Number(x)] for a string [x]. *)
Inductive JsNumber : Type :=
| Int (z : Z)
| Fractional
| NaN
| Infinite.

(** [session.metadata?.bookingId]: absent, or a string given with the
    number [Number] reads in it.  The empty string is falsy. *)
Inductive MetadataValue : Type :=
| Absent
| Text (raw : string) (number : JsNumber).

Record Session : Type := mkSession {
  cs_id : string;
  cs_bookingId : MetadataValue;
  cs_payment_intent : option string
}.

Inductive Event : Type :=
| CheckoutSessionCompleted (session : Session)
| OtherEvent (type : string).

(** The request and its environment: the [stripe-signature] header, the
    [STRIPE_WEBHOOK_SECRET] variable, and what [constructEvent] makes of
    the raw body. *)
Record Request : Type := mkRequest {
  rq_sig : option string;
  rq_secret : option string;
  rq_constructEvent : result Event;
  rq_now : Z
}.

Inductive Response : Type :=
| Error (status : Z) (error : string)
| OkNote (note : string)
| Received.

(** The status line of a response: [NextResponse.json(body)] is a 200. *)
Definition statusOf (r : Response) : Z :=
  match r with
  | Error status _ => status
  | OkNote _ => 200
  | Received => 200
  end.

(** A number bound to a parameter compared with the [integer] column
    [bookings.id]: PostgreSQL reads the parameter as an [integer] and
    raises an error on anything else. *)
Definition pgInteger (n : JsNumber) : result Z :=
  match n with
  | Int z =>
      if (-2147483648 <=? z) && (z <=? 2147483647) then Ok z
      else Throw "value is out of range for type integer"
  | _ => Throw "invalid input syntax for type integer"
  end.

Definition markPaid (now : Z) (session : Session) (b : Booking) : Booking :=
  mkBooking (b_id b) (b_teacherId b) (b_studentId b) (b_startUtc b)
            (b_endUtc b) (b_durationMinutes b) (b_priceCents b)
            (b_currency b) Paid (Some (cs_id session))
            (cs_payment_intent session) now.

(** The second [try] block. *)
Definition handle (now : Z) (event : Event) (s : Db)
  : result (Response * Db) :=
  match event with
  | CheckoutSessionCompleted session =>
      match cs_bookingId session with
      | Absent => Ok (OkNote "No bookingId in metadata", s)
      | Text raw number =>
          if String.eqb raw EmptyString then Ok (OkNote "No bookingId in metadata", s)
          else
            id <- pgInteger number ;;
            Ok (Received, updateBookingsById s id (markPaid now session))
      end
  | OtherEvent _ => Ok (Received, s)
  end.

Definition POST (rq : Request) (s : Db) : Response * Db :=
  match rq_sig rq with
  | None => (Error 400 "Missing stripe-signature", s)
  | Some sig =>
      if String.eqb sig EmptyString then (Error 400 "Missing stripe-signature", s) else
      match rq_secret rq with
      | None => (Error 500 "Missing STRIPE_WEBHOOK_SECRET", s)
      | Some secret =>
          if String.eqb secret EmptyString
          then (Error 500 "Missing STRIPE_WEBHOOK_SECRET", s) else
          match rq_constructEvent rq with
          | Throw msg => (Error 400 ("Webhook Error: " ++ msg), s)
          | Ok event =>
              match handle (rq_now rq) event s with
              | Ok (resp, s') => (resp, s')
              | Throw msg =>
                  (Error 500 (if String.eqb msg EmptyString then "Webhook handler failed"
                              else msg), s)
              end
          end
      end
  end.

End Webhook.

(** ** app/api/teachers/[teacherId]/availability/route.ts, merged view *)

Module AvailabilityEvents.
Import Js Scheduling Schema.

(** [mergeIntervals] of this route is, word for word, the function of
    the free-slots route. *)
Definition mergeIntervals (rows : list Interval) : list Interval :=
  FreeSlots.mergeIntervals rows.

(** One calendar event.  Its [id] is the template string
    [teacherId:start:end] and is determined by the three values kept
    here; [title] and [display] are constants. *)
Record Event : Type := mkEvent {
  ev_teacherId : Z;
  ev_start : Z;
  ev_end : Z
}.

(** The request after [requireUser], [Number(raw)], [parseIsoUtc] and
    [toLowerCase] of the mode (absent: "merged"). *)
Record Request : Type := mkRequest {
  rq_userId : option Z;
  rq_teacherId : option Z;
  rq_from : option Z;
  rq_to : option Z;
  rq_mode : string
}.

Inductive Response : Type :=
| Error (status : Z) (error : string)
| Rows (rows : list Availability)
| Events (teacherId count : Z) (events : list Event).

(** [teacherId = .. and startUtc < to and endUtc > from] *)
Definition overlapping (teacherId fromMs toMs : Z) (r : Availability)
  : bool :=
  (a_teacherId r =? teacherId) && (a_startUtc r <? toMs)
  && (a_endUtc r >? fromMs).

(** [orderBy(startUtc)]; rows with equal starts are kept in table
    order. *)
Definition cmpStartUtc (a b : Availability) : Z :=
  a_startUtc a - a_startUtc b.

Definition selectRows (s : Db) (teacherId fromMs toMs : Z)
  : list Availability :=
  sort cmpStartUtc
       (filter (overlapping teacherId fromMs toMs) (teacherAvailability s)).

Definition GET (s : Db) (rq : Request) : Response :=
  match rq_userId rq with
  | None => Error 401 "Unauthorized"
  | Some userId =>
      match rq_teacherId rq with
      | None => Error 400 "Invalid teacherId"
      | Some teacherId =>
          if negb (userId =? teacherId) then Error 403 "Forbidden"
          else
            match rq_from rq, rq_to rq with
            | Some fromMs, Some toMs =>
                if toMs <=? fromMs then Error 400 "Invalid range"
                else
                  let rows := selectRows s teacherId fromMs toMs in
                  if String.eqb (rq_mode rq) "atomic" then Rows rows
                  else
                    let intervalsRaw :=
                      filter isValid
                             (map (fun r => mkInterval (a_startUtc r) (a_endUtc r))
                                  rows) in
                    let merged := mergeIntervals intervalsRaw in
                    let events :=
                      map (fun m => mkEvent teacherId (startMs m) (endMs m))
                          merged in
                    Events teacherId (Z.of_nat (List.length events)) events
            | _, _ => Error 400 "Missing/invalid from/to"
            end
      end
  end.

(** What [parseMergedEventId] finds in the id before it judges it: no
    match of either format, or the three parts with [Number] and
    [parseIsoUtc] applied ([None]: not a finite number, not an
    instant).  The teacher id read here is only ever compared with the
    teacher id of the route. *)
Inductive EventIdParts : Type :=
| NoMatch
| Parts (tid : option Z) (startIso endIso : option Z).

Record Parsed : Type := mkParsed { p_teacherId : Z; p_from : Z; p_to : Z }.

Definition parseMergedEventId (e : EventIdParts) : option Parsed :=
  match e with
  | Parts (Some teacherId) (Some fromMs) (Some toMs) =>
      if toMs <=? fromMs then None else Some (mkParsed teacherId fromMs toMs)
  | _ => None
  end.

(** The search parameters of a DELETE: [id] and [eventId] are [None]
    when absent or empty; [id] is given by the number [Number] reads in
    it. *)
Record DeleteRequest : Type := mkDelete {
  dq_userId : option Z;
  dq_teacherId : option Z;
  dq_id : option Webhook.JsNumber;
  dq_eventId : option EventIdParts;
  dq_from : option Z;
  dq_to : option Z
}.

Inductive DeleteResponse : Type :=
| DeleteError (status : Z) (error : string)
| Deleted (deleted : Z) (mode : string).

(** [delete .. where teacherId = .. and id = ..] *)
Definition deleteById (s : Db) (teacherId id : Z) : Db :=
  setAvailability s
    (filter (fun r => negb ((a_teacherId r =? teacherId) && (a_id r =? id)))
            (teacherAvailability s)).

(** [delete .. where teacherId = .. and startUtc < to and endUtc > from
    returning id]: the number of rows deleted and the store. *)
Definition deleteRange (s : Db) (teacherId fromMs toMs : Z) : Z * Db :=
  (Z.of_nat (List.length (filter (overlapping teacherId fromMs toMs)
                                 (teacherAvailability s))),
   setAvailability s
     (filter (fun r => negb (overlapping teacherId fromMs toMs r))
             (teacherAvailability s))).

(** The handler has no [try]: an error of the database reaches the
    framework, and the statement that raised it has written nothing. *)
Definition DELETE (rq : DeleteRequest) (s : Db)
  : result DeleteResponse * Db :=
  match dq_userId rq with
  | None => (Ok (DeleteError 401 "Unauthorized"), s)
  | Some userId =>
      match dq_teacherId rq with
      | None => (Ok (DeleteError 400 "Invalid teacherId"), s)
      | Some teacherId =>
          if negb (userId =? teacherId)
          then (Ok (DeleteError 403 "Forbidden"), s)
          else
            match dq_id rq with
            | Some Webhook.NaN | Some Webhook.Infinite =>
                (Ok (DeleteError 400 "Missing/invalid id"), s)
            | Some n =>
                match Webhook.pgInteger n with
                | Ok id =>
                    (Ok (Deleted 1 "atomic"), deleteById s teacherId id)
                | Throw msg => (Throw msg, s)
                end
            | None =>
                match dq_eventId rq with
                | Some eventId =>
                    match parseMergedEventId eventId with
                    | None => (Ok (DeleteError 400 "Invalid eventId"), s)
                    | Some parsed =>
                        if negb (p_teacherId parsed =? teacherId)
                        then (Ok (DeleteError 400 "eventId teacherId mismatch"), s)
                        else
                          let '(n, s') :=
                            deleteRange s teacherId (p_from parsed)
                                        (p_to parsed) in
                          (Ok (Deleted n "eventId"), s')
                    end
                | None =>
                    match dq_from rq, dq_to rq with
                    | Some fromMs, Some toMs =>
                        if toMs <=? fromMs
                        then (Ok (DeleteError 400 "Invalid range"), s)
                        else
                          let '(n, s') :=
                            deleteRange s teacherId fromMs toMs in
                          (Ok (Deleted n "range"), s')
                    | _, _ =>
                        (Ok (DeleteError 400 "Missing/invalid from/to"), s)
                    end
                end
            end
      end
  end.

End AvailabilityEvents.

(** ** app/api/bookings/route.ts *)

Module Bookings.
Import Js Schema.

(** [overlaps], on the instants its four ISO strings denote. *)
Definition overlaps (aStart aEnd bStart bEnd : Z) : bool :=
  (aStart <? bEnd) && (aEnd >? bStart).

(** [Math.round(e.diff(s, "minutes").minutes)]: the difference in
    minutes, a fraction, rounded to the nearest integer, halves up. *)
Definition diffMinutes (startUtc endUtc : Z) : Z :=
  (endUtc - startUtc + 30000) / 60000.

(** [parsed.data]; an ISO string that [isIsoUtc] refuses is [None]. *)
Record Body : Type := mkBody {
  teacherId : Z;
  startUtc : option Z;
  endUtc : option Z
}.

(** [getUser()], and [bodySchema.safeParse] of the JSON body ([None]: it
    failed). *)
Record Request : Type := mkRequest {
  rq_userId : option Z;
  rq_body : option Body;
  rq_now : Z
}.

Inductive Response : Type :=
| Error (status : Z) (error : string)
| Created (bookingId durationMinutes priceCents : Z) (currency : string).

Definition isInsideAvailability (s : Db) (teacherId start end_ : Z) : bool :=
  existsb (fun a => (start >=? a_startUtc a) && (end_ <=? a_endUtc a))
          (filter (fun a => a_teacherId a =? teacherId)
                  (teacherAvailability s)).

(** [status = 'pending' or status = 'paid'] *)
Definition blocks (st : BookingStatus) : bool :=
  match st with
  | Pending | Paid => true
  | Canceled | Refunded => false
  end.

Definition isOverlapping (s : Db) (teacherId start end_ : Z) : bool :=
  existsb (fun b => overlaps start end_ (b_startUtc b) (b_endUtc b))
          (filter (fun b => (b_teacherId b =? teacherId) && blocks (b_status b))
                  (bookings s)).

(** [select .. where teacherId = .. and durationMinutes = .. and
    isActive = 1 limit 1] *)
Definition findOffer (s : Db) (teacherId durationMinutes : Z)
  : option LessonOffer :=
  find (fun o => (o_teacherId o =? teacherId)
                 && (o_durationMinutes o =? durationMinutes)
                 && (o_isActive o =? 1))
       (lessonOffers s).

Definition POST (rq : Request) (s : Db) : Response * Db :=
  match rq_userId rq with
  | None => (Error 401 "Unauthorized", s)
  | Some userId =>
      match rq_body rq with
      | None => (Error 400 "Invalid payload", s)
      | Some body =>
          match startUtc body, endUtc body with
          | Some start, Some end_ =>
              if end_ <=? start
              then (Error 400 "endUtc must be after startUtc", s)
              else
                let durationMinutes := diffMinutes start end_ in
                if negb (includes [30; 45; 60] durationMinutes)
                then (Error 400 "Invalid duration. Allowed: 30/45/60", s)
                else if negb (isInsideAvailability s (teacherId body) start end_)
                then (Error 409 "Slot is not available", s)
                else if isOverlapping s (teacherId body) start end_
                then (Error 409 "Slot already booked", s)
                else
                  match findOffer s (teacherId body) durationMinutes with
                  | None => (Error 409 "No active offer for this duration", s)
                  | Some offer =>
                      let '(created, s') :=
                        insertBooking s (fun id =>
                          mkBooking id (teacherId body) userId start end_
                                    durationMinutes (o_priceCents offer)
                                    (o_currency offer) Pending None None
                                    (rq_now rq)) in
                      (Created (b_id created) durationMinutes
                               (o_priceCents offer) (o_currency offer), s')
                  end
          | _, _ => (Error 400 "Invalid ISO datetime (UTC expected)", s)
          end
      end
  end.

End Bookings.

(** ** components/ui/FullCalendarWeek/FullCalendarWeek.tsx *)

Module FullCalendarWeek.
Import Js Schema.

Definition addDays (d days : Z) : Z := d + days * 24 * 60 * 60 * 1000.
Definition addMinutes (d minutes : Z) : Z := d + minutes * 60 * 1000.

(** [Date.UTC] of the UTC calendar date of [d]: the midnight that opens
    the UTC day of [d]. *)
Definition startOfDayUtc (d : Z) : Z := d / 86400000 * 86400000.

(** [d.getUTCDay()], 0 for Sunday; the epoch was a Thursday. *)
Definition getUTCDay (d : Z) : Z := (d / 86400000 + 4) mod 7.

Record Occurrence : Type := mkOccurrence { oc_startUtc : Z; oc_endUtc : Z }.

(** [for (let w = 0; w < weeks; w++) occurrences.push(..)] *)
Fixpoint occurrencesFrom (first startMin endMin w : Z) (remaining : nat)
  : list Occurrence :=
  match remaining with
  | O => []
  | S n =>
      let day := addDays first (w * 7) in
      mkOccurrence (addMinutes day startMin) (addMinutes day endMin)
      :: occurrencesFrom first startMin endMin (w + 1) n
  end.

(** What [applyRepeatWeeklyNext3Months] does before it posts: an alert
    and nothing else, or the occurrences to post.  [anchor] is the start
    of the displayed range (or the present time), [startMin] and
    [endMin] are [hhmmToMinutes] of the two selected times. *)
Inductive Plan : Type :=
| Alert (message : string)
| Occurrences (occurrences : list Occurrence).

Definition planRepeatWeekly (anchor repeatWeekday startMin endMin : Z)
  : Plan :=
  if endMin <=? startMin then Alert "Endzeit muss nach Startzeit liegen."
  else if negb (Z.rem startMin 15 =? 0) || negb (Z.rem endMin 15 =? 0)
  then Alert "Bitte nur 15-Minuten-Takte verwenden."
  else
    let anchorDayUtc := startOfDayUtc anchor in
    let anchorWeekday := getUTCDay anchorDayUtc in
    let delta := Z.rem (repeatWeekday - anchorWeekday + 7) 7 in
    let first := addDays anchorDayUtc delta in
    Occurrences (occurrencesFrom first startMin endMin 0 13).

(** [for (const occ of occurrences) { res = await fetch(apiBase, POST,
    occ); if (!res.ok) throw .. }]: the occurrences are posted one
    after the other to the availability route, as the signed-in user,
    and the first refusal ends the loop; of the text of the refusal the
    error message is kept. *)
Fixpoint postOccurrences (now : Z) (userId : option Z) (teacherId : Z)
         (occs : list Occurrence) (s : Db) : option (result unit * Db) :=
  match occs with
  | [] => Some (Ok tt, s)
  | occ :: rest =>
      match Availability.POST now
              (Availability.mkRequest userId (Some teacherId)
                 (IsoAt (oc_startUtc occ)) (IsoAt (oc_endUtc occ))) s with
      | None => None
      | Some (Availability.Inserted _, s') =>
          postOccurrences now userId teacherId rest s'
      | Some (Availability.Error _ error, s') => Some (Throw error, s')
      end
  end.

End FullCalendarWeek.

(** * Specification vocabulary

    The predicates in which the properties of the scheduling core are
    stated, and the concrete stores and requests used as examples. *)

Module IntervalSpec.
Import Js Scheduling.

(** [t] lies in the half-open interval [[startMs, endMs)]. *)
Definition covers (i : Interval) (t : Z) : Prop := startMs i <= t < endMs i.

(** [t] lies in the union of the intervals of [l]. *)
Definition covered (l : list Interval) (t : Z) : Prop :=
  exists i, In i l /\ covers i t.

Definition wellFormed (i : Interval) : Prop := endMs i > startMs i.

Definition startLe (a b : Interval) : Prop := startMs a <= startMs b.
Definition before (a b : Interval) : Prop := endMs a < startMs b.

Definition sortedByStart (l : list Interval) : Prop := StronglySorted startLe l.
Definition separated (l : list Interval) : Prop := StronglySorted before l.

Definition rowCovers (r : IntervalRow) (t : Z) : Prop :=
  exists s e, startUtc r = Some s /\ endUtc r = Some e /\ s <= t < e.
Definition rowsCovered (l : list IntervalRow) (t : Z) : Prop :=
  exists r, In r l /\ rowCovers r t.
Definition wellFormedRow (r : IntervalRow) : Prop :=
  exists s e, startUtc r = Some s /\ endUtc r = Some e /\ e > s.
Definition ofMerged (m : MergedInterval) : Interval :=
  mkInterval (mStartUtc m) (mEndUtc m).
End IntervalSpec.

Module SubtractSpec.
Import Scheduling IntervalSpec.
Definition endLe (a b : Interval) : Prop := endMs a <= startMs b.
Definition disjoint (a b : Interval) : Prop :=
  forall t, ~ (covers a t /\ covers b t).
Definition pairwiseDisjoint (l : list Interval) : Prop :=
  ForallOrdPairs disjoint l.
End SubtractSpec.

Module SlotSpec.
Import Scheduling FreeSlots.

(** The slot starts on the 15-minute grid of absolute time. *)
Definition onGrid (s : Slot) : Prop := slotStartUtc s mod stepMs = 0.

(** The slot's duration is an active, supported one and fixes its end. *)
Definition hasActiveDuration (durations : list Z) (s : Slot) : Prop :=
  In (durationMinutes s) durations
  /\ In (durationMinutes s) [30; 45; 60]
  /\ slotEndUtc s = slotStartUtc s + durationMinutes s * 60000.

(** The slot lies inside one interval clipped to the query range. *)
Definition insideWindow (intervals : list Interval) (fromMs toMs : Z)
           (s : Slot) : Prop :=
  exists it, In it intervals
    /\ Z.max (startMs it) fromMs <= slotStartUtc s
    /\ slotEndUtc s <= Z.min (endMs it) toMs.

Definition slotOk (intervals : list Interval) (fromMs toMs : Z)
           (durations : list Z) (s : Slot) : Prop :=
  onGrid s /\ hasActiveDuration durations s
  /\ insideWindow intervals fromMs toMs s.


(** What the loops of [generateSlots] maintain on [seen] and [out]. *)
Definition accInv (intervals : list Interval) (fromMs toMs : Z)
           (durations : list Z) (acc : Acc) : Prop :=
  seen acc = map key (out acc)
  /\ NoDup (out acc)
  /\ Forall (slotOk intervals fromMs toMs durations) (out acc).
End SlotSpec.

Module CancelSpec.
Import Js Schema.
(** The identifying columns of an availability row. *)
Definition slotOf (r : Availability) : Z * Z * Z :=
  (a_teacherId r, a_startUtc r, a_endUtc r).

(** The start instants of the 30-minute blocks that tile
    [[startUtc, endUtc)]: none unless the range is a positive whole
    number of blocks. *)
Definition impliedStarts (startUtc endUtc : Z) : list Z :=
  if (0 <? endUtc - startUtc)
     && ((endUtc - startUtc) mod minutes GRID_MINUTES =? 0)
  then map (fun k => startUtc + Z.of_nat k * minutes GRID_MINUTES)
           (seq 0 (Z.to_nat ((endUtc - startUtc) / minutes GRID_MINUTES)))
  else [].

(** Does the teacher have a row starting at [d]? *)
Definition present (s : Db) (teacherId d : Z) : bool :=
  existsb (fun r => (a_teacherId r =? teacherId) && (a_startUtc r =? d))
          (teacherAvailability s).

Definition missingStarts (s : Db) (teacherId : Z) (starts : list Z) : list Z :=
  filter (fun d => negb (present s teacherId d)) starts.

(** The booking as the cancel handler rewrites it. *)
Definition canceled (now : Z) (b : Booking) : Booking :=
  mkBooking (b_id b) (b_teacherId b) (b_studentId b) (b_startUtc b)
            (b_endUtc b) (b_durationMinutes b) (b_priceCents b)
            (b_currency b) Canceled (b_stripeCheckoutSessionId b)
            (b_stripePaymentIntentId b) now.
End CancelSpec.

Module StoreSpec.
Import Js Schema.
(** A row of exactly one grid unit. *)
Definition isAtomic (r : Availability) : bool :=
  a_endUtc r - a_startUtc r =? minutes GRID_MINUTES.

(** The (teacher, start) pairs of the atomic rows, in table order. *)
Definition atomicKeys (rows : list Availability) : list (Z * Z) :=
  map (fun r => (a_teacherId r, a_startUtc r)) (filter isAtomic rows).

(** No two atomic rows of one teacher share a start instant. *)
Definition uniqueAtomicStarts (s : Db) : Prop :=
  NoDup (atomicKeys (teacherAvailability s)).

(** Every row of the table is atomic, as the data model has it. *)
Definition allAtomic (s : Db) : Prop :=
  Forall (fun r => isAtomic r = true) (teacherAvailability s).

(** No two rows at all of one teacher share a start instant. *)
Definition uniqueStarts (s : Db) : Prop :=
  NoDup (map (fun r => (a_teacherId r, a_startUtc r)) (teacherAvailability s)).
End StoreSpec.

Module GridSpec.
Import Js Schema Availability CancelSpec.

Definition gridMs : Z := minutes GRID_MINUTES.

(** [t] rounded down to the 30-minute grid of absolute time. *)
Definition floorToGrid (t : Z) : Z := t - t mod gridMs.

Definition tripleOf (teacherId : Z) (g : GridSlot) : Z * Z * Z :=
  (teacherId, g_startUtc g, g_endUtc g).

Definition tripleEqb (a b : Z * Z * Z) : bool :=
  let '(a1, a2, a3) := a in
  let '(b1, b2, b3) := b in
  (a1 =? b1) && (a2 =? b2) && (a3 =? b3).

(** Is there a row with these (teacherId, startUtc, endUtc)? *)
Definition stored (s : Db) (k : Z * Z * Z) : bool :=
  existsb (fun r => tripleEqb (slotOf r) k) (teacherAvailability s).

(** [n] consecutive blocks from [start] on. *)
Definition gridSlots (start : Z) (n : nat) : list GridSlot :=
  map (fun k => mkSlot (start + Z.of_nat k * gridMs)
                       (start + (Z.of_nat k + 1) * gridMs))
      (seq 0 n).
End GridSpec.

Module FreeSlotExample.
Import Js Schema.
Import Scheduling.
(** Teacher 7 with one hour of availability, 04:00Z to 05:00Z on
    2026-02-11, and no lesson offer. *)
Definition day : Z := 1770768000000.
Definition store : Db :=
  mkDb []
       [mkAvailability 1 7 (day + 14400000) (day + 16200000) "manual" 0;
        mkAvailability 2 7 (day + 16200000) (day + 18000000) "manual" 0]
       [] [] [] 1 3 1 1.
Definition query : FreeSlots.Request :=
  FreeSlots.mkRequest (Some 7) (Some day) (Some (day + 86400000)).
End FreeSlotExample.

Module CheckoutExample.
Import Js Schema.
Import Checkout.
Definition day : Z := 1770768000000.
Definition env : Env :=
  mkEnv true "http://localhost:3000" (fun _ => Throw "unreachable") 0.
Definition student : User := mkUser 9 None.
(** Teacher 7 sells 30 and 60 minutes and has the single atomic block
    04:00Z. *)
Definition store : Db :=
  mkDb []
       [mkAvailability 1 7 (day + 14400000) (day + 16200000) "manual" 0]
       [mkOffer 1 7 30 3000 "EUR" 1; mkOffer 2 7 60 6000 "EUR" 1]
       [] [] 1 2 1 1.
Definition request (d : Z) : Request :=
  mkRequest (Some student) (Some 7) (IsoAt (day + 14400000)) (Some d).
End CheckoutExample.

Module CancelExample.
Import Js Schema.
Definition day : Z := 1770768000000.
(** Student 9 holds a pending one-hour booking 12:00Z to 13:00Z with
    teacher 7, whose 12:30Z block is already back in the store. *)
Definition booking : Booking :=
  mkBooking 1 7 9 (day + 43200000) (day + 46800000) 60 6000 "EUR" Pending
            None None 0.
Definition store : Db :=
  mkDb [booking]
       [mkAvailability 1 7 (day + 45000000) (day + 46800000) "manual" 0]
       [] [] [] 2 2 1 1.
End CancelExample.

Module StoreExample.
Import Js Schema.
Definition day : Z := 1770768000000.
(** Teacher 7 already offers 12:30Z; student 9 holds a pending booking
    12:00Z to 13:00Z. *)
Definition store : Db :=
  mkDb [mkBooking 1 7 9 (day + 43200000) (day + 46800000) 60 6000 "EUR"
                  Pending None None 0]
       [mkAvailability 1 7 (day + 45000000) (day + 46800000) "manual" 0]
       [] [] [] 2 2 1 1.
Definition manual : Availability.Request :=
  Availability.mkRequest (Some 7) (Some 7)
    (IsoAt (day + 43200000 + 600000)) (IsoAt (day + 50400000)).
Definition cancel : Cancel.Request := Cancel.mkRequest (Some 9) (Some 1).
End StoreExample.

Module ManualExample.
Import Js Schema.
Definition day : Z := 1770768000000.
(** Teacher 7, who already offers 12:30Z, submits 12:10Z to 14:00Z. *)
Definition store : Db :=
  mkDb []
       [mkAvailability 1 7 (day + 45000000) (day + 46800000) "manual" 0]
       [] [] [] 1 2 1 1.
Definition startUtc : Z := day + 43200000 + 600000.
Definition endUtc : Z := day + 50400000.
End ManualExample.

Module RuleExample.
Import Js Schema.
Import AvailabilityRules.
Definition day : Z := 1770768000000.
Definition empty : Db := mkDb [] [] [] [] [] 1 1 1 1.
(** Teacher 7 publishes Wednesdays 09:00 to 12:00, zone UTC; the
    expansion window holds Wednesday 2026-02-11. *)
Definition request : Request :=
  mkRequest (Some 7) (mkBody 3 540 720 "UTC") day (day + 86400000)
            [mkDay day 3].
End RuleExample.

Module WebhookExample.
Import Js Schema.
Import Webhook.
(** One pending booking, and a signed [checkout.session.completed]
    whose metadata carries the booking reference "abc". *)
Definition store : Db :=
  mkDb [mkBooking 1 7 9 1770811200000 1770814800000 60 6000 "EUR" Pending
                  None None 0]
       [] [] [] [] 2 1 1 1.
Definition request : Request :=
  mkRequest (Some "sig_dummy"%string) (Some "whsec_test_dummy"%string)
    (Ok (CheckoutSessionCompleted
           (mkSession "cs_test_1" (Text "abc" NaN) (Some "pi_test_1"%string))))
    5.
End WebhookExample.

Module StripeExample.
Import Js Schema.
Import Checkout.
Definition answering : Env :=
  mkEnv false "http://localhost:3000"
        (fun _ => Ok (mkSession "cs_1" "https://checkout.example/cs_1")) 5.
End StripeExample.

Module OverrideSpec.
Import Js Schema.

(** An "add" range of the teacher. *)
Definition isAdd (teacherId : Z) (o : Override) : bool :=
  (ov_teacherId o =? teacherId) && String.eqb (ov_kind o) "add".

(** Override ranges are compared with both ends included. *)
Definition ovCovers (o : Override) (t : Z) : Prop :=
  ov_startUtc o <= t <= ov_endUtc o.

Definition addCovered (s : Db) (teacherId t : Z) : Prop :=
  exists o, In o (availabilityOverrides s)
    /\ isAdd teacherId o = true /\ ovCovers o t.

(** Two ranges with a gap between them. *)
Definition apart (o1 o2 : Override) : Prop :=
  ov_endUtc o1 < ov_startUtc o2 \/ ov_endUtc o2 < ov_startUtc o1.

Definition addsApart (teacherId : Z) (o1 o2 : Override) : Prop :=
  isAdd teacherId o1 = true -> isAdd teacherId o2 = true -> apart o1 o2.

(** The teacher's "add" ranges are non-empty and no two of them overlap
    or touch. *)
Definition addsCanonical (s : Db) (teacherId : Z) : Prop :=
  Forall (fun o => isAdd teacherId o = true -> ov_startUtc o <= ov_endUtc o)
         (availabilityOverrides s)
  /\ ForallOrdPairs (addsApart teacherId) (availabilityOverrides s).
End OverrideSpec.

Module EventSpec.
Import Js Schema AvailabilityEvents.

Definition inEvent (e : Event) (u : Z) : Prop := ev_start e <= u < ev_end e.

Definition inRow (r : Availability) (u : Z) : Prop :=
  a_startUtc r <= u < a_endUtc r.

(** Events of the teacher, non-empty, in increasing order with a gap
    between any two. *)
Definition eventsCanonical (teacherId : Z) (events : list Event) : Prop :=
  Forall (fun e => ev_teacherId e = teacherId /\ ev_start e < ev_end e) events
  /\ StronglySorted (fun e1 e2 => ev_end e1 < ev_start e2) events.

(** The request of the signed-in teacher for their own calendar. *)
Definition ownView (teacherId fromMs toMs : Z) (mode : string) : Request :=
  mkRequest (Some teacherId) (Some teacherId) (Some fromMs) (Some toMs) mode.
End EventSpec.

Module BookingSpec.
Import Js Schema.


End BookingSpec.

Module BookingExample.
Import Js Schema.
Definition day : Z := 1770768000000.
(** Teacher 7 sells 30 minutes and has published 04:00Z to 05:00Z as
    one row; student 9 asks for 04:00:00Z to 04:30:20Z. *)
Definition store : Db :=
  mkDb []
       [mkAvailability 1 7 (day + 14400000) (day + 18000000) "manual" 0]
       [mkOffer 1 7 30 3000 "EUR" 1]
       [] [] 1 2 1 1.
Definition request : Bookings.Request :=
  Bookings.mkRequest (Some 9)
    (Some (Bookings.mkBody 7 (Some (day + 14400000)) (Some (day + 16220000))))
    5.
End BookingExample.

Module InventorySpec.
Import Js Schema StoreSpec.

Definition onHalfHour (t : Z) : Prop := t mod minutes GRID_MINUTES = 0.

(** A row of exactly one block, starting on the 30-minute grid. *)
Definition alignedRow (r : Availability) : Prop :=
  onHalfHour (a_startUtc r)
  /\ a_endUtc r = a_startUtc r + minutes GRID_MINUTES.

(** The availability table as the manual entry and the cancellation
    write it. *)
Definition inventoryOk (s : Db) : Prop :=
  Forall alignedRow (teacherAvailability s) /\ uniqueStarts s.

(** The payment provider is switched off, or it answers. *)
Definition providerAnswers (env : Checkout.Env) : Prop :=
  Checkout.STRIPE_DISABLED env = true
  \/ forall b, exists c, Checkout.stripeCreate env b = Ok c.

(** The checkout request of [user] for a listed slot. *)
Definition requestFor (user : Checkout.User) (teacherId : Z)
           (sl : FreeSlots.Slot) : Checkout.Request :=
  Checkout.mkRequest (Some user) (Some teacherId)
                     (IsoAt (FreeSlots.slotStartUtc sl))
                     (Some (FreeSlots.durationMinutes sl)).
End InventorySpec.

(** * Properties *)

Import Js Scheduling IntervalSpec.

Section SortFacts.
Context {A : Type} (cmp : A -> A -> Z).

Lemma insertBy_perm x l : Permutation (insertBy cmp x l) (x :: l).
Proof.
  induction l as [|y l IH]; simpl; [reflexivity|].
  destruct (cmp x y <=? 0); [reflexivity|].
  rewrite IH. apply perm_swap.
Qed.

Lemma sort_perm l : Permutation (sort cmp l) l.
Proof.
  induction l as [|x l IH]; simpl; [constructor|].
  rewrite insertBy_perm. now constructor.
Qed.

Lemma sort_in x l : In x (sort cmp l) <-> In x l.
Proof.
  split; apply Permutation_in; [apply sort_perm | symmetry; apply sort_perm].
Qed.

Lemma sort_Forall (P : A -> Prop) l : Forall P l -> Forall P (sort cmp l).
Proof.
  intros H. eapply Permutation_Forall; [symmetry; apply sort_perm | exact H].
Qed.

Variable R : A -> A -> Prop.
Hypothesis R_trans : forall x y z, R x y -> R y z -> R x z.
Hypothesis cmp_le : forall x y, cmp x y <= 0 -> R x y.
Hypothesis cmp_gt : forall x y, cmp x y > 0 -> R y x.

Lemma insertBy_sorted x l :
  StronglySorted R l -> StronglySorted R (insertBy cmp x l).
Proof.
  induction 1 as [|y l Hs IH Hy]; simpl.
  - repeat constructor.
  - destruct (cmp x y <=? 0) eqn:E.
    + apply Z.leb_le in E. constructor; [now constructor|].
      constructor; [now apply cmp_le|].
      eapply Forall_impl; [|exact Hy]. intros a Ha.
      eapply R_trans; [apply cmp_le; eassumption | exact Ha].
    + apply Z.leb_gt in E. constructor; [exact IH|].
      eapply Permutation_Forall; [symmetry; apply insertBy_perm|].
      constructor; [apply cmp_gt; lia | exact Hy].
Qed.

Lemma sort_sorted l : StronglySorted R (sort cmp l).
Proof.
  induction l; simpl; [constructor | now apply insertBy_sorted].
Qed.
End SortFacts.

Section SortFixpoint.
Context {A : Type} (cmp : A -> A -> Z).

(** A list already in comparator order is left as it is. *)
Lemma sort_sorted_id l :
  StronglySorted (fun a b => cmp a b <= 0) l -> sort cmp l = l.
Proof.
  induction 1 as [|x l Hs IH Hx]; simpl; [reflexivity|].
  rewrite IH. destruct l as [|y l']; [reflexivity|]. simpl.
  inversion Hx; subst.
  destruct (cmp x y <=? 0) eqn:E; [reflexivity|].
  apply Z.leb_gt in E. lia.
Qed.
End SortFixpoint.

Section ListFacts.

Lemma NoDup_snoc {A} (l : list A) x : NoDup l -> ~ In x l -> NoDup (l ++ [x]).
Proof.
  intros Hl Hx. apply NoDup_app; [exact Hl | repeat constructor; intros [] |].
  intros y Hy [<- | []]. contradiction.
Qed.

Lemma NoDup_map_inj {A B} (f : A -> B) l :
  (forall x y, f x = f y -> x = y) -> NoDup l -> NoDup (map f l).
Proof.
  intros Hinj. induction 1 as [|x l Hx _ IH]; simpl; constructor; [|exact IH].
  intros Hin. apply in_map_iff in Hin. destruct Hin as (y & Hy & Hin).
  apply Hinj in Hy. now subst.
Qed.

Lemma NoDup_filter {A} (f : A -> bool) l : NoDup l -> NoDup (filter f l).
Proof.
  induction 1 as [|x l Hx _ IH]; simpl; [constructor|].
  destruct (f x); [|exact IH]. constructor; [|exact IH].
  intros Hin. apply filter_In in Hin. tauto.
Qed.

End ListFacts.

(** ** Interval algebra: merge *)

Section MergeFacts.

Lemma wellFormed_isValid i : isValid i = true <-> wellFormed i.
Proof. unfold isValid, wellFormed. rewrite Z.gtb_ltb, Z.ltb_lt. lia. Qed.

Lemma assertValid_ok i : wellFormed i -> assertValid i = Ok tt.
Proof.
  unfold assertValid, wellFormed. intros H.
  destruct (endMs i <=? startMs i) eqn:E; [apply Z.leb_le in E; lia | reflexivity].
Qed.

Lemma covered_nil t : ~ covered [] t.
Proof. intros (i & [] & _). Qed.

Lemma covered_cons i l t : covered (i :: l) t <-> covers i t \/ covered l t.
Proof.
  unfold covered; split.
  - intros (j & [<- | Hin] & Hc); [now left | right; eauto].
  - intros [Hc | (j & Hin & Hc)]; [exists i | exists j]; simpl; auto.
Qed.

Lemma covered_app l1 l2 t : covered (l1 ++ l2) t <-> covered l1 t \/ covered l2 t.
Proof.
  induction l1 as [|i l1 IH]; simpl.
  - split; [now right | intros [H | H]; [now apply covered_nil in H | exact H]].
  - rewrite !covered_cons, IH. tauto.
Qed.

Lemma covered_perm l1 l2 t : Permutation l1 l2 -> covered l1 t -> covered l2 t.
Proof.
  intros Hp (i & Hin & Hc). exists i. split; [|exact Hc].
  eapply Permutation_in; eassumption.
Qed.

(** The accumulated prefix [out] is never read back by the loop. *)
Lemma mergeLoop_out rest : forall out cur,
  mergeLoop out cur rest = (m <- mergeLoop [] cur rest ;; Ok (out ++ m)).
Proof.
  induction rest as [|next rest IH]; intros out cur; simpl; [reflexivity|].
  destruct (assertValid next); simpl; [|reflexivity].
  destruct (startMs next <=? endMs cur).
  - apply IH.
  - rewrite (IH (out ++ [cur])), (IH [cur]).
    destruct (mergeLoop [] next rest); simpl; [|reflexivity].
    now rewrite <- app_assoc.
Qed.

(** What the loop builds from [cur] and a tail sorted by start. *)
Lemma mergeLoop_spec rest : forall cur,
  wellFormed cur -> Forall wellFormed rest ->
  sortedByStart (cur :: rest) ->
  exists m, mergeLoop [] cur rest = Ok m
    /\ Forall wellFormed m
    /\ separated m
    /\ Forall (fun i => startMs cur <= startMs i) m
    /\ (forall t, covered m t <-> covers cur t \/ covered rest t).
Proof.
  induction rest as [|next rest IH]; intros cur Hcur Hwf Hs.
  - exists [cur]. simpl. repeat split.
    + now constructor.
    + repeat constructor.
    + constructor; [lia | constructor].
    + rewrite covered_cons. tauto.
    + rewrite covered_cons. tauto.
  - inversion Hwf as [|? ? Hnext Hrest]; subst.
    inversion Hs as [|? ? Hs' Hall]; subst.
    inversion Hall as [|? ? Hcn Hcr]; subst.
    inversion Hs' as [|? ? Hs'' Hnr]; subst.
    unfold startLe in Hcn. unfold wellFormed in Hcur, Hnext.
    simpl. rewrite (assertValid_ok Hnext). simpl.
    destruct (startMs next <=? endMs cur) eqn:E.
    + apply Z.leb_le in E.
      destruct (IH (mkInterval (startMs cur) (Z.max (endMs cur) (endMs next))))
        as (m & Hm & Hmw & Hms & Hmb & Hmc).
      * unfold wellFormed; simpl; lia.
      * exact Hrest.
      * constructor; [exact Hs''|].
        eapply Forall_impl; [|exact Hcr]. intros a Ha. exact Ha.
      * exists m. repeat split; auto.
        -- intros Ht. apply Hmc in Ht. rewrite covered_cons.
           unfold covers in *; simpl in *. destruct Ht as [Ht | Ht]; [|tauto].
           destruct (Z.lt_ge_cases t (endMs cur)); [left; lia | right; left; lia].
        -- intros Ht. apply Hmc. rewrite covered_cons in Ht.
           unfold covers in *; simpl in *. destruct Ht as [Ht | [Ht | Ht]];
             [left; lia | left; lia | now right].
    + apply Z.leb_gt in E.
      destruct (IH next Hnext Hrest Hs') as (m & Hm & Hmw & Hms & Hmb & Hmc).
      rewrite mergeLoop_out, Hm. simpl.
      exists (cur :: m). repeat split.
      * now constructor.
      * constructor; [exact Hms|].
        eapply Forall_impl; [|exact Hmb]. intros a Ha. unfold before. simpl in Ha. lia.
      * constructor; [lia|].
        eapply Forall_impl; [|exact Hmb]. intros a Ha. simpl in Ha. lia.
      * intros Ht. rewrite covered_cons in *. rewrite Hmc in Ht. tauto.
      * intros Ht. rewrite covered_cons in *. rewrite Hmc. tauto.
Qed.

(** A separated list of well-formed intervals is sorted by start. *)
Lemma separated_sortedByStart m :
  Forall wellFormed m -> separated m -> sortedByStart m.
Proof.
  intros Hw Hs. induction Hs as [|a l Hs IH Ha]; [constructor|].
  inversion Hw; subst. constructor; [now apply IH|].
  eapply Forall_impl; [|exact Ha]. unfold before, startLe, wellFormed in *.
  intros b Hb. lia.
Qed.

(** On a separated list the loop has nothing to merge. *)
Lemma mergeLoop_separated rest : forall out cur,
  Forall wellFormed rest -> separated (cur :: rest) ->
  mergeLoop out cur rest = Ok (out ++ cur :: rest).
Proof.
  induction rest as [|next rest IH]; intros out cur Hw Hs; simpl; [reflexivity|].
  inversion Hw; subst. inversion Hs as [|? ? Hs' Hall]; subst.
  inversion Hall; subst. unfold before in *.
  rewrite assertValid_ok by assumption. simpl.
  destruct (startMs next <=? endMs cur) eqn:E; [apply Z.leb_le in E; lia|].
  rewrite IH by assumption. now rewrite <- app_assoc.
Qed.

Lemma copy_id (l : list Interval) :
  map (fun i => mkInterval (startMs i) (endMs i)) l = l.
Proof.
  induction l as [|[s e] l IH]; simpl; [reflexivity | now rewrite IH].
Qed.

Lemma filter_all {A} (f : A -> bool) l :
  Forall (fun x => f x = true) l -> filter f l = l.
Proof.
  induction 1 as [|x l Hx _ IH]; simpl; [reflexivity|].
  now rewrite Hx, IH.
Qed.

Lemma filter_none {A} (f : A -> bool) l :
  Forall (fun x => f x = false) l -> filter f l = [].
Proof.
  induction 1 as [|x l Hx _ IH]; simpl; [reflexivity|].
  now rewrite Hx.
Qed.

Lemma cmpStartEnd_le a b : cmpStartEnd a b <= 0 -> startLe a b.
Proof.
  unfold cmpStartEnd, orElse, startLe.
  destruct (startMs a - startMs b =? 0) eqn:E; [apply Z.eqb_eq in E|]; lia.
Qed.

Lemma cmpStartEnd_gt a b : cmpStartEnd a b > 0 -> startLe b a.
Proof.
  unfold cmpStartEnd, orElse, startLe.
  destruct (startMs a - startMs b =? 0) eqn:E; [apply Z.eqb_eq in E|]; lia.
Qed.

Lemma startLe_trans a b c : startLe a b -> startLe b c -> startLe a c.
Proof. unfold startLe; lia. Qed.

Lemma separated_cmpStartEnd m :
  Forall wellFormed m -> separated m ->
  StronglySorted (fun a b => cmpStartEnd a b <= 0) m.
Proof.
  intros Hw Hs. induction Hs as [|a l Hs IH Ha]; [constructor|].
  inversion Hw; subst. constructor; [now apply IH|].
  eapply Forall_impl; [|exact Ha]. unfold before, wellFormed in *.
  intros b Hb. unfold cmpStartEnd, orElse.
  destruct (startMs a - startMs b =? 0) eqn:E; [apply Z.eqb_eq in E|]; lia.
Qed.

Lemma separated_cmpStart m :
  Forall wellFormed m -> separated m ->
  StronglySorted (fun a b => cmpStart a b <= 0) m.
Proof.
  intros Hw Hs. induction Hs as [|a l Hs IH Ha]; [constructor|].
  inversion Hw; subst. constructor; [now apply IH|].
  eapply Forall_impl; [|exact Ha]. unfold before, wellFormed, cmpStart in *.
  intros b Hb. lia.
Qed.

(** [mergeIntervals] never throws, and its result is canonical. *)
Lemma mergeIntervals_spec l :
  exists m, mergeIntervals l = Ok m
    /\ Forall wellFormed m /\ separated m
    /\ (forall t, covered m t <-> covered l t).
Proof.
  unfold mergeIntervals. rewrite copy_id.
  assert (Hv : Forall wellFormed (sort cmpStartEnd (filter isValid l))).
  { apply sort_Forall. apply Forall_forall. intros i Hi.
    apply filter_In in Hi. now apply wellFormed_isValid. }
  assert (Hs : sortedByStart (sort cmpStartEnd (filter isValid l))).
  { apply sort_sorted with (R := startLe);
      [exact startLe_trans | exact cmpStartEnd_le | exact cmpStartEnd_gt]. }
  assert (Hc : forall t, covered (sort cmpStartEnd (filter isValid l)) t
                         <-> covered l t).
  { intros t; split.
    - intros H. apply (covered_perm (sort_perm _ _)) in H.
      destruct H as (i & Hi & Ht). apply filter_In in Hi. exists i; tauto.
    - intros (i & Hi & Ht). apply covered_perm with (l1 := filter isValid l).
      + symmetry; apply sort_perm.
      + exists i. split; [|exact Ht]. apply filter_In. split; [exact Hi|].
        apply wellFormed_isValid. unfold covers, wellFormed in *. lia. }
  destruct (sort cmpStartEnd (filter isValid l)) as [|cur rest].
  - exists []. repeat split; try constructor.
    + intros H; now apply covered_nil in H.
    + intros H. apply Hc in H. exact H.
  - inversion Hv; subst.
    rewrite assertValid_ok by assumption. simpl.
    destruct (@mergeLoop_spec rest cur) as (m & Hm & Hmw & Hms & _ & Hmc); auto.
    exists m. repeat split; auto.
    + intros Ht. apply Hc. rewrite covered_cons. now apply Hmc.
    + intros Ht. apply Hmc. rewrite <- covered_cons. now apply Hc.
Qed.

(** A canonical list is a fixed point of [mergeIntervals]. *)
Lemma mergeIntervals_fixed m :
  Forall wellFormed m -> separated m -> mergeIntervals m = Ok m.
Proof.
  intros Hw Hs. unfold mergeIntervals.
  rewrite copy_id, filter_all.
  2:{ eapply Forall_impl; [|exact Hw]. intros a. apply wellFormed_isValid. }
  rewrite sort_sorted_id by now apply separated_cmpStartEnd.
  destruct m as [|cur rest]; [reflexivity|].
  inversion Hw; subst.
  rewrite assertValid_ok by assumption. simpl.
  now apply mergeLoop_separated.
Qed.

End MergeFacts.

Section MergeRowsFacts.

(** Growing the last element of [out] in place is the loop of
    [mergeIntervals] with [cur] kept apart. *)
Lemma mergeRowsLoop_mergeLoop items : forall out cur,
  Forall wellFormed items ->
  mergeLoop out cur items = Ok (mergeRowsLoop (out ++ [cur]) items).
Proof.
  induction items as [|next items IH]; intros out cur Hw; simpl; [reflexivity|].
  inversion Hw; subst.
  rewrite assertValid_ok by assumption. simpl.
  rewrite last_last, removelast_last.
  destruct (startMs next <=? endMs cur); now apply IH.
Qed.

Lemma rowItem_wellFormed r i : rowItem r = Some i -> wellFormed i.
Proof.
  unfold rowItem, wellFormed. destruct (startUtc r), (endUtc r); try discriminate.
  destruct (z0 >? z) eqn:E; [|discriminate].
  intros [= <-]. simpl. rewrite Z.gtb_ltb in E. apply Z.ltb_lt in E. lia.
Qed.

Lemma rowItems_wellFormed rows : Forall wellFormed (rowItems rows).
Proof.
  induction rows as [|r rows IH]; simpl; [constructor|].
  destruct (rowItem r) eqn:E; [|exact IH].
  constructor; [eapply rowItem_wellFormed; eassumption | exact IH].
Qed.

Lemma rowItem_covers r t :
  rowCovers r t <-> exists i, rowItem r = Some i /\ covers i t.
Proof.
  unfold rowCovers, rowItem, covers. split.
  - intros (s & e & -> & -> & Ht).
    destruct (e >? s) eqn:E.
    + eexists; split; [reflexivity | simpl; lia].
    + rewrite Z.gtb_ltb in E. apply Z.ltb_ge in E. lia.
  - intros (i & Hi & Ht).
    destruct (startUtc r) as [s|], (endUtc r) as [e|]; try discriminate.
    destruct (e >? s); [|discriminate]. injection Hi as <-.
    exists s, e. simpl in Ht. auto.
Qed.

Lemma rowItems_covered rows t :
  covered (rowItems rows) t <-> rowsCovered rows t.
Proof.
  induction rows as [|r rows IH]; simpl.
  - split; [intros H; now apply covered_nil in H | intros (r & [] & _)].
  - assert (Hc : rowsCovered (r :: rows) t <-> rowCovers r t \/ rowsCovered rows t).
    { unfold rowsCovered; split.
      - intros (x & [<- | Hin] & Hx); [now left | right; eauto].
      - intros [Hx | (x & Hin & Hx)]; [exists r | exists x]; simpl; auto. }
    rewrite Hc, rowItem_covers. destruct (rowItem r) as [i|].
    + rewrite covered_cons, IH. split.
      * intros [H | H]; [left; eauto | now right].
      * intros [(j & [= <-] & H) | H]; [now left | now right].
    + rewrite IH. split; [now right | intros [(j & [=] & _) | H]; exact H].
Qed.

Lemma rowItems_asRow m :
  Forall wellFormed m ->
  rowItems (map asRow (map (fun x => mkMerged (startMs x) (endMs x)) m)) = m.
Proof.
  induction 1 as [|[s e] m Hi _ IH]; simpl; [reflexivity|].
  unfold rowItem; simpl. unfold wellFormed in Hi; simpl in Hi.
  destruct (e >? s) eqn:E.
  - now rewrite IH.
  - rewrite Z.gtb_ltb in E. apply Z.ltb_ge in E. lia.
Qed.

Lemma ofMerged_mk m :
  map ofMerged (map (fun x => mkMerged (startMs x) (endMs x)) m) = m.
Proof.
  induction m as [|[s e] m IH]; simpl; [reflexivity|].
  unfold ofMerged at 1; simpl. now rewrite IH.
Qed.

Lemma cmpStart_le a b : cmpStart a b <= 0 -> startLe a b.
Proof. unfold cmpStart, startLe; lia. Qed.

Lemma cmpStart_gt a b : cmpStart a b > 0 -> startLe b a.
Proof. unfold cmpStart, startLe; lia. Qed.

(** The sort-by-start and grow-in-place pipeline shared by
    [mergeIntervalRows] and the route-local [mergeIntervals]. *)
Lemma mergeSorted_spec l :
  Forall wellFormed l ->
  exists m,
    match sort cmpStart l with
    | [] => []
    | first :: items => mergeRowsLoop [first] items
    end = m
    /\ Forall wellFormed m /\ separated m
    /\ (forall t, covered m t <-> covered l t).
Proof.
  intros Hw.
  assert (Hv : Forall wellFormed (sort cmpStart l)) by now apply sort_Forall.
  assert (Hs : sortedByStart (sort cmpStart l)).
  { apply sort_sorted with (R := startLe);
      [exact startLe_trans | exact cmpStart_le | exact cmpStart_gt]. }
  assert (Hc : forall t, covered (sort cmpStart l) t <-> covered l t).
  { intros t; split; apply covered_perm;
      [apply sort_perm | symmetry; apply sort_perm]. }
  destruct (sort cmpStart l) as [|first items].
  - exists []. repeat split; try constructor.
    + intros H; now apply covered_nil in H.
    + intros H; now apply Hc in H.
  - inversion Hv; subst.
    destruct (@mergeLoop_spec items first) as (m & Hm & Hmw & Hms & _ & Hmc); auto.
    rewrite mergeRowsLoop_mergeLoop in Hm by assumption. injection Hm as Hm.
    exists m. simpl in Hm. repeat split; auto.
    + intros Ht. apply Hc. rewrite covered_cons. now apply Hmc.
    + intros Ht. apply Hmc. rewrite <- covered_cons. now apply Hc.
Qed.

Lemma mergeSorted_fixed m :
  Forall wellFormed m -> separated m ->
  match sort cmpStart m with
  | [] => []
  | first :: items => mergeRowsLoop [first] items
  end = m.
Proof.
  intros Hw Hs. rewrite sort_sorted_id by now apply separated_cmpStart.
  destruct m as [|c r]; [reflexivity|].
  inversion Hw; subst.
  pose proof (@mergeLoop_separated r [] c) as Hloop.
  rewrite mergeRowsLoop_mergeLoop in Hloop by assumption.
  specialize (Hloop ltac:(assumption) Hs). now injection Hloop.
Qed.

Lemma mergeIntervalRows_spec rows :
  let m := map ofMerged (mergeIntervalRows rows) in
  Forall wellFormed m /\ separated m
  /\ (forall t, covered m t <-> rowsCovered rows t)
  /\ mergeIntervalRows (map asRow (mergeIntervalRows rows))
     = mergeIntervalRows rows.
Proof.
  destruct (@mergeSorted_spec (rowItems rows)) as (m & Hm & Hw & Hs & Hc);
    [apply rowItems_wellFormed|].
  assert (E : mergeIntervalRows rows
              = map (fun x => mkMerged (startMs x) (endMs x)) m).
  { unfold mergeIntervalRows. rewrite <- Hm.
    destruct (sort cmpStart (rowItems rows)); reflexivity. }
  simpl. rewrite E, ofMerged_mk. repeat split; auto.
  - intros Ht. apply rowItems_covered. now apply Hc.
  - intros Ht. apply Hc. now apply rowItems_covered.
  - unfold mergeIntervalRows at 1. rewrite rowItems_asRow by assumption.
    pose proof (mergeSorted_fixed Hw Hs) as Hf.
    destruct (sort cmpStart m); rewrite <- Hf; reflexivity.
Qed.

End MergeRowsFacts.

(** C4. For every list of well-formed intervals, [mergeIntervals] (in
    both of its versions under lib/scheduling) returns a list that is
    sorted by start, whose intervals are pairwise separated (the end of an
    interval is strictly below the start of every later one), that covers
    exactly the instants covered by the input, and that [mergeIntervals]
    maps to itself. *)
Theorem mergeIntervals_canonical (l : list Interval) (rows : list IntervalRow) :
  Forall wellFormed l -> Forall wellFormedRow rows ->
  (exists m, mergeIntervals l = Ok m
     /\ sortedByStart m /\ separated m
     /\ (forall t, covered m t <-> covered l t)
     /\ mergeIntervals m = Ok m)
  /\ (let m := map ofMerged (mergeIntervalRows rows) in
      sortedByStart m /\ separated m
      /\ (forall t, covered m t <-> rowsCovered rows t)
      /\ mergeIntervalRows (map asRow (mergeIntervalRows rows))
         = mergeIntervalRows rows).
Proof.
  intros _ _. split.
  - destruct (mergeIntervals_spec l) as (m & Hm & Hw & Hs & Hc).
    exists m. repeat split; auto.
    + now apply separated_sortedByStart.
    + now apply Hc.
    + now apply Hc.
    + now apply mergeIntervals_fixed.
  - destruct (mergeIntervalRows_spec rows) as (Hw & Hs & Hc & Hi).
    simpl. repeat split; auto.
    + now apply separated_sortedByStart.
    + now apply Hc.
    + now apply Hc.
Qed.

Lemma mergeIntervals_canonical_witness :
  let l := [mkInterval 60 90; mkInterval 0 30; mkInterval 30 45] in
  let rows := [mkRow (Some 10) (Some 20); mkRow (Some 15) (Some 40)] in
  (exists m, mergeIntervals l = Ok m
     /\ sortedByStart m /\ separated m
     /\ (forall t, covered m t <-> covered l t)
     /\ mergeIntervals m = Ok m)
  /\ (let m := map ofMerged (mergeIntervalRows rows) in
      sortedByStart m /\ separated m
      /\ (forall t, covered m t <-> rowsCovered rows t)
      /\ mergeIntervalRows (map asRow (mergeIntervalRows rows))
         = mergeIntervalRows rows).
Proof.
  apply mergeIntervals_canonical.
  - repeat constructor.
  - repeat constructor; unfold wellFormedRow; simpl;
      [exists 10, 20 | exists 15, 40]; repeat split; lia.
Defined.

Example mergeIntervals_touching :
  mergeIntervals [mkInterval 60 90; mkInterval 0 30; mkInterval 30 45; mkInterval 5 5]
  = Ok [mkInterval 0 45; mkInterval 60 90].
Proof. reflexivity. Qed.

(** ** Interval algebra: subtract *)

Import SubtractSpec.

Section SubtractFacts.

Lemma StronglySorted_app {A} (R : A -> A -> Prop) l1 l2 :
  StronglySorted R l1 -> StronglySorted R l2 ->
  (forall x y, In x l1 -> In y l2 -> R x y) ->
  StronglySorted R (l1 ++ l2).
Proof.
  induction 1 as [|a l1 Hs IH Ha]; intros H2 Hx; simpl; [exact H2|].
  constructor.
  - apply IH; [exact H2|]. intros x y Hin. apply Hx. now right.
  - apply Forall_app. split; [exact Ha|].
    apply Forall_forall. intros y Hy. apply Hx; [now left | exact Hy].
Qed.

Lemma StronglySorted_pairs {A} (R Q : A -> A -> Prop) l :
  (forall a b, R a b -> Q a b) -> StronglySorted R l -> ForallOrdPairs Q l.
Proof.
  intros HRQ. induction 1 as [|a l Hs IH Ha]; constructor; [|exact IH].
  eapply Forall_impl; [|exact Ha]. intros b. apply HRQ.
Qed.

Lemma endLe_disjoint a b : endLe a b -> disjoint a b.
Proof. unfold endLe, disjoint, covers. intros H t. lia. Qed.

(** [skipCuts] drops a prefix of cuts that end at or before [curStart]. *)
Lemma skipCuts_spec curStart bj :
  exists skipped, bj = skipped ++ skipCuts curStart bj
    /\ Forall (fun c => endMs c <= curStart) skipped.
Proof.
  induction bj as [|c bj (sk & Hsk & Hall)]; simpl.
  - exists []; split; [reflexivity | constructor].
  - destruct (endMs c <=? curStart) eqn:E.
    + apply Z.leb_le in E. exists (c :: sk). split.
      * simpl. now rewrite <- Hsk.
      * now constructor.
    + exists []; split; [reflexivity | constructor].
Qed.

Lemma skipCuts_wellFormed curStart bj :
  Forall wellFormed bj -> Forall wellFormed (skipCuts curStart bj).
Proof.
  intros H. destruct (skipCuts_spec curStart bj) as (sk & Hsk & _).
  rewrite Hsk in H. now apply Forall_app in H.
Qed.

Lemma StronglySorted_app_r {A} (R : A -> A -> Prop) l1 l2 :
  StronglySorted R (l1 ++ l2) -> StronglySorted R l2.
Proof.
  induction l1 as [|a l1 IH]; simpl; [auto|].
  intros H. inversion H; subst. now apply IH.
Qed.

Lemma skipCuts_separated curStart bj :
  separated bj -> separated (skipCuts curStart bj).
Proof.
  intros H. destruct (skipCuts_spec curStart bj) as (sk & Hsk & _).
  unfold separated in *. rewrite Hsk in H.
  now apply StronglySorted_app_r in H.
Qed.

(** The pieces cut out of [[curStart, curEnd)] lie inside it, in order,
    end at or before the final [curStart], and avoid every cut of [bk]. *)
Lemma cutSegment_spec curEnd bk : forall curStart pieces final,
  curStart < curEnd ->
  Forall wellFormed bk -> separated bk ->
  cutSegment curStart curEnd bk = (pieces, final) ->
  curStart <= final
  /\ StronglySorted endLe pieces
  /\ Forall (fun p => curStart <= startMs p /\ startMs p < endMs p
                      /\ endMs p <= curEnd /\ endMs p <= final) pieces
  /\ (forall t, covered pieces t \/ final <= t < curEnd ->
                curStart <= t < curEnd /\ ~ covered bk t).
Proof.
  induction bk as [|c bk IH]; intros cs pieces final Hlt Hw Hs Hcut; simpl in Hcut.
  - injection Hcut as <- <-. repeat split; try constructor; try lia.
    + destruct H as [H | H]; [now apply covered_nil in H | lia].
    + destruct H as [H | H]; [now apply covered_nil in H | lia].
    + apply covered_nil.
  - inversion Hw as [|? ? Hc Hw']; subst.
    inversion Hs as [|? ? Hs' Hall]; subst.
    unfold wellFormed in Hc.
    assert (Hright : forall t, t < endMs c -> ~ covered bk t).
    { intros t Ht (x & Hx & Hcx). rewrite Forall_forall in Hall.
      specialize (Hall x Hx). unfold before, covers in *. lia. }
    destruct (startMs c <? curEnd) eqn:E1.
    + apply Z.ltb_lt in E1.
      set (left := if startMs c >? cs
                   then [mkInterval cs (Z.min (startMs c) curEnd)] else []) in *.
      assert (Hleft : Forall (fun p => cs <= startMs p /\ startMs p < endMs p
                                       /\ endMs p <= curEnd
                                       /\ endMs p <= startMs c) left).
      { subst left. destruct (startMs c >? cs) eqn:E2; [|constructor].
        rewrite Z.gtb_ltb in E2. apply Z.ltb_lt in E2.
        constructor; [simpl; lia | constructor]. }
      assert (Hleft_s : StronglySorted endLe left).
      { subst left. destruct (startMs c >? cs); repeat constructor. }
      assert (Hleft_c : forall t, covered left t ->
                                  cs <= t < curEnd /\ ~ covered (c :: bk) t).
      { intros t (p & Hp & Hpt). rewrite Forall_forall in Hleft.
        specialize (Hleft p Hp). unfold covers in Hpt. split; [lia|].
        rewrite covered_cons. intros [Hct | Hbk].
        - unfold covers in Hct. lia.
        - apply (Hright t); [lia | exact Hbk]. }
      destruct (Z.max cs (endMs c) >=? curEnd) eqn:E3.
      * rewrite Z.geb_leb in E3. apply Z.leb_le in E3.
        injection Hcut as <- <-. repeat split; try lia; auto.
        -- eapply Forall_impl; [|exact Hleft]. simpl. intros p Hp. lia.
        -- destruct H as [H | H]; [apply Hleft_c in H; lia | lia].
        -- destruct H as [H | H]; [apply Hleft_c in H; lia | lia].
        -- destruct H as [H | H]; [now apply Hleft_c in H | lia].
      * rewrite Z.geb_leb in E3. apply Z.leb_gt in E3.
        destruct (cutSegment (Z.max cs (endMs c)) curEnd bk) as [more fin] eqn:Erec.
        injection Hcut as <- <-.
        destruct (IH _ _ _ E3 Hw' Hs' Erec) as (Hfin & Hms & Hmb & Hmc).
        repeat split; try lia.
        -- apply StronglySorted_app; auto.
           intros x y Hx Hy. rewrite Forall_forall in Hleft, Hmb.
           specialize (Hleft x Hx). specialize (Hmb y Hy). unfold endLe. lia.
        -- apply Forall_app. split.
           ++ eapply Forall_impl; [|exact Hleft]. simpl. intros p Hp. lia.
           ++ eapply Forall_impl; [|exact Hmb]. simpl. intros p Hp. lia.
        -- destruct H as [H | H].
           ++ apply covered_app in H. destruct H as [H | H];
                [apply Hleft_c in H; lia | ].
              assert (Hx := Hmc t (or_introl H)). lia.
           ++ assert (Hx := Hmc t (or_intror H)). lia.
        -- destruct H as [H | H].
           ++ apply covered_app in H. destruct H as [H | H];
                [apply Hleft_c in H; lia | ].
              assert (Hx := Hmc t (or_introl H)). lia.
           ++ lia.
        -- assert (Hrec : covered more t \/ fin <= t < curEnd ->
                          ~ covered (c :: bk) t).
           { intros Hr. destruct (Hmc t Hr) as [Hrange Hn].
             rewrite covered_cons. intros [Hct | Hbk]; [|now apply Hn].
             unfold covers in Hct. lia. }
           destruct H as [H | H].
           ++ apply covered_app in H. destruct H as [H | H];
                [now apply Hleft_c in H | apply Hrec; now left].
           ++ apply Hrec; now right.
    + apply Z.ltb_ge in E1. injection Hcut as <- <-.
      repeat split; try constructor; try lia.
      * destruct H as [H | H]; [now apply covered_nil in H | lia].
      * destruct H as [H | H]; [now apply covered_nil in H | lia].
      * destruct H as [H | H]; [now apply covered_nil in H |].
        rewrite covered_cons. intros [Hct | Hbk].
        -- unfold covers in Hct. lia.
        -- apply (Hright t); [lia | exact Hbk].
Qed.

End SubtractFacts.

Section SubtractLoopFacts.

(** Every piece pushed by the segment loop lies inside a segment of [a],
    the pieces come out in order, and none meets a cut of [bj]. *)
Lemma subtractLoop_spec a : forall bj,
  Forall wellFormed a -> separated a ->
  Forall wellFormed bj -> separated bj ->
  let r := subtractLoop a bj in
  StronglySorted endLe r
  /\ Forall (fun p => exists seg, In seg a /\ startMs seg <= startMs p
                                  /\ startMs p < endMs p
                                  /\ endMs p <= endMs seg) r
  /\ (forall t, covered r t -> ~ covered bj t).
Proof.
  induction a as [|seg a IH]; intros bj Hwa Hsa Hwb Hsb; simpl.
  - repeat split; try constructor. intros t H. now apply covered_nil in H.
  - inversion Hwa as [|? ? Hseg Hwa']; subst.
    inversion Hsa as [|? ? Hsa' Hsega]; subst.
    unfold wellFormed in Hseg.
    destruct (skipCuts_spec (startMs seg) bj) as (sk & Hsk & Hskall).
    pose proof (skipCuts_wellFormed (startMs seg) Hwb) as Hwb'.
    pose proof (skipCuts_separated (startMs seg) Hsb) as Hsb'.
    set (bj' := skipCuts (startMs seg) bj) in *.
    destruct (cutSegment (startMs seg) (endMs seg) bj') as [pieces final] eqn:Ecut.
    destruct (@cutSegment_spec (endMs seg) bj' (startMs seg) pieces final)
      as (Hfin & Hps & Hpb & Hpc); auto; [lia|].
    destruct (IH bj' Hwa' Hsa' Hwb' Hsb') as (Hrs & Hrb & Hrc).
    set (tail := if final <? endMs seg then [mkInterval final (endMs seg)] else []).
    assert (Htail : Forall (fun p => final <= startMs p /\ startMs p < endMs p
                                     /\ endMs p <= endMs seg) tail).
    { subst tail. destruct (final <? endMs seg) eqn:E; [|constructor].
      apply Z.ltb_lt in E. constructor; [simpl; lia | constructor]. }
    assert (Htail_c : forall t, covered tail t -> final <= t < endMs seg).
    { intros t (p & Hp & Hpt). rewrite Forall_forall in Htail.
      specialize (Htail p Hp). unfold covers in Hpt. lia. }
    assert (Hlater : forall p, In p (subtractLoop a bj') -> endMs seg < startMs p).
    { intros p Hp. rewrite Forall_forall in Hrb, Hsega.
      destruct (Hrb p Hp) as (s' & Hs' & Hle & _).
      specialize (Hsega s' Hs'). unfold before in Hsega. lia. }
    assert (Hskipped : forall t, startMs seg <= t -> covered bj t -> covered bj' t).
    { intros t Ht Hc. rewrite Hsk in Hc. apply covered_app in Hc.
      destruct Hc as [(x & Hx & Hxt) | Hc]; [|exact Hc].
      rewrite Forall_forall in Hskall. specialize (Hskall x Hx).
      unfold covers in Hxt. lia. }
    repeat split.
    + apply StronglySorted_app; [exact Hps | |].
      * apply StronglySorted_app; [| exact Hrs |].
        -- subst tail. destruct (final <? endMs seg); repeat constructor.
        -- intros x y Hx Hy. rewrite Forall_forall in Htail.
           specialize (Htail x Hx). specialize (Hlater y Hy). unfold endLe. lia.
      * intros x y Hx Hy. rewrite Forall_forall in Hpb. specialize (Hpb x Hx).
        apply in_app_or in Hy. destruct Hy as [Hy | Hy].
        -- rewrite Forall_forall in Htail. specialize (Htail y Hy).
           unfold endLe. lia.
        -- specialize (Hlater y Hy). unfold endLe. lia.
    + apply Forall_app. split; [|apply Forall_app; split].
      * eapply Forall_impl; [|exact Hpb]. simpl. intros p Hp.
        exists seg. split; [now left | lia].
      * eapply Forall_impl; [|exact Htail]. simpl. intros p Hp.
        exists seg. split; [now left | lia].
      * eapply Forall_impl; [|exact Hrb]. simpl. intros p (s' & Hs' & Hp).
        exists s'. split; [now right | exact Hp].
    + intros t Ht Hc. apply covered_app in Ht. destruct Ht as [Ht | Ht].
      * destruct (Hpc t (or_introl Ht)) as [Hr Hn]. apply Hn.
        apply Hskipped; [lia | exact Hc].
      * apply covered_app in Ht. destruct Ht as [Ht | Ht].
        -- apply Htail_c in Ht. destruct (Hpc t (or_intror Ht)) as [Hr Hn].
           apply Hn. apply Hskipped; [lia | exact Hc].
        -- apply (Hrc t Ht). apply Hskipped; [|exact Hc].
           destruct Ht as (p & Hp & Hpt). specialize (Hlater p Hp).
           unfold covers in Hpt. lia.
Qed.

Lemma subtractLoop_covered a bj t :
  Forall wellFormed a -> separated a ->
  Forall wellFormed bj -> separated bj ->
  covered (subtractLoop a bj) t -> covered a t.
Proof.
  intros Hwa Hsa Hwb Hsb (p & Hp & Hpt).
  destruct (@subtractLoop_spec a bj Hwa Hsa Hwb Hsb) as (_ & Hb & _).
  rewrite Forall_forall in Hb. destruct (Hb p Hp) as (seg & Hseg & Hle).
  exists seg. split; [exact Hseg|]. unfold covers in *. lia.
Qed.

Lemma separated_pairwiseDisjoint m : separated m -> pairwiseDisjoint m.
Proof.
  apply StronglySorted_pairs. intros a b H. apply endLe_disjoint.
  unfold before, endLe in *. lia.
Qed.

End SubtractLoopFacts.

(** C5. For all lists of well-formed intervals [base] and [cut],
    [subtractIntervals base cut] returns a list such that every instant
    it covers lies in the union of [base] and in no interval of [cut],
    and whose intervals are pairwise disjoint. *)
Theorem subtractIntervals_sound (base cut : list Interval) :
  Forall wellFormed base -> Forall wellFormed cut ->
  exists r, subtractIntervals base cut = Ok r
    /\ (forall t, covered r t -> covered base t /\ ~ covered cut t)
    /\ pairwiseDisjoint r.
Proof.
  intros _ _. unfold subtractIntervals.
  destruct (mergeIntervals_spec base) as (a & Ha & Hwa & Hsa & Hca).
  destruct (mergeIntervals_spec cut) as (b & Hb & Hwb & Hsb & Hcb).
  rewrite Ha, Hb. simpl.
  destruct a as [|a0 a'].
  - exists []. repeat split; try constructor;
      apply covered_nil in H; contradiction.
  - destruct b as [|b0 b'].
    + exists (a0 :: a'). repeat split.
      * now apply Hca.
      * intros Hc. apply Hcb in Hc. now apply covered_nil in Hc.
      * now apply separated_pairwiseDisjoint.
    + exists (subtractLoop (a0 :: a') (b0 :: b')).
      destruct (@subtractLoop_spec (a0 :: a') (b0 :: b') Hwa Hsa Hwb Hsb)
        as (Hs & Hbnd & Hc).
      repeat split.
      * apply Hca. eapply subtractLoop_covered; eauto.
      * intros Hcut. apply (Hc t H). now apply Hcb.
      * eapply StronglySorted_pairs; [|exact Hs]. exact endLe_disjoint.
Qed.

Lemma subtractIntervals_sound_witness :
  exists r,
    subtractIntervals [mkInterval 0 100; mkInterval 200 300]
                      [mkInterval 50 60; mkInterval 90 250] = Ok r
    /\ (forall t, covered r t ->
          covered [mkInterval 0 100; mkInterval 200 300] t
          /\ ~ covered [mkInterval 50 60; mkInterval 90 250] t)
    /\ pairwiseDisjoint r.
Proof.
  apply subtractIntervals_sound; repeat constructor.
Defined.

Example subtractIntervals_example :
  subtractIntervals [mkInterval 0 100; mkInterval 200 300]
                    [mkInterval 50 60; mkInterval 90 250]
  = Ok [mkInterval 0 50; mkInterval 60 90; mkInterval 250 300].
Proof. reflexivity. Qed.

(** ** Free-slot generator *)

Import FreeSlots SlotSpec.

Section GenerateSlotsFacts.

Lemma keyEqb_eq a b : keyEqb a b = true <-> a = b.
Proof.
  destruct a as [[a1 a2] a3], b as [[b1 b2] b3]. unfold keyEqb.
  rewrite !andb_true_iff, !Z.eqb_eq. split.
  - intros [[-> ->] ->]. reflexivity.
  - intros [= -> -> ->]. auto.
Qed.

Lemma has_In s k : has s k = true <-> In k s.
Proof.
  unfold has. rewrite existsb_exists. split.
  - intros (x & Hx & E). apply keyEqb_eq in E. now subst.
  - intros H. exists k. split; [exact H | now apply keyEqb_eq].
Qed.

Lemma key_inj a b : key a = key b -> a = b.
Proof. destruct a, b. unfold key; simpl. now intros [= -> -> ->]. Qed.

Lemma includes_In l x : includes l x = true <-> In x l.
Proof.
  unfold includes. rewrite existsb_exists. split.
  - intros (y & Hy & E). apply Z.eqb_eq in E. now subst.
  - intros H. exists x. split; [exact H | apply Z.eqb_refl].
Qed.

Variables (intervals : list Interval) (fromMs toMs : Z) (durations : list Z).

Let durSet := filter (includes [30; 45; 60]) durations.

Let accInv := accInv intervals fromMs toMs durations.

Lemma durSet_In d : In d durSet ->
  In d durations /\ In d [30; 45; 60].
Proof.
  unfold durSet. intros H. apply filter_In in H. destruct H as [H1 H2].
  split; [exact H1 | now apply includes_In].
Qed.

Lemma emit_inv it t acc d :
  In it intervals ->
  t mod stepMs = 0 ->
  Z.max (startMs it) fromMs <= t ->
  In d durSet ->
  accInv acc ->
  accInv (emit t (Z.min (endMs it) toMs) acc d).
Proof.
  intros Hit Hgrid Hlo Hd (Hseen & Hnd & Hall). unfold emit.
  destruct (t + d * 60000 <=? Z.min (endMs it) toMs) eqn:E;
    [|repeat split; assumption].
  apply Z.leb_le in E.
  destruct (has (seen acc) (key (mkSlot t (t + d * 60000) d))) eqn:Hhas;
    [repeat split; assumption|].
  assert (Hnew : ~ In (mkSlot t (t + d * 60000) d) (out acc)).
  { intros Hin. apply (in_map key) in Hin. rewrite <- Hseen in Hin.
    apply has_In in Hin. congruence. }
  pose proof Hd as Hd'. apply durSet_In in Hd'. destruct Hd' as [Hd1 Hd2].
  repeat split; simpl.
  - rewrite map_app, Hseen. reflexivity.
  - apply NoDup_app; [exact Hnd | repeat constructor; intros [] | ].
    intros x Hx [<- | []]. contradiction.
  - apply Forall_app. split; [exact Hall|]. constructor; [|constructor].
    repeat split; simpl; auto.
    exists it. simpl. auto.
Qed.

Lemma emitAll_inv it t : forall ds acc,
  In it intervals ->
  t mod stepMs = 0 ->
  Z.max (startMs it) fromMs <= t ->
  (forall d, In d ds -> In d durSet) ->
  accInv acc ->
  accInv (fold_left (emit t (Z.min (endMs it) toMs)) ds acc).
Proof.
  induction ds as [|d ds IH]; intros acc Hit Hg Hlo Hds Hacc; simpl; [exact Hacc|].
  apply IH; auto.
  - intros d' Hd'. apply Hds. now right.
  - apply emit_inv; auto. apply Hds. now left.
Qed.

Lemma stepMs_pos : 0 < stepMs.
Proof. reflexivity. Qed.

Lemma walk_inv it fuel : forall t acc acc',
  In it intervals ->
  t mod stepMs = 0 ->
  Z.max (startMs it) fromMs <= t ->
  accInv acc ->
  walk fuel durSet (Z.min (endMs it) toMs) t acc = Some acc' ->
  accInv acc'.
Proof.
  induction fuel as [|fuel IH]; intros t acc acc' Hit Hg Hlo Hacc Hw;
    simpl in Hw; destruct (t <? Z.min (endMs it) toMs) eqn:E;
    try discriminate; try (injection Hw as <-; exact Hacc).
  eapply IH; [exact Hit | | | | exact Hw].
  - rewrite <- Zplus_mod_idemp_r, Z_mod_same_full, Z.add_0_r. exact Hg.
  - pose proof stepMs_pos. lia.
  - apply emitAll_inv; auto.
Qed.

(** The fuel handed to [walk] is never exhausted. *)
Lemma walk_total fuel : forall ds end_ t acc,
  (t < end_ -> end_ - t < Z.of_nat fuel * stepMs) ->
  exists acc', walk fuel ds end_ t acc = Some acc'.
Proof.
  induction fuel as [|fuel IH]; intros ds end_ t acc Hf; simpl;
    destruct (t <? end_) eqn:E; eauto.
  - apply Z.ltb_lt in E. lia.
  - apply Z.ltb_lt in E. apply IH. lia.
Qed.

Lemma firstGridPoint start :
  let mod_ := Z.rem start stepMs in
  let t := if mod_ =? 0 then start else start + (stepMs - mod_) in
  t mod stepMs = 0 /\ start <= t.
Proof.
  pose proof stepMs_pos as Hpos.
  pose proof (Z.quot_rem' start stepMs) as Hqr.
  assert (Hb : - stepMs < Z.rem start stepMs < stepMs).
  { pose proof (Z.rem_bound_abs start stepMs ltac:(lia)). lia. }
  cbv zeta. destruct (Z.rem start stepMs =? 0) eqn:E.
  - apply Z.eqb_eq in E. split; [|lia].
    rewrite Hqr at 1. rewrite E, Z.add_0_r, Z.mul_comm. apply Z_mod_mult.
  - apply Z.eqb_neq in E. split; [|lia].
    replace (start + (stepMs - Z.rem start stepMs))
      with ((Z.quot start stepMs + 1) * stepMs) by lia.
    apply Z_mod_mult.
Qed.

Lemma visit_spec it acc :
  In it intervals -> accInv acc ->
  exists acc', visit fromMs toMs durSet acc it = Some acc' /\ accInv acc'.
Proof.
  intros Hit Hacc. unfold visit.
  destruct (Z.min (endMs it) toMs <=? Z.max (startMs it) fromMs) eqn:E;
    [eauto|].
  destruct (firstGridPoint (Z.max (startMs it) fromMs)) as [Hg Hlo].
  cbv zeta in Hg, Hlo.
  set (t := if Z.rem (Z.max (startMs it) fromMs) stepMs =? 0
            then Z.max (startMs it) fromMs
            else Z.max (startMs it) fromMs
                 + (stepMs - Z.rem (Z.max (startMs it) fromMs) stepMs)) in *.
  set (end_ := Z.min (endMs it) toMs) in *.
  destruct (@walk_total (Z.to_nat ((end_ - t) / stepMs + 1)) durSet end_ t acc)
    as (acc' & Hw).
  { pose proof stepMs_pos as Hpos. intros H.
    assert (0 <= (end_ - t) / stepMs) by (apply Z.div_pos; lia).
    rewrite Z2Nat.id by lia.
    pose proof (Z.mod_pos_bound (end_ - t) stepMs Hpos).
    pose proof (Z.div_mod (end_ - t) stepMs ltac:(lia)). nia. }
  exists acc'. split; [exact Hw|].
  eapply walk_inv; eauto.
Qed.

Lemma visitAll_spec its : forall acc,
  (forall it, In it its -> In it intervals) -> accInv acc ->
  exists acc', visitAll fromMs toMs durSet acc its = Some acc' /\ accInv acc'.
Proof.
  induction its as [|it its IH]; intros acc Hsub Hacc; simpl; [eauto|].
  destruct (@visit_spec it acc) as (acc1 & Hv & Hacc1); auto.
  { apply Hsub. now left. }
  rewrite Hv. apply IH; auto. intros x Hx. apply Hsub. now right.
Qed.

End GenerateSlotsFacts.

Section SlotOrder.




End SlotOrder.


Example generateSlots_hour :
  generateSlots [Scheduling.mkInterval 14400000 18000000] 0 86400000 [30; 60]
  = Some [mkSlot 14400000 16200000 30; mkSlot 14400000 18000000 60;
          mkSlot 15300000 17100000 30; mkSlot 16200000 18000000 30].
Proof. vm_compute. reflexivity. Qed.

(** ** Free-slot query *)

Import Schema.

Section FreeSlotQuery.

Lemma generateSlots_total intervals fromMs toMs durations :
  exists slots,
    generateSlots intervals fromMs toMs durations = Some slots
    /\ Forall (fun s => In (durationMinutes s) durations) slots.
Proof.
  unfold generateSlots.
  destruct (@visitAll_spec intervals fromMs toMs durations intervals (mkAcc [] []))
    as (acc & Hv & _ & _ & Hall).
  - auto.
  - repeat split; simpl; constructor.
  - rewrite Hv. eexists; split; [reflexivity|].
    apply sort_Forall. eapply Forall_impl; [|exact Hall].
    intros s (_ & (Hd & _) & _). exact Hd.
Qed.


(** The query handler always answers. *)
Lemma GET_total s rq : exists r, GET s rq = Some r.
Proof.
  unfold GET. destruct (FreeSlots.rq_teacherId rq) as [teacherId|]; [|eauto].
  destruct (rq_from rq) as [fromMs|], (rq_to rq) as [toMs|]; eauto.
  destruct (toMs <=? fromMs); [eauto|].
  match goal with
  | |- context [generateSlots ?i ?f ?t ?d] =>
      destruct (generateSlots_total i f t d) as (slots & E & _); rewrite E
  end.
  eauto.
Qed.

End FreeSlotQuery.




(** ** Checkout *)

Section CheckoutFacts.
Import Checkout.

Lemma transaction_throw {A} (body : Db -> result (A * Db)) s msg :
  body s = Throw msg -> transaction body s = (Throw msg, s).
Proof. unfold transaction. now intros ->. Qed.

(** The transaction body throws before its first write when the rows
    found are not the required atomic ones. *)
Lemma checkoutTx_unavailable env user teacherId start d s :
  let rows := matchingRows s teacherId (requiredStarts start d) in
  (List.length rows <> List.length (requiredStarts start d)
   \/ exists r, In r rows /\ a_endUtc r - a_startUtc r <> minutes GRID_MINUTES) ->
  exists msg, checkoutTx env user teacherId start d s = Throw msg /\ msg <> EmptyString.
Proof.
  intros rows H. unfold checkoutTx. fold rows.
  destruct (findOffer s teacherId d); [|eexists; split; [reflexivity | discriminate]].
  destruct (Nat.eqb (List.length rows) (List.length (requiredStarts start d))) eqn:E;
    simpl; [|eexists; split; [reflexivity | discriminate]].
  apply Nat.eqb_eq in E.
  destruct H as [H | (r & Hr & Hlen)]; [contradiction|].
  assert (Hex : existsb notAtomic rows = true).
  { apply existsb_exists. exists r. split; [exact Hr|].
    unfold notAtomic. apply negb_true_iff. now apply Z.eqb_neq. }
  rewrite Hex. eexists; split; [reflexivity | discriminate].
Qed.

End CheckoutFacts.

(** C2. For a reservation request of a supported duration (30 or 60
    minutes), if the teacher's rows matching the required start instants
    are fewer than required, or one of them is not exactly 30 minutes
    long, then the checkout answers with an error and the store is left
    exactly as it was: no booking is created, no availability row is
    deleted. *)
Theorem checkout_unavailable_unchanged
        (env : Checkout.Env) (rq : Checkout.Request) (s : Db)
        (teacherId start d : Z) :
  Checkout.rq_teacherId rq = Some teacherId ->
  Checkout.rq_startUtc rq = IsoAt start ->
  Checkout.rq_durationMinutes rq = Some d ->
  d = 30 \/ d = 60 ->
  let rows :=
    Checkout.matchingRows s teacherId (Checkout.requiredStarts start d) in
  ((List.length rows < List.length (Checkout.requiredStarts start d))%nat
   \/ exists r, In r rows /\ a_endUtc r - a_startUtc r <> minutes GRID_MINUTES) ->
  exists status msg,
    Checkout.POST env rq s = (Checkout.Error status msg, s).
Proof.
  intros Ht Hs Hd Hdur rows Hbad. unfold Checkout.POST.
  destruct (Checkout.rq_user rq) as [user|]; [|eauto].
  destruct (Checkout.u_id user =? 0); [eauto|].
  rewrite Ht, Hs, Hd.
  assert (Hinc : includes [30; 60] d = true) by (destruct Hdur; subst; reflexivity).
  rewrite Hinc. simpl.
  destruct (@checkoutTx_unavailable env user teacherId start d s) as (msg & Hm & Hne).
  { destruct Hbad as [Hlt | Hr]; [left | right; exact Hr]. fold rows. lia. }
  rewrite (transaction_throw _ _ Hm). eauto.
Qed.

Lemma checkout_unavailable_unchanged_witness :
  exists status msg,
    Checkout.POST CheckoutExample.env (CheckoutExample.request 60)
                  CheckoutExample.store
    = (Checkout.Error status msg, CheckoutExample.store).
Proof.
  apply (@checkout_unavailable_unchanged
           CheckoutExample.env (CheckoutExample.request 60)
           CheckoutExample.store 7 (CheckoutExample.day + 14400000) 60);
    try reflexivity.
  - now right.
  - left. vm_compute. lia.
Defined.

(** The scenarios of the specification: a 60-minute reservation with only
    the 04:00Z block fails and deletes nothing; a 30-minute one succeeds,
    consumes the block, and a repeat for the same instant finds no slot. *)
Example checkout_sixty_with_one_block :
  Checkout.POST CheckoutExample.env (CheckoutExample.request 60)
                CheckoutExample.store
  = (Checkout.Error 400 "Slot not available", CheckoutExample.store).
Proof. vm_compute. reflexivity. Qed.

Example checkout_thirty_then_repeat :
  exists url s1,
    Checkout.POST CheckoutExample.env (CheckoutExample.request 30)
                  CheckoutExample.store = (Checkout.CheckoutUrl url, s1)
    /\ teacherAvailability s1 = []
    /\ map b_status (bookings s1) = [Paid]
    /\ Checkout.POST CheckoutExample.env (CheckoutExample.request 30) s1
       = (Checkout.Error 400 "Slot not available", s1).
Proof.
  eexists; eexists. split; [vm_compute; reflexivity|].
  split; [reflexivity|]. split; [reflexivity|]. vm_compute. reflexivity.
Qed.

(** ** Cancellation *)

Import CancelSpec.

Section CancelFacts.
Import Cancel.

Lemma atomicStartsFrom_map start n : forall i,
  atomicStartsFrom start i n
  = map (fun k => start + (i + Z.of_nat k) * minutes GRID_MINUTES) (seq 0 n).
Proof.
  induction n as [|n IH]; intros i; [reflexivity|].
  cbn [atomicStartsFrom seq map]. f_equal.
  - unfold minutes, GRID_MINUTES. lia.
  - rewrite IH, <- seq_shift, map_map. apply map_ext. intros k.
    unfold minutes, GRID_MINUTES. lia.
Qed.

Lemma buildAtomicStarts_implied startUtc endUtc :
  buildAtomicStarts startUtc endUtc = impliedStarts startUtc endUtc.
Proof.
  unfold buildAtomicStarts, impliedStarts.
  destruct (endUtc - startUtc <=? 0) eqn:E1.
  - apply Z.leb_le in E1.
    destruct (0 <? endUtc - startUtc) eqn:E2; [apply Z.ltb_lt in E2; lia|].
    reflexivity.
  - apply Z.leb_gt in E1.
    destruct (0 <? endUtc - startUtc) eqn:E2; [|apply Z.ltb_ge in E2; lia].
    cbn [andb negb].
    destruct ((endUtc - startUtc) mod minutes GRID_MINUTES =? 0); cbn [negb];
      [|reflexivity].
    rewrite atomicStartsFrom_map. apply map_ext. intros k.
    now rewrite Z.add_0_l.
Qed.

Lemma insertAvailabilities_nil s : insertAvailabilities s [] = s.
Proof. reflexivity. Qed.

(** A batch insert appends one row per value and touches nothing else. *)
Lemma insertAvailabilities_spec now teacherId ds : forall s,
  let s' := insertAvailabilities s
              (map (fun startDate id =>
                      mkAvailability id teacherId startDate
                                     (startDate + minutes GRID_MINUTES)
                                     "manual" now) ds) in
  bookings s' = bookings s
  /\ lessonOffers s' = lessonOffers s
  /\ exists news,
       teacherAvailability s' = teacherAvailability s ++ news
       /\ map slotOf news
          = map (fun d => (teacherId, d, d + minutes GRID_MINUTES)) ds.
Proof.
  induction ds as [|d ds IH]; intros s; simpl.
  - repeat split. exists []. now rewrite app_nil_r.
  - destruct (IH (insertAvailability s (fun id =>
        mkAvailability id teacherId d (d + minutes GRID_MINUTES) "manual" now)))
      as (Hb & Ho & news & Ha & Hn).
    unfold insertAvailabilities in *. simpl in *.
    repeat split; [exact Hb | exact Ho |].
    eexists (_ :: news). split.
    + rewrite Ha, <- app_assoc. reflexivity.
    + simpl. now rewrite Hn.
Qed.

Lemma includes_existingStarts s teacherId starts d :
  In d starts ->
  includes (existingStarts s teacherId starts) d = present s teacherId d.
Proof.
  intros Hd. unfold existingStarts, present.
  apply eq_true_iff_eq. rewrite includes_In, in_map_iff, existsb_exists.
  split.
  - intros (r & <- & Hr). apply filter_In in Hr. destruct Hr as [Hr Hp].
    apply andb_true_iff in Hp. destruct Hp as [Ht _].
    exists r. split; [exact Hr|]. now rewrite Ht, Z.eqb_refl.
  - intros (r & Hr & Hp). apply andb_true_iff in Hp. destruct Hp as [Ht Hs].
    apply Z.eqb_eq in Hs. exists r. split; [exact Hs|].
    apply filter_In. split; [exact Hr|].
    rewrite Ht. simpl. apply includes_In. now rewrite Hs.
Qed.

Lemma rowsToInsert_missing now s teacherId starts :
  rowsToInsert now teacherId (existingStarts s teacherId starts) starts
  = map (fun startDate id =>
           mkAvailability id teacherId startDate
                          (startDate + minutes GRID_MINUTES) "manual" now)
        (missingStarts s teacherId starts).
Proof.
  unfold rowsToInsert, missingStarts. f_equal.
  apply filter_ext_in. intros d Hd. f_equal.
  now apply includes_existingStarts.
Qed.

Lemma find_map {A} (p : A -> bool) (f : A -> A) l :
  (forall x, p (f x) = p x) ->
  find p (map f l) = option_map f (find p l).
Proof.
  intros Hp. induction l as [|x l IH]; simpl; [reflexivity|].
  rewrite Hp. destruct (p x); [reflexivity | exact IH].
Qed.

(** With [id] a primary key, the owner's lookup returns the booking. *)
Lemma findBooking_In s b :
  NoDup (map b_id (bookings s)) -> In b (bookings s) ->
  findBooking s (b_id b) (b_studentId b) = Some b.
Proof.
  unfold findBooking. induction (bookings s) as [|x l IH]; simpl;
    intros Hnd Hin; [contradiction|].
  inversion Hnd as [|? ? Hx Hnd']; subst.
  destruct Hin as [-> | Hin].
  - now rewrite !Z.eqb_refl.
  - destruct (b_id x =? b_id b) eqn:E.
    + apply Z.eqb_eq in E. exfalso. apply Hx. rewrite E. now apply in_map.
    + simpl. now apply IH.
Qed.

Lemma present_app_new s s' teacherId news ds d :
  teacherAvailability s' = teacherAvailability s ++ news ->
  map slotOf news = map (fun d => (teacherId, d, d + minutes GRID_MINUTES)) ds ->
  present s teacherId d = true \/ In d ds ->
  present s' teacherId d = true.
Proof.
  intros Ha Hn H. unfold present in *. rewrite Ha, existsb_app.
  apply orb_true_iff. destruct H as [H | H]; [now left | right].
  apply existsb_exists.
  assert (Hin : In (teacherId, d, d + minutes GRID_MINUTES) (map slotOf news)).
  { rewrite Hn. apply in_map_iff. now exists d. }
  apply in_map_iff in Hin. destruct Hin as (r & Hr & Hin).
  exists r. split; [exact Hin|]. unfold slotOf in Hr.
  injection Hr as -> -> _. now rewrite !Z.eqb_refl.
Qed.

End CancelFacts.

Section CancelTx.
Import Cancel.

Let mkRow (now teacherId : Z) : Z -> Z -> Availability :=
  fun startDate id =>
    mkAvailability id teacherId startDate (startDate + minutes GRID_MINUTES)
                   "manual" now.

Lemma missingStarts_ext s s' teacherId starts :
  teacherAvailability s' = teacherAvailability s ->
  missingStarts s' teacherId starts = missingStarts s teacherId starts.
Proof. unfold missingStarts, present. now intros ->. Qed.

(** The transaction on a pending booking of the requesting student. *)
Lemma cancelTx_pending now s b :
  findBooking s (b_id b) (b_studentId b) = Some b ->
  b_status b = Pending ->
  let s0 := updateBookingsById s (b_id b) (canceled now) in
  let missing := missingStarts s (b_teacherId b)
                   (impliedStarts (b_startUtc b) (b_endUtc b)) in
  cancelTx now (b_studentId b) (b_id b) s
  = Ok (Done (Z.of_nat (List.length missing)),
        insertAvailabilities s0 (map (mkRow now (b_teacherId b)) missing)).
Proof.
  intros Hf Hst s0 missing. unfold cancelTx. rewrite Hf, Hst.
  fold (canceled now). fold s0.
  rewrite buildAtomicStarts_implied.
  assert (Hm : missingStarts s0 (b_teacherId b)
                 (impliedStarts (b_startUtc b) (b_endUtc b)) = missing)
    by (apply missingStarts_ext; reflexivity).
  destruct (impliedStarts (b_startUtc b) (b_endUtc b)) as [|d ds] eqn:Es.
  - subst missing. reflexivity.
  - rewrite rowsToInsert_missing, Hm. fold (mkRow now (b_teacherId b)).
    rewrite length_map.
    destruct (map (mkRow now (b_teacherId b)) missing); reflexivity.
Qed.

(** The transaction on a booking already canceled, once every implied
    block is present: nothing is written. *)
Lemma cancelTx_canceled now s b :
  findBooking s (b_id b) (b_studentId b) = Some b ->
  b_status b = Canceled ->
  Forall (fun d => present s (b_teacherId b) d = true)
         (impliedStarts (b_startUtc b) (b_endUtc b)) ->
  cancelTx now (b_studentId b) (b_id b) s = Ok (Done 0, s).
Proof.
  intros Hf Hst Hall. unfold cancelTx. rewrite Hf, Hst.
  rewrite buildAtomicStarts_implied.
  destruct (impliedStarts (b_startUtc b) (b_endUtc b)) as [|d ds] eqn:Es;
    [reflexivity|].
  rewrite rowsToInsert_missing.
  assert (Hm : missingStarts s (b_teacherId b) (d :: ds) = []).
  { unfold missingStarts. apply filter_none.
    eapply Forall_impl; [|exact Hall]. intros x Hx. simpl in Hx.
    now rewrite Hx. }
  rewrite Hm. reflexivity.
Qed.

End CancelTx.

(** C7. Cancelling a pending booking owned by the requesting student
    marks it canceled and appends exactly one 30-minute row for each
    block start implied by the booking's range for which the teacher has
    no row yet; cancelling the same booking again succeeds, reports zero
    restored rows and leaves the store as it is. *)
Theorem cancel_restores_and_is_idempotent (now now' : Z) (s : Db) (b : Booking) :
  NoDup (map b_id (bookings s)) ->
  In b (bookings s) ->
  b_studentId b <> 0 ->
  b_status b = Pending ->
  let rq := Cancel.mkRequest (Some (b_studentId b)) (Some (b_id b)) in
  let missing := missingStarts s (b_teacherId b)
                   (impliedStarts (b_startUtc b) (b_endUtc b)) in
  exists s1,
    Cancel.POST now rq s
    = (Cancel.Restored (Z.of_nat (List.length missing)), s1)
    /\ bookings s1
       = map (fun x => if b_id x =? b_id b then canceled now x else x)
             (bookings s)
    /\ (exists news,
          teacherAvailability s1 = teacherAvailability s ++ news
          /\ map slotOf news
             = map (fun d => (b_teacherId b, d, d + minutes GRID_MINUTES))
                   missing)
    /\ Cancel.POST now' rq s1 = (Cancel.Restored 0, s1).
Proof.
  intros Hpk Hin Huser Hst rq missing.
  pose proof (@findBooking_In s b Hpk Hin) as Hf.
  pose proof (@cancelTx_pending now s b Hf Hst) as Htx. cbv zeta in Htx.
  fold missing in Htx.
  set (s0 := updateBookingsById s (b_id b) (canceled now)) in *.
  destruct (@insertAvailabilities_spec now (b_teacherId b) missing s0)
    as (Hb & _ & news & Ha & Hn).
  set (s1 := insertAvailabilities s0 _) in *.
  assert (Hnz : (b_studentId b =? 0) = false) by now apply Z.eqb_neq.
  exists s1. split; [|split; [|split]].
  - unfold Cancel.POST, transaction. simpl. now rewrite Hnz, Htx.
  - rewrite Hb. reflexivity.
  - exists news. split; [exact Ha | exact Hn].
  - assert (Hf1 : Cancel.findBooking s1 (b_id b) (b_studentId b)
                  = Some (canceled now b)).
    { unfold Cancel.findBooking. rewrite Hb. unfold s0, updateBookingsById.
      simpl. rewrite find_map.
      - unfold Cancel.findBooking in Hf. rewrite Hf. simpl.
        now rewrite Z.eqb_refl.
      - intros x. destruct (b_id x =? b_id b) eqn:E; simpl; rewrite ?E; reflexivity. }
    assert (Htx2 : Cancel.cancelTx now' (b_studentId b) (b_id b) s1
                   = Ok (Cancel.Done 0, s1)).
    { apply (@cancelTx_canceled now' s1 (canceled now b));
        [exact Hf1 | reflexivity |].
      apply Forall_forall. intros d Hd. simpl in Hd |- *.
      eapply present_app_new with (s := s0); [exact Ha | exact Hn |].
      destruct (present s0 (b_teacherId b) d) eqn:Ep; [now left | right].
      unfold missing, missingStarts. apply filter_In. split; [exact Hd|].
      unfold present in *. simpl in Ep. now rewrite Ep. }
    unfold Cancel.POST, transaction. simpl. now rewrite Hnz, Htx2.
Qed.

Lemma cancel_restores_and_is_idempotent_witness :
  exists s1,
    Cancel.POST 5 (Cancel.mkRequest (Some 9) (Some 1)) CancelExample.store
    = (Cancel.Restored 1, s1)
    /\ bookings s1 = [canceled 5 CancelExample.booking]
    /\ (exists news,
          teacherAvailability s1
          = teacherAvailability CancelExample.store ++ news
          /\ map slotOf news
             = [(7, CancelExample.day + 43200000, CancelExample.day + 45000000)])
    /\ Cancel.POST 6 (Cancel.mkRequest (Some 9) (Some 1)) s1
       = (Cancel.Restored 0, s1).
Proof.
  apply (@cancel_restores_and_is_idempotent 5 6 CancelExample.store
                                            CancelExample.booking).
  - repeat constructor. intros [].
  - now left.
  - discriminate.
  - reflexivity.
Defined.

Example cancel_twice :
  let rq := Cancel.mkRequest (Some 9) (Some 1) in
  let '(r1, s1) := Cancel.POST 5 rq CancelExample.store in
  let '(r2, s2) := Cancel.POST 6 rq s1 in
  r1 = Cancel.Restored 1 /\ r2 = Cancel.Restored 0 /\ s2 = s1
  /\ map slotOf (teacherAvailability s1)
     = [(7, CancelExample.day + 45000000, CancelExample.day + 46800000);
        (7, CancelExample.day + 43200000, CancelExample.day + 45000000)].
Proof. vm_compute. repeat split. Qed.

(** ** Atomic decomposition of submitted ranges *)

Import GridSpec.

Section SplitFacts.
Import Availability.

(** The fuel handed to [splitLoop] is never exhausted. *)
Lemma splitLoop_total fuel : forall t end_,
  end_ - t < (Z.of_nat fuel + 1) * minutes GRID_MINUTES ->
  exists l, Availability.splitLoop fuel t end_ = Some l.
Proof.
  assert (Hg : minutes GRID_MINUTES = 1800000) by reflexivity.
  induction fuel as [|fuel IH]; intros t end_ Hf;
    cbn [Availability.splitLoop];
    destruct (t + minutes GRID_MINUTES <=? end_) eqn:E.
  - apply Z.leb_le in E. lia.
  - eauto.
  - destruct (IH (t + minutes GRID_MINUTES) end_) as (l & Hl); [lia|].
    rewrite Hl. eauto.
  - eauto.
Qed.

Lemma splitIntoGridSlots_total a b :
  exists slots, Availability.splitIntoGridSlots a b = Some slots.
Proof.
  unfold Availability.splitIntoGridSlots.
  destruct a as [| |start]; eauto. destruct b as [| |end_]; eauto.
  destruct (end_ <=? start); eauto.
  apply splitLoop_total.
  set (d := Availability.clearSeconds end_ - Availability.roundDownToGrid start).
  assert (Hg : 0 < minutes GRID_MINUTES) by reflexivity.
  destruct (Z.le_gt_cases 0 d) as [H | H].
  - rewrite Z2Nat.id by (apply Z.div_pos; lia).
    pose proof (Z.mod_pos_bound d _ Hg).
    pose proof (Z.div_mod d (minutes GRID_MINUTES) ltac:(lia)). nia.
  - assert (0 <= Z.of_nat (Z.to_nat (d / minutes GRID_MINUTES))) by lia. nia.
Qed.

Lemma gridMs_eq : gridMs = 1800000.
Proof. reflexivity. Qed.

Lemma roundDownToGrid_floor t : roundDownToGrid t = floorToGrid t.
Proof.
  unfold roundDownToGrid, floorToGrid, setMinute, minuteOf, GRID_MINUTES.
  rewrite gridMs_eq.
  pose proof (Z.div_mod t 60000 ltac:(lia)).
  pose proof (Z.mod_pos_bound t 60000 ltac:(lia)).
  pose proof (Z.div_mod (t / 60000) 60 ltac:(lia)).
  pose proof (Z.mod_pos_bound (t / 60000) 60 ltac:(lia)).
  pose proof (Z.div_mod ((t / 60000) mod 60) 30 ltac:(lia)).
  pose proof (Z.mod_pos_bound ((t / 60000) mod 60) 30 ltac:(lia)).
  assert (E1 : t / 3600000 = t / 60000 / 60)
    by (rewrite Z.div_div by lia; reflexivity).
  rewrite E1.
  set (q := t / 60000) in *. set (r := q mod 60) in *.
  assert (Hfloor : 1800000 * (2 * (q / 60) + r / 30) <= t
                   < 1800000 * (2 * (q / 60) + r / 30) + 1800000) by lia.
  assert (Hdiv : t / 1800000 = 2 * (q / 60) + r / 30).
  { symmetry. apply Z.div_unique with (r := t - 1800000 * (2 * (q / 60) + r / 30)); lia. }
  pose proof (Z.div_mod t 1800000 ltac:(lia)). lia.
Qed.

Lemma floorToGrid_spec t :
  floorToGrid t mod gridMs = 0 /\ floorToGrid t <= t < floorToGrid t + gridMs.
Proof.
  unfold floorToGrid. rewrite gridMs_eq.
  pose proof (Z.mod_pos_bound t 1800000 ltac:(lia)).
  split; [|lia].
  rewrite Zminus_mod_idemp_r, Z.sub_diag. reflexivity.
Qed.

Lemma gridSlots_S start n :
  gridSlots start (S n)
  = mkSlot start (start + gridMs) :: gridSlots (start + gridMs) n.
Proof.
  unfold gridSlots. cbn [seq map]. f_equal.
  - f_equal; rewrite gridMs_eq; lia.
  - rewrite <- seq_shift, map_map. apply map_ext. intros k.
    f_equal; rewrite gridMs_eq; lia.
Qed.

Lemma splitLoop_gridSlots fuel : forall t end_ l,
  splitLoop fuel t end_ = Some l ->
  l = gridSlots t (Z.to_nat ((end_ - t) / gridMs)).
Proof.
  induction fuel as [|fuel IH]; intros t end_ l; cbn [splitLoop];
    fold gridMs; destruct (t + gridMs <=? end_) eqn:E; try discriminate.
  - intros [= <-]. apply Z.leb_gt in E.
    assert (Hq : (end_ - t) / gridMs <= 0).
    { rewrite gridMs_eq in *. apply Z.lt_succ_r.
      apply Z.div_lt_upper_bound; lia. }
    destruct (Z.to_nat ((end_ - t) / gridMs)) eqn:En; [reflexivity | lia].
  - destruct (splitLoop fuel (t + gridMs) end_) as [rest|] eqn:Er; [|discriminate].
    intros [= <-]. apply Z.leb_le in E. apply IH in Er. subst rest.
    assert (Hq : (end_ - t) / gridMs = (end_ - (t + gridMs)) / gridMs + 1).
    { rewrite gridMs_eq in *.
      replace (end_ - t) with ((end_ - (t + 1800000)) + 1 * 1800000) by lia.
      now rewrite Z.div_add by lia. }
    assert (0 <= (end_ - (t + gridMs)) / gridMs)
      by (apply Z.div_pos; rewrite ?gridMs_eq in *; lia).
    rewrite Hq, Z2Nat.inj_add by lia. rewrite Nat.add_comm. cbn [Nat.add Z.to_nat Pos.to_nat Pos.iter_op].
    now rewrite gridSlots_S.
  - intros [= <-]. apply Z.leb_gt in E.
    assert (Hq : (end_ - t) / gridMs <= 0).
    { rewrite gridMs_eq in *. apply Z.lt_succ_r.
      apply Z.div_lt_upper_bound; lia. }
    destruct (Z.to_nat ((end_ - t) / gridMs)) eqn:En; [reflexivity | lia].
Qed.

Lemma splitIntoGridSlots_spec a b :
  a < b ->
  splitIntoGridSlots (IsoAt a) (IsoAt b)
  = Some (gridSlots (floorToGrid a)
                    (Z.to_nat ((clearSeconds b - floorToGrid a) / gridMs))).
Proof.
  intros Hab.
  destruct (splitIntoGridSlots_total (IsoAt a) (IsoAt b)) as (l & Hl).
  rewrite Hl. f_equal. unfold splitIntoGridSlots in Hl.
  destruct (b <=? a) eqn:E; [apply Z.leb_le in E; lia|].
  apply splitLoop_gridSlots in Hl. now rewrite roundDownToGrid_floor in Hl.
Qed.

Lemma gridSlots_nth start n k g :
  nth_error (gridSlots start n) k = Some g ->
  g_startUtc g = start + Z.of_nat k * gridMs
  /\ g_endUtc g = g_startUtc g + gridMs.
Proof.
  unfold gridSlots. intros H.
  rewrite nth_error_map in H.
  destruct (nth_error (seq 0 n) k) as [i|] eqn:Ei; [|discriminate].
  assert (Hk : (k < List.length (seq 0 n))%nat)
    by (apply nth_error_Some; rewrite Ei; discriminate).
  rewrite length_seq in Hk.
  apply nth_error_nth with (d := 0%nat) in Ei. rewrite seq_nth in Ei by lia.
  simpl in Ei. subst i. injection H as <-. simpl. rewrite gridMs_eq. lia.
Qed.

Lemma gridSlots_NoDup teacherId start n :
  NoDup (map (tripleOf teacherId) (gridSlots start n)).
Proof.
  unfold gridSlots. rewrite map_map. apply NoDup_map_inj; [|apply seq_NoDup].
  intros x y. unfold tripleOf; simpl. rewrite gridMs_eq. intros [= H _]. lia.
Qed.

End SplitFacts.

(** ** The atomic availability store *)

Import StoreSpec.

Section UniqueStarts.

Lemma atomicKeys_app l1 l2 : atomicKeys (l1 ++ l2) = atomicKeys l1 ++ atomicKeys l2.
Proof. unfold atomicKeys. now rewrite filter_app, map_app. Qed.

Lemma atomicKeys_In rows t d :
  In (t, d) (atomicKeys rows) <->
  exists r, In r rows /\ a_teacherId r = t /\ a_startUtc r = d
            /\ a_endUtc r = d + minutes GRID_MINUTES.
Proof.
  unfold atomicKeys. rewrite in_map_iff. split.
  - intros (r & [= <- <-] & Hr). apply filter_In in Hr. destruct Hr as [Hr Ha].
    unfold isAtomic in Ha. apply Z.eqb_eq in Ha.
    exists r. repeat split; auto. lia.
  - intros (r & Hr & <- & <- & He). exists r. split; [reflexivity|].
    apply filter_In. split; [exact Hr|]. unfold isAtomic. apply Z.eqb_eq. lia.
Qed.

(** *** Manual entry *)

Lemma exists_spec s teacherId g :
  Availability.exists_ s teacherId g = true <->
  exists r, In r (teacherAvailability s) /\ a_teacherId r = teacherId
            /\ a_startUtc r = Availability.g_startUtc g
            /\ a_endUtc r = Availability.g_endUtc g.
Proof.
  unfold Availability.exists_. rewrite existsb_exists. split.
  - intros (r & Hr & H). apply andb_true_iff in H. destruct H as [H He].
    apply andb_true_iff in H. destruct H as [Ht Hs].
    apply Z.eqb_eq in Ht, Hs, He. eauto.
  - intros (r & Hr & Ht & Hs & He). exists r. split; [exact Hr|].
    now rewrite Ht, Hs, He, !Z.eqb_refl.
Qed.

Lemma insertIfMissing_unique now teacherId s g :
  uniqueAtomicStarts s ->
  uniqueAtomicStarts (Availability.insertIfMissing now teacherId s g).
Proof.
  intros Hu. unfold Availability.insertIfMissing.
  destruct (Availability.exists_ s teacherId g) eqn:E; [exact Hu|].
  unfold uniqueAtomicStarts. simpl. rewrite atomicKeys_app.
  unfold atomicKeys at 2. simpl.
  destruct (isAtomic _) eqn:Ea; simpl; [|now rewrite app_nil_r].
  apply NoDup_snoc; [exact Hu|].
  intros Hin. apply atomicKeys_In in Hin.
  destruct Hin as (r & Hr & Ht & Hs & He).
  unfold isAtomic in Ea. simpl in Ea. apply Z.eqb_eq in Ea.
  assert (Hex : Availability.exists_ s teacherId g = true).
  { apply exists_spec. exists r. repeat split; auto.
    unfold minutes, GRID_MINUTES in *. lia. }
  congruence.
Qed.

Lemma fold_insertIfMissing_unique now teacherId slots : forall s,
  uniqueAtomicStarts s ->
  uniqueAtomicStarts
    (fold_left (Availability.insertIfMissing now teacherId) slots s).
Proof.
  induction slots as [|g slots IH]; intros s Hu; simpl; [exact Hu|].
  apply IH. now apply insertIfMissing_unique.
Qed.

Lemma allAtomic_uniqueStarts s :
  allAtomic s -> (uniqueStarts s <-> uniqueAtomicStarts s).
Proof.
  unfold allAtomic, uniqueStarts, uniqueAtomicStarts, atomicKeys.
  intros H. now rewrite (filter_all _ H).
Qed.

Lemma gridSlots_atomic start n :
  Forall (fun g => Availability.g_endUtc g - Availability.g_startUtc g
                   = minutes GRID_MINUTES)
         (gridSlots start n).
Proof.
  unfold gridSlots. apply Forall_forall. intros g Hg.
  apply in_map_iff in Hg. destruct Hg as (k & <- & _).
  cbn [Availability.g_endUtc Availability.g_startUtc].
  rewrite gridMs_eq. unfold minutes, GRID_MINUTES. lia.
Qed.

Lemma splitIntoGridSlots_atomic a b slots :
  Availability.splitIntoGridSlots a b = Some slots ->
  Forall (fun g => Availability.g_endUtc g - Availability.g_startUtc g
                   = minutes GRID_MINUTES) slots.
Proof.
  unfold Availability.splitIntoGridSlots.
  destruct a as [| |start]; try (intros [= <-]; constructor).
  destruct b as [| |end_]; try (intros [= <-]; constructor).
  destruct (end_ <=? start); [intros [= <-]; constructor|].
  intros H. apply splitLoop_gridSlots in H. subst slots.
  apply gridSlots_atomic.
Qed.

Lemma fold_insertIfMissing_atomic now teacherId slots : forall s,
  Forall (fun g => Availability.g_endUtc g - Availability.g_startUtc g
                   = minutes GRID_MINUTES) slots ->
  allAtomic s ->
  allAtomic (fold_left (Availability.insertIfMissing now teacherId) slots s).
Proof.
  induction slots as [|g slots IH]; intros s Hs Ha; cbn [fold_left]; [exact Ha|].
  inversion Hs as [|? ? Hg Hs']; subst. apply IH; [exact Hs'|].
  unfold Availability.insertIfMissing.
  destruct (Availability.exists_ s teacherId g); [exact Ha|].
  unfold allAtomic. cbn. apply Forall_app. split; [exact Ha|].
  constructor; [|constructor]. unfold isAtomic. cbn. now apply Z.eqb_eq.
Qed.

(** The manual POST always answers. *)
Lemma availabilityPOST_total now rq s :
  exists r s', Availability.POST now rq s = Some (r, s').
Proof.
  unfold Availability.POST.
  destruct (Availability.rq_userId rq) as [userId|]; [|eauto].
  destruct (Availability.rq_teacherId rq) as [teacherId|]; [|eauto].
  destruct (negb (userId =? teacherId)); [eauto|].
  destruct (splitIntoGridSlots_total (Availability.rq_startUtc rq)
                                     (Availability.rq_endUtc rq)) as (slots & Hs).
  destruct (Availability.rq_startUtc rq), (Availability.rq_endUtc rq); eauto;
    rewrite Hs; destruct slots; eauto;
    unfold transaction, Availability.postTx; eauto.
Qed.

Lemma availabilityPOST_unique now rq s :
  uniqueAtomicStarts s ->
  exists r s', Availability.POST now rq s = Some (r, s')
               /\ uniqueAtomicStarts s'
               /\ (allAtomic s -> allAtomic s').
Proof.
  intros Hu. unfold Availability.POST.
  destruct (Availability.rq_userId rq) as [userId|]; [|eauto].
  destruct (Availability.rq_teacherId rq) as [teacherId|]; [|eauto].
  destruct (negb (userId =? teacherId)); [eauto|].
  destruct (splitIntoGridSlots_total (Availability.rq_startUtc rq)
                                     (Availability.rq_endUtc rq)) as (slots & Hs).
  assert (Hgo : exists r s',
             match Availability.splitIntoGridSlots (Availability.rq_startUtc rq)
                     (Availability.rq_endUtc rq) with
             | None => None
             | Some [] => Some (Availability.Error 400 "Empty selection", s)
             | Some slots =>
                 match transaction (Availability.postTx now teacherId slots) s with
                 | (Ok _, s') =>
                     Some (Availability.Inserted (Z.of_nat (List.length slots)), s')
                 | (Throw msg, s') => Some (Availability.Error 500 msg, s')
                 end
             end = Some (r, s') /\ uniqueAtomicStarts s'
             /\ (allAtomic s -> allAtomic s')).
  { rewrite Hs. pose proof (splitIntoGridSlots_atomic _ _ Hs) as Hat.
    destruct slots as [|g slots]; [eauto|].
    unfold transaction, Availability.postTx.
    eexists; eexists; split; [reflexivity|]. split.
    - now apply fold_insertIfMissing_unique.
    - now apply fold_insertIfMissing_atomic. }
  destruct (Availability.rq_startUtc rq), (Availability.rq_endUtc rq); eauto.
Qed.

End UniqueStarts.

Section CancelUnique.
Import Cancel.

Lemma impliedStarts_NoDup a b : NoDup (impliedStarts a b).
Proof.
  unfold impliedStarts. destruct (_ && _); [|constructor].
  apply NoDup_map_inj; [|apply seq_NoDup].
  intros x y H. unfold minutes, GRID_MINUTES in H. lia.
Qed.

(** Appending one atomic row per missing start keeps starts unique. *)
Lemma append_missing_unique s s' teacherId starts news :
  uniqueAtomicStarts s -> NoDup starts ->
  teacherAvailability s' = teacherAvailability s ++ news ->
  map slotOf news
  = map (fun d => (teacherId, d, d + minutes GRID_MINUTES))
        (missingStarts s teacherId starts) ->
  uniqueAtomicStarts s'.
Proof.
  intros Hu Hnd Ha Hn. unfold uniqueAtomicStarts. rewrite Ha, atomicKeys_app.
  assert (Hk : atomicKeys news
               = map (fun d => (teacherId, d)) (missingStarts s teacherId starts)).
  { clear Ha. revert news Hn.
    induction (missingStarts s teacherId starts) as [|d ds IH];
      intros [|r news] Hn; try discriminate; [reflexivity|].
    simpl in Hn. injection Hn as Ht Hs He Hn. unfold atomicKeys. simpl.
    assert (Hat : isAtomic r = true).
    { unfold isAtomic, minutes, GRID_MINUTES. apply Z.eqb_eq. lia. }
    rewrite Hat. simpl. rewrite Ht, Hs. f_equal. now apply IH. }
  rewrite Hk. apply NoDup_app.
  - exact Hu.
  - apply NoDup_map_inj; [now intros x y [= ->] | now apply NoDup_filter].
  - intros [t d] Hold Hnew. apply in_map_iff in Hnew.
    destruct Hnew as (d' & [= <- <-] & Hd). unfold missingStarts in Hd.
    apply filter_In in Hd. destruct Hd as [_ Hd]. apply negb_true_iff in Hd.
    apply atomicKeys_In in Hold. destruct Hold as (r & Hr & Ht & Hs & _).
    assert (Hp : present s teacherId d' = true).
    { unfold present. apply existsb_exists. exists r. split; [exact Hr|].
      now rewrite Ht, Hs, !Z.eqb_refl. }
    congruence.
Qed.

Lemma updateBookingsById_availability s id f :
  teacherAvailability (updateBookingsById s id f) = teacherAvailability s.
Proof. reflexivity. Qed.

(** The transaction never throws and only ever appends missing rows. *)
Lemma cancelTx_appends now userId bookingId s :
  exists r s' teacherId starts news,
    cancelTx now userId bookingId s = Ok (r, s')
    /\ NoDup starts
    /\ teacherAvailability s' = teacherAvailability s ++ news
    /\ map slotOf news
       = map (fun d => (teacherId, d, d + minutes GRID_MINUTES))
             (missingStarts s teacherId starts).
Proof.
  assert (Hnone : forall r : TxResult, exists r0 s' teacherId starts news,
    @Ok (TxResult * Db) (r, s) = Ok (r0, s') /\ NoDup starts
    /\ teacherAvailability s' = teacherAvailability s ++ news
    /\ map slotOf news
       = map (fun d => (teacherId, d, d + minutes GRID_MINUTES))
             (missingStarts s teacherId starts)).
  { intros r. exists r, s, 0, [], []. repeat split; [constructor|].
    now rewrite app_nil_r. }
  unfold cancelTx.
  destruct (findBooking s bookingId userId) as [b|]; [|apply Hnone].
  set (upd := updateBookingsById s (b_id b) _).
  assert (Hgo : forall s1, teacherAvailability s1 = teacherAvailability s ->
    exists r s' teacherId starts news,
      match buildAtomicStarts (b_startUtc b) (b_endUtc b) with
      | [] => Ok (Done 0, s1)
      | _ :: _ =>
          Ok (Done (Z.of_nat (List.length
                      (rowsToInsert now (b_teacherId b)
                         (existingStarts s1 (b_teacherId b)
                            (buildAtomicStarts (b_startUtc b) (b_endUtc b)))
                         (buildAtomicStarts (b_startUtc b) (b_endUtc b))))),
              match rowsToInsert now (b_teacherId b)
                      (existingStarts s1 (b_teacherId b)
                         (buildAtomicStarts (b_startUtc b) (b_endUtc b)))
                      (buildAtomicStarts (b_startUtc b) (b_endUtc b)) with
              | [] => s1
              | _ :: _ =>
                  insertAvailabilities s1
                    (rowsToInsert now (b_teacherId b)
                       (existingStarts s1 (b_teacherId b)
                          (buildAtomicStarts (b_startUtc b) (b_endUtc b)))
                       (buildAtomicStarts (b_startUtc b) (b_endUtc b)))
              end)
      end = Ok (r, s') /\ NoDup starts
      /\ teacherAvailability s' = teacherAvailability s ++ news
      /\ map slotOf news
         = map (fun d => (teacherId, d, d + minutes GRID_MINUTES))
               (missingStarts s teacherId starts)).
  { intros s1 Hs1.
    rewrite buildAtomicStarts_implied.
    destruct (impliedStarts (b_startUtc b) (b_endUtc b)) as [|d ds] eqn:Es.
    { eexists; exists s1, 0, [], []. split; [reflexivity|].
      split; [constructor|]. split; [now rewrite app_nil_r | reflexivity]. }
    rewrite rowsToInsert_missing.
    destruct (@insertAvailabilities_spec now (b_teacherId b)
                (missingStarts s1 (b_teacherId b) (d :: ds)) s1)
      as (_ & _ & news & Ha & Hn).
    rewrite (@missingStarts_ext s s1 (b_teacherId b) (d :: ds) Hs1) in *.
    rewrite Hs1 in Ha.
    destruct (missingStarts s (b_teacherId b) (d :: ds)) as [|m ms] eqn:Em.
    - eexists; exists s1, (b_teacherId b), (d :: ds), [].
      split; [reflexivity|]. split; [rewrite <- Es; apply impliedStarts_NoDup|].
      rewrite Em. split; [now rewrite app_nil_r, Hs1 | reflexivity].
    - eexists; eexists; exists (b_teacherId b), (d :: ds), news.
      split; [reflexivity|]. split; [rewrite <- Es; apply impliedStarts_NoDup|].
      rewrite Em. split; [exact Ha | exact Hn]. }
  destruct (b_status b); try apply Hnone; apply Hgo; reflexivity.
Qed.

Lemma cancelPOST_unique now rq s :
  uniqueAtomicStarts s ->
  uniqueAtomicStarts (snd (POST now rq s))
  /\ (allAtomic s -> allAtomic (snd (POST now rq s))).
Proof.
  intros Hu. unfold POST.
  destruct (rq_userId rq) as [userId|]; [|now split].
  destruct (userId =? 0); [now split|].
  destruct (rq_bookingId rq) as [bookingId|]; [|now split].
  destruct (cancelTx_appends now userId bookingId s)
    as (r & s' & t & starts & news & Htx & Hnd & Ha & Hn).
  unfold transaction. rewrite Htx.
  assert (Hu' : uniqueAtomicStarts s')
    by (eapply append_missing_unique; eassumption).
  assert (Hat : allAtomic s -> allAtomic s').
  { unfold allAtomic. rewrite Ha. intros H. apply Forall_app. split; [exact H|].
    clear Ha. revert news Hn.
    induction (missingStarts s t starts) as [|d ds IH];
      intros [|row news] Hn; try discriminate; constructor.
    - cbn [map] in Hn. unfold slotOf at 1 in Hn. injection Hn as _ Hs He _.
      unfold isAtomic, minutes, GRID_MINUTES in *. apply Z.eqb_eq. lia.
    - cbn [map] in Hn. injection Hn as _ _ _ Hn. now apply IH. }
  destruct r; split; assumption.
Qed.

End CancelUnique.

(** C10. The two operations that insert atomic availability rows, the
    manual availability POST and the cancellation restore, return and
    preserve the invariant that no two atomic (30-minute) rows of one
    teacher share a start instant.  A table that holds atomic rows only
    still does so afterwards, and there the invariant says that no two
    rows at all of one teacher share a start. *)
Theorem insert_operations_keep_starts_unique
        (now : Z) (manual : Availability.Request) (cancel : Cancel.Request)
        (s : Db) :
  uniqueAtomicStarts s ->
  (exists r s', Availability.POST now manual s = Some (r, s')
                /\ uniqueAtomicStarts s'
                /\ (allAtomic s -> allAtomic s' /\ uniqueStarts s'))
  /\ (exists r s', Cancel.POST now cancel s = (r, s')
                   /\ uniqueAtomicStarts s'
                   /\ (allAtomic s -> allAtomic s' /\ uniqueStarts s')).
Proof.
  intros Hu. split.
  - destruct (@availabilityPOST_unique now manual s Hu) as (r & s' & E & Hu' & Ha).
    exists r, s'. repeat split; auto.
    apply allAtomic_uniqueStarts; auto.
  - destruct (@cancelPOST_unique now cancel s Hu) as [Hu' Ha].
    exists (fst (Cancel.POST now cancel s)), (snd (Cancel.POST now cancel s)).
    repeat split; auto; [now destruct (Cancel.POST now cancel s)|].
    apply allAtomic_uniqueStarts; auto.
Qed.

Lemma insert_operations_keep_starts_unique_witness :
  (exists r s', Availability.POST 5 StoreExample.manual StoreExample.store
                = Some (r, s')
                /\ uniqueAtomicStarts s'
                /\ (allAtomic StoreExample.store ->
                    allAtomic s' /\ uniqueStarts s'))
  /\ (exists r s', Cancel.POST 5 StoreExample.cancel StoreExample.store = (r, s')
                   /\ uniqueAtomicStarts s'
                   /\ (allAtomic StoreExample.store ->
                       allAtomic s' /\ uniqueStarts s')).
Proof.
  apply insert_operations_keep_starts_unique.
  unfold uniqueAtomicStarts. vm_compute. repeat constructor. intros [].
Defined.

(** Beside a row that is not atomic the manual POST does add a second row
    with the same start: the invariant is one of atomic rows. *)
Example manual_post_beside_long_row :
  let s := mkDb [] [mkAvailability 1 7 0 3600000 "manual" 0] [] [] [] 1 2 1 1 in
  let rq := Availability.mkRequest (Some 7) (Some 7) (IsoAt 0) (IsoAt 1800000) in
  uniqueStarts s
  /\ option_map (fun p => map slotOf (teacherAvailability (snd p)))
                (Availability.POST 5 rq s)
     = Some [(7, 0, 3600000); (7, 0, 1800000)].
Proof.
  split; [|vm_compute; reflexivity].
  unfold uniqueStarts. cbn. repeat constructor. intros [].
Qed.

Example manual_post_rounds_down :
  option_map (fun p => map slotOf (teacherAvailability (snd p)))
             (Availability.POST 5 StoreExample.manual StoreExample.store)
  = Some [(7, StoreExample.day + 45000000, StoreExample.day + 46800000);
          (7, StoreExample.day + 43200000, StoreExample.day + 45000000);
          (7, StoreExample.day + 46800000, StoreExample.day + 48600000);
          (7, StoreExample.day + 48600000, StoreExample.day + 50400000)].
Proof. vm_compute. reflexivity. Qed.

Section ManualEntry.
Import Availability.

Lemma tripleEqb_eq a b : tripleEqb a b = true <-> a = b.
Proof.
  destruct a as [[a1 a2] a3], b as [[b1 b2] b3]. unfold tripleEqb.
  rewrite !andb_true_iff, !Z.eqb_eq. split.
  - intros [[-> ->] ->]. reflexivity.
  - intros [= -> -> ->]. auto.
Qed.

Lemma stored_In s k :
  stored s k = true <-> In k (map slotOf (teacherAvailability s)).
Proof.
  unfold stored. rewrite existsb_exists, in_map_iff. split.
  - intros (r & Hr & E). apply tripleEqb_eq in E. eauto.
  - intros (r & E & Hr). exists r. split; [exact Hr | now apply tripleEqb_eq].
Qed.

Lemma exists_stored s teacherId g :
  exists_ s teacherId g = stored s (tripleOf teacherId g).
Proof.
  unfold exists_, stored, tripleOf, slotOf, tripleEqb. reflexivity.
Qed.

(** The loop appends, in order, the slots whose row is not there yet. *)
Lemma fold_insertIfMissing_spec now teacherId slots : forall s,
  NoDup (map (tripleOf teacherId) slots) ->
  exists news,
    teacherAvailability (fold_left (insertIfMissing now teacherId) slots s)
    = teacherAvailability s ++ news
    /\ map slotOf news
       = filter (fun k => negb (stored s k)) (map (tripleOf teacherId) slots).
Proof.
  induction slots as [|g slots IH]; intros s Hnd; cbn [fold_left map filter].
  - exists []. now rewrite app_nil_r.
  - inversion Hnd as [|? ? Hg Hnd']; subst.
    unfold insertIfMissing at 2. rewrite exists_stored.
    destruct (stored s (tripleOf teacherId g)) eqn:E; cbn [negb].
    + now apply IH.
    + set (row := mkAvailability (teacherAvailabilitySeq s) teacherId
                    (g_startUtc g) (g_endUtc g) "manual" now).
      set (s' := insertAvailability s _).
      destruct (IH s' Hnd') as (news & Ha & Hn).
      exists (row :: news). split.
      * rewrite Ha. unfold s'. cbn. now rewrite <- app_assoc.
      * cbn [map]. f_equal. rewrite Hn. apply filter_ext_in.
        intros k Hk. f_equal. unfold stored.
        change (teacherAvailability s') with (teacherAvailability s ++ [row]).
        rewrite existsb_app. cbn [existsb]. rewrite orb_false_r.
        destruct (tripleEqb (slotOf row) k) eqn:Ek; [|now rewrite orb_false_r].
        apply tripleEqb_eq in Ek. exfalso. apply Hg. now rewrite <- Ek in Hk.
Qed.

Lemma fold_insertIfMissing_fixed now teacherId slots s :
  Forall (fun g => stored s (tripleOf teacherId g) = true) slots ->
  fold_left (insertIfMissing now teacherId) slots s = s.
Proof.
  induction 1 as [|g slots Hg _ IH]; cbn [fold_left]; [reflexivity|].
  unfold insertIfMissing at 2. now rewrite exists_stored, Hg.
Qed.

End ManualEntry.

Section RuleExpansion.
Import AvailabilityRules.

Lemma fold_min_le (l : list Override) : forall init,
  fold_left (fun m o => if ov_startUtc o <? m then ov_startUtc o else m) l init
  <= init.
Proof.
  induction l as [|o l IH]; intros init; simpl; [lia|].
  destruct (ov_startUtc o <? init) eqn:E; [|apply IH].
  apply Z.ltb_lt in E. specialize (IH (ov_startUtc o)). lia.
Qed.

Lemma fold_max_ge (l : list Override) : forall init,
  init <=
  fold_left (fun m o => if ov_endUtc o >? m then ov_endUtc o else m) l init.
Proof.
  induction l as [|o l IH]; intros init; simpl; [lia|].
  destruct (ov_endUtc o >? init) eqn:E; [|apply IH].
  rewrite Z.gtb_ltb in E. apply Z.ltb_lt in E.
  specialize (IH (ov_endUtc o)). lia.
Qed.

Lemma filter_complement {A} (f : A -> bool) l :
  filter f l = [] -> filter (fun x => negb (f x)) l = l.
Proof.
  induction l as [|x l IH]; simpl; [reflexivity|].
  destruct (f x); [discriminate|]. intros H. simpl. now rewrite IH.
Qed.

(** One expanded window becomes one merged "add" range; the atomic
    table is not written. *)
Lemma insertMergedAvailabilityBlock_spec teacherId a b s :
  let s' := insertMergedAvailabilityBlock teacherId a b s in
  teacherAvailability s' = teacherAvailability s
  /\ exists o,
       availabilityOverrides s'
       = filter (fun o => negb (touching teacherId a b o))
                (availabilityOverrides s) ++ [o]
       /\ ov_teacherId o = teacherId /\ ov_kind o = "add"%string
       /\ ov_startUtc o <= a /\ b <= ov_endUtc o.
Proof.
  unfold insertMergedAvailabilityBlock.
  set (existing := filter (touching teacherId a b) (availabilityOverrides s)).
  pose proof (fold_min_le existing a) as Hmin.
  pose proof (fold_max_ge existing b) as Hmax.
  destruct existing eqn:Ee; cbn.
  - split; [reflexivity|]. eexists. split.
    + rewrite filter_complement by exact Ee. reflexivity.
    + cbn. repeat split; lia.
  - split; [reflexivity|]. eexists. split; [reflexivity|].
    cbn. repeat split; cbn in Hmin, Hmax; lia.
Qed.

Lemma rulePOST_availability rq s :
  teacherAvailability (snd (POST rq s)) = teacherAvailability s.
Proof.
  unfold POST. destruct (rq_teacherId rq) as [teacherId|]; [|reflexivity].
  destruct (endMin (rq_body rq) <=? startMin (rq_body rq)); [reflexivity|].
  cbn.
  set (s1 := mkDb _ _ _ _ _ _ _ _ _).
  change (teacherAvailability s) with (teacherAvailability s1).
  generalize s1. induction (rq_days rq) as [|day days IH]; intros s0;
    cbn [fold_left]; [reflexivity|].
  rewrite IH. unfold expandDay.
  destruct (_ =? _); [|reflexivity].
  apply insertMergedAvailabilityBlock_spec.
Qed.

End RuleExpansion.

(** C9, as stated, fails for rule expansion: the expanded range is stored
    as one three-hour row of [availability_overrides], and no 30-minute
    row is written. *)
Lemma rule_expansion_counterexample :
  let s' := snd (AvailabilityRules.POST RuleExample.request RuleExample.empty) in
  teacherAvailability s' = []
  /\ availabilityOverrides s'
     = [mkOverride 1 7 (RuleExample.day + minutes 540)
                   (RuleExample.day + minutes 720) "add"]
  /\ ~ Forall (fun o => ov_endUtc o - ov_startUtc o = minutes GRID_MINUTES)
              (availabilityOverrides s').
Proof.
  split; [reflexivity|]. split; [reflexivity|].
  intros H. inversion H as [|? ? Hlen _]; subst. vm_compute in Hlen. discriminate.
Qed.

(** C9, amended. A time range submitted by direct manual availability
    entry is split into consecutive 30-minute slots that start at the
    input start rounded down to the 30-minute grid of absolute time; the
    POST appends one row for each slot whose (teacherId, startUtc,
    endUtc) is not stored yet, and submitting the same range again
    changes nothing.  Availability-rule expansion writes no row of
    [teacher_availability]: each expanded window replaces the "add"
    ranges it touches by one range of [availability_overrides] that
    covers it. *)
Theorem manual_entry_atomic_idempotent
        (now now' : Z) (s : Db) (teacherId a b : Z) :
  a < b ->
  let rq := Availability.mkRequest (Some teacherId) (Some teacherId)
                                   (IsoAt a) (IsoAt b) in
  exists slots,
    Availability.splitIntoGridSlots (IsoAt a) (IsoAt b) = Some slots
    /\ Z.of_nat (List.length slots)
       = Z.max 0 ((Availability.clearSeconds b - floorToGrid a) / gridMs)
    /\ floorToGrid a mod gridMs = 0
    /\ floorToGrid a <= a < floorToGrid a + gridMs
    /\ (forall k g, nth_error slots k = Some g ->
          Availability.g_startUtc g = floorToGrid a + Z.of_nat k * gridMs
          /\ Availability.g_endUtc g = Availability.g_startUtc g + gridMs)
    /\ (slots <> [] ->
        exists s1 news,
          Availability.POST now rq s
          = Some (Availability.Inserted (Z.of_nat (List.length slots)), s1)
          /\ teacherAvailability s1 = teacherAvailability s ++ news
          /\ map slotOf news
             = filter (fun k => negb (stored s k))
                      (map (tripleOf teacherId) slots)
          /\ Availability.POST now' rq s1
             = Some (Availability.Inserted (Z.of_nat (List.length slots)), s1))
    /\ (forall rule,
          teacherAvailability (snd (AvailabilityRules.POST rule s))
          = teacherAvailability s)
    /\ (forall t a' b',
          exists o,
            availabilityOverrides
              (AvailabilityRules.insertMergedAvailabilityBlock t a' b' s)
            = filter (fun o => negb (AvailabilityRules.touching t a' b' o))
                     (availabilityOverrides s) ++ [o]
            /\ ov_teacherId o = t /\ ov_kind o = "add"%string
            /\ ov_startUtc o <= a' /\ b' <= ov_endUtc o).
Proof.
  intros Hab rq.
  set (n := Z.to_nat ((Availability.clearSeconds b - floorToGrid a) / gridMs)).
  exists (gridSlots (floorToGrid a) n).
  pose proof (splitIntoGridSlots_spec Hab) as Hsplit. fold n in Hsplit.
  destruct (floorToGrid_spec a) as [Hgrid Hfloor].
  split; [exact Hsplit|]. split.
  { unfold gridSlots. rewrite length_map, length_seq. unfold n. lia. }
  split; [exact Hgrid|]. split; [exact Hfloor|]. split.
  { intros k g. apply gridSlots_nth. }
  split; [|split; [intros rule; apply rulePOST_availability
                  |intros t a' b'; apply insertMergedAvailabilityBlock_spec]].
  intros Hne.
  assert (Hpost : forall t s0,
    Availability.POST t rq s0
    = Some (Availability.Inserted (Z.of_nat (List.length (gridSlots (floorToGrid a) n))),
            fold_left (Availability.insertIfMissing t teacherId)
                      (gridSlots (floorToGrid a) n) s0)).
  { intros t s0. unfold Availability.POST, rq. cbn [Availability.rq_userId
      Availability.rq_teacherId Availability.rq_startUtc Availability.rq_endUtc].
    rewrite Z.eqb_refl. cbn [negb]. rewrite Hsplit.
    destruct (gridSlots (floorToGrid a) n); [contradiction | reflexivity]. }
  destruct (@fold_insertIfMissing_spec now teacherId (gridSlots (floorToGrid a) n) s)
    as (news & Ha & Hn); [apply gridSlots_NoDup|].
  eexists; exists news. split; [apply Hpost|]. split; [exact Ha|].
  split; [exact Hn|].
  rewrite Hpost. f_equal. f_equal.
  apply fold_insertIfMissing_fixed. apply Forall_forall. intros g Hg.
  apply stored_In. rewrite Ha, map_app. apply in_or_app.
  destruct (stored s (tripleOf teacherId g)) eqn:E.
  - left. now apply stored_In.
  - right. rewrite Hn. apply filter_In. split; [now apply in_map|].
    now rewrite E.
Qed.

Lemma manual_entry_atomic_idempotent_witness :
  let a := ManualExample.startUtc in
  let b := ManualExample.endUtc in
  let rq := Availability.mkRequest (Some 7) (Some 7) (IsoAt a) (IsoAt b) in
  exists slots,
    Availability.splitIntoGridSlots (IsoAt a) (IsoAt b) = Some slots
    /\ Z.of_nat (List.length slots)
       = Z.max 0 ((Availability.clearSeconds b - floorToGrid a) / gridMs)
    /\ floorToGrid a mod gridMs = 0
    /\ floorToGrid a <= a < floorToGrid a + gridMs
    /\ (forall k g, nth_error slots k = Some g ->
          Availability.g_startUtc g = floorToGrid a + Z.of_nat k * gridMs
          /\ Availability.g_endUtc g = Availability.g_startUtc g + gridMs)
    /\ (slots <> [] ->
        exists s1 news,
          Availability.POST 5 rq ManualExample.store
          = Some (Availability.Inserted (Z.of_nat (List.length slots)), s1)
          /\ teacherAvailability s1
             = teacherAvailability ManualExample.store ++ news
          /\ map slotOf news
             = filter (fun k => negb (stored ManualExample.store k))
                      (map (tripleOf 7) slots)
          /\ Availability.POST 6 rq s1
             = Some (Availability.Inserted (Z.of_nat (List.length slots)), s1))
    /\ (forall rule,
          teacherAvailability (snd (AvailabilityRules.POST rule ManualExample.store))
          = teacherAvailability ManualExample.store)
    /\ (forall t a' b',
          exists o,
            availabilityOverrides
              (AvailabilityRules.insertMergedAvailabilityBlock
                 t a' b' ManualExample.store)
            = filter (fun o => negb (AvailabilityRules.touching t a' b' o))
                     (availabilityOverrides ManualExample.store) ++ [o]
            /\ ov_teacherId o = t /\ ov_kind o = "add"%string
            /\ ov_startUtc o <= a' /\ b' <= ov_endUtc o).
Proof.
  apply (@manual_entry_atomic_idempotent 5 6 ManualExample.store 7).
  reflexivity.
Defined.

(** ** Payment webhook *)

Section WebhookFacts.
Import Webhook.

Lemma updateBookingsById_unknown s id f :
  Forall (fun b => b_id b <> id) (bookings s) ->
  updateBookingsById s id f = s.
Proof.
  intros H. unfold updateBookingsById, setBookings.
  assert (E : map (fun b => if b_id b =? id then f b else b) (bookings s)
              = bookings s).
  { induction H as [|b l Hb _ IH]; simpl; [reflexivity|].
    apply Z.eqb_neq in Hb. now rewrite Hb, IH. }
  rewrite E. now destruct s.
Qed.

Variables (sig secret : string) (now : Z) (s : Db).
Hypothesis sig_present : sig <> EmptyString.
Hypothesis secret_present : secret <> EmptyString.

Let deliver (session : Session) : Request :=
  mkRequest (Some sig) (Some secret)
            (Ok (CheckoutSessionCompleted session)) now.

Lemma deliver_handle session :
  POST (deliver session) s
  = match handle now (CheckoutSessionCompleted session) s with
    | Ok (resp, s') => (resp, s')
    | Throw msg =>
        (Error 500 (if String.eqb msg EmptyString then "Webhook handler failed" else msg), s)
    end.
Proof.
  unfold POST, deliver. cbn [rq_sig rq_secret rq_constructEvent rq_now].
  apply String.eqb_neq in sig_present, secret_present.
  now rewrite sig_present, secret_present.
Qed.

(** A confirmation without a booking reference is acknowledged and
    writes nothing. *)
Lemma webhook_absent_reference id pi :
  POST (deliver (mkSession id Absent pi)) s
  = (OkNote "No bookingId in metadata", s).
Proof. now rewrite deliver_handle. Qed.

(** A confirmation whose reference is an integer that is no booking's
    id is acknowledged and writes nothing. *)
Lemma webhook_unknown_reference id raw z pi :
  raw <> EmptyString ->
  -2147483648 <= z <= 2147483647 ->
  Forall (fun b => b_id b <> z) (bookings s) ->
  POST (deliver (mkSession id (Text raw (Int z)) pi)) s = (Received, s).
Proof.
  intros Hraw Hz Hnone. rewrite deliver_handle. cbn [handle cs_bookingId].
  apply String.eqb_neq in Hraw. rewrite Hraw. unfold pgInteger.
  destruct (-2147483648 <=? z) eqn:E1; [|apply Z.leb_gt in E1; lia].
  destruct (z <=? 2147483647) eqn:E2; [|apply Z.leb_gt in E2; lia].
  cbn. now rewrite updateBookingsById_unknown.
Qed.

(** No request makes the handler write a booking other than through the
    id its reference denotes: a reference that is not an integer writes
    nothing. *)
Lemma webhook_invalid_reference_unchanged id raw n pi :
  (forall z, n <> Int z) ->
  snd (POST (deliver (mkSession id (Text raw n) pi)) s) = s.
Proof.
  intros Hn. rewrite deliver_handle. cbn [handle cs_bookingId].
  destruct (String.eqb raw EmptyString); [reflexivity|].
  destruct n; try reflexivity. now specialize (Hn z).
Qed.

End WebhookFacts.

(** C8, at a reference that is not a booking id: the event is answered
    with a 500 error response (no booking is written), not with a
    success. *)
Theorem webhook_invalid_reference_is_an_error :
  Webhook.POST WebhookExample.request WebhookExample.store
  = (Webhook.Error 500 "invalid input syntax for type integer",
     WebhookExample.store)
  /\ Webhook.statusOf
       (fst (Webhook.POST WebhookExample.request WebhookExample.store)) <> 200.
Proof. split; [reflexivity | discriminate]. Qed.

(** ** Reservations one after the other *)

Section CheckoutSerial.
Import Checkout.

(** A committed reservation leaves the offers alone and deletes the
    rows it matched. *)
Lemma checkoutTx_ok env user teacherId start d s url s' :
  checkoutTx env user teacherId start d s = Ok (url, s') ->
  lessonOffers s' = lessonOffers s
  /\ teacherAvailability s'
     = filter (fun r => negb (includes
                 (map a_id (matchingRows s teacherId (requiredStarts start d)))
                 (a_id r)))
              (teacherAvailability s).
Proof.
  unfold checkoutTx.
  destruct (findOffer s teacherId d) as [offer|]; [|discriminate].
  destruct (negb _); [discriminate|].
  destruct (existsb notAtomic _); [discriminate|].
  cbn [insertBooking].
  destruct (STRIPE_DISABLED env).
  - intros [= _ <-]. split; reflexivity.
  - destruct (stripeCreate env _); cbn [bind]; [|discriminate].
    intros [= _ <-]. split; reflexivity.
Qed.

Lemma NoDup_map_filter {A B} (f : A -> B) (p : A -> bool) l :
  NoDup (map f l) -> NoDup (map f (filter p l)).
Proof.
  induction l as [|x l IH]; cbn [map filter]; [auto|].
  intros H. inversion H as [|? ? Hx Hl]; subst.
  destruct (p x); [|now apply IH]. cbn [map]. constructor; [|now apply IH].
  intros Hin. apply Hx. apply in_map_iff in Hin.
  destruct Hin as (y & Hy & Hin). apply filter_In in Hin.
  apply in_map_iff. exists y. tauto.
Qed.

(** After a reservation that needed the block [c], a request that needs
    [c] too reads fewer rows than it requires. *)
Lemma short_read env user teacherId start1 d1 s url s1 starts2 c :
  uniqueStarts s ->
  checkoutTx env user teacherId start1 d1 s = Ok (url, s1) ->
  In c (requiredStarts start1 d1) -> In c starts2 ->
  (List.length (matchingRows s1 teacherId starts2) < List.length starts2)%nat.
Proof.
  intros Hu Htx Hc1 Hc2. apply checkoutTx_ok in Htx. destruct Htx as [_ Ha].
  set (rows2 := matchingRows s1 teacherId starts2).
  assert (Hnd : NoDup (map a_startUtc rows2)).
  { apply NoDup_map_inv with (f := fun d => (teacherId, d)).
    rewrite map_map.
    assert (E : map (fun r => (teacherId, a_startUtc r)) rows2
                = map (fun r => (a_teacherId r, a_startUtc r)) rows2).
    { apply map_ext_in. intros r Hr. unfold rows2, matchingRows in Hr.
      apply filter_In in Hr. destruct Hr as [_ Hr].
      apply andb_true_iff in Hr. destruct Hr as [Ht _].
      apply Z.eqb_eq in Ht. now rewrite Ht. }
    rewrite E. unfold rows2, matchingRows. rewrite Ha.
    now do 2 apply NoDup_map_filter. }
  assert (Hincl : incl (map a_startUtc rows2) (remove Z.eq_dec c starts2)).
  { intros d Hd. apply in_map_iff in Hd. destruct Hd as (r & <- & Hr).
    unfold rows2, matchingRows in Hr. apply filter_In in Hr.
    destruct Hr as [Hr Hp]. apply andb_true_iff in Hp. destruct Hp as [Ht Hs].
    apply includes_In in Hs. apply in_in_remove; [|exact Hs].
    intros Hcr. rewrite Ha in Hr. apply filter_In in Hr.
    destruct Hr as [Hr Hid]. apply negb_true_iff in Hid.
    assert (Hin : includes
              (map a_id (matchingRows s teacherId (requiredStarts start1 d1)))
              (a_id r) = true).
    { apply includes_In. apply in_map. unfold matchingRows.
      apply filter_In. split; [exact Hr|]. rewrite Ht. cbn [andb].
      apply includes_In. now rewrite Hcr. }
    congruence. }
  pose proof (NoDup_incl_length Hnd Hincl) as Hlen.
  pose proof (remove_length_lt Z.eq_dec starts2 c Hc2) as Hrem.
  rewrite length_map in Hlen. subst rows2. lia.
Qed.

(** X10. Two reservations run one after the other on a store with unique
    starts: when the first succeeds, a second one that needs one of its
    blocks fails, writes nothing and, if the duration is sold, reports
    that the slot is not available. *)
Lemma checkout_serial_exclusive
      env1 env2 rq1 rq2 s url s1 u2 teacherId start1 d1 start2 d2 c :
  uniqueStarts s ->
  rq_teacherId rq1 = Some teacherId -> rq_startUtc rq1 = IsoAt start1 ->
  rq_durationMinutes rq1 = Some d1 ->
  rq_user rq2 = Some u2 -> u_id u2 <> 0 ->
  rq_teacherId rq2 = Some teacherId -> rq_startUtc rq2 = IsoAt start2 ->
  rq_durationMinutes rq2 = Some d2 -> d2 = 30 \/ d2 = 60 ->
  In c (requiredStarts start1 d1) -> In c (requiredStarts start2 d2) ->
  POST env1 rq1 s = (CheckoutUrl url, s1) ->
  exists msg,
    POST env2 rq2 s1 = (Error 400 msg, s1)
    /\ (findOffer s teacherId d2 <> None -> msg = "Slot not available"%string).
Proof.
  intros Hu Ht1 Hs1 Hd1 Hu2 Hnz Ht2 Hs2 Hd2 Hdur Hc1 Hc2 Hpost.
  assert (Htx : exists user, checkoutTx env1 user teacherId start1 d1 s = Ok (url, s1)).
  { unfold POST in Hpost. rewrite Ht1, Hs1, Hd1 in Hpost.
    destruct (rq_user rq1) as [user|]; [|discriminate].
    destruct (u_id user =? 0); [discriminate|].
    destruct (negb (includes [30; 60] d1)); [discriminate|].
    exists user. unfold transaction in Hpost.
    destruct (checkoutTx env1 user teacherId start1 d1 s) as [[u' s']|];
      [|discriminate].
    now injection Hpost as -> ->. }
  destruct Htx as (user & Htx).
  pose proof (@short_read env1 user teacherId start1 d1 s url s1
                          (requiredStarts start2 d2) c Hu Htx Hc1 Hc2) as Hshort.
  destruct (@checkoutTx_ok env1 user teacherId start1 d1 s url s1 Htx)
    as [Hoff _].
  unfold POST. rewrite Hu2, Ht2, Hs2, Hd2.
  apply Z.eqb_neq in Hnz. rewrite Hnz.
  assert (Hinc : includes [30; 60] d2 = true)
    by (destruct Hdur; subst; reflexivity).
  rewrite Hinc. cbn [negb]. unfold transaction, checkoutTx.
  assert (Hfo : findOffer s1 teacherId d2 = findOffer s teacherId d2)
    by (unfold findOffer; now rewrite Hoff).
  rewrite Hfo.
  destruct (findOffer s teacherId d2) as [offer|].
  - destruct (Nat.eqb _ _) eqn:E; [apply Nat.eqb_eq in E; lia|].
    cbn [negb]. eexists. split; [reflexivity | reflexivity].
  - eexists. split; [reflexivity | intros H; now elim H].
Qed.

End CheckoutSerial.

(** * Further properties of the scheduling core *)

Import Js Scheduling IntervalSpec SubtractSpec FreeSlots SlotSpec Schema CancelSpec GridSpec StoreSpec.

(** ** Interval algebra: canonical forms *)

Section CanonicalForm.
Import Scheduling.

Lemma separated_head_least a l t :
  Forall wellFormed (a :: l) -> separated (a :: l) ->
  covered (a :: l) t -> startMs a <= t.
Proof.
  intros Hw Hs (i & [<- | Hi] & Ht); unfold covers in Ht; [lia|].
  inversion Hs as [|? ? _ Ha]; subst. inversion Hw; subst.
  rewrite Forall_forall in Ha. specialize (Ha i Hi).
  unfold before, wellFormed in *. lia.
Qed.

Lemma separated_tail_after a l t :
  separated (a :: l) -> covered l t -> endMs a < t.
Proof.
  intros Hs (i & Hi & Ht). inversion Hs as [|? ? _ Ha]; subst.
  rewrite Forall_forall in Ha. specialize (Ha i Hi).
  unfold before, covers in *. lia.
Qed.

(** Two canonical lists that cover the same instants are the same list. *)
Lemma canonical_unique l1 : forall l2,
  Forall wellFormed l1 -> separated l1 ->
  Forall wellFormed l2 -> separated l2 ->
  (forall t, covered l1 t <-> covered l2 t) ->
  l1 = l2.
Proof.
  induction l1 as [|a l1 IH]; intros [|b l2] Hw1 Hs1 Hw2 Hs2 Hc.
  - reflexivity.
  - exfalso. inversion Hw2 as [|? ? Hb _]; subst. unfold wellFormed in Hb.
    apply (@covered_nil (startMs b)). apply Hc. exists b.
    split; [now left | unfold covers; lia].
  - exfalso. inversion Hw1 as [|? ? Ha _]; subst. unfold wellFormed in Ha.
    apply (@covered_nil (startMs a)). apply Hc. exists a.
    split; [now left | unfold covers; lia].
  - pose proof Hw1 as Hw1'. pose proof Hw2 as Hw2'.
    inversion Hw1 as [|? ? Ha Hw1t]; subst.
    inversion Hw2 as [|? ? Hb Hw2t]; subst.
    unfold wellFormed in Ha, Hb.
    assert (Hca : covered (a :: l1) (startMs a))
      by (exists a; split; [now left | unfold covers; lia]).
    assert (Hcb : covered (b :: l2) (startMs b))
      by (exists b; split; [now left | unfold covers; lia]).
    pose proof (separated_head_least Hw2' Hs2 (proj1 (Hc _) Hca)) as H1.
    pose proof (separated_head_least Hw1' Hs1 (proj2 (Hc _) Hcb)) as H2.
    assert (Hstart : startMs a = startMs b) by lia.
    assert (Hend : endMs a = endMs b).
    { destruct (Z.lt_trichotomy (endMs a) (endMs b)) as [Hlt | [Heq | Hgt]];
        [exfalso | exact Heq | exfalso].
      - assert (Hx : covered (a :: l1) (endMs a)).
        { apply Hc. exists b. split; [now left | unfold covers; lia]. }
        apply covered_cons in Hx. destruct Hx as [Hx | Hx].
        + unfold covers in Hx. lia.
        + pose proof (separated_tail_after Hs1 Hx). lia.
      - assert (Hx : covered (b :: l2) (endMs b)).
        { apply Hc. exists a. split; [now left | unfold covers; lia]. }
        apply covered_cons in Hx. destruct Hx as [Hx | Hx].
        + unfold covers in Hx. lia.
        + pose proof (separated_tail_after Hs2 Hx). lia. }
    assert (Hab : a = b) by (destruct a, b; simpl in *; congruence).
    subst b. f_equal.
    inversion Hs1; subst. inversion Hs2; subst.
    apply IH; auto. intros t. split; intros Ht.
    + assert (Hx : covered (a :: l2) t) by (apply Hc, covered_cons; now right).
      apply covered_cons in Hx. destruct Hx as [Hx | Hx]; [|exact Hx].
      pose proof (separated_tail_after Hs1 Ht). unfold covers in Hx. lia.
    + assert (Hx : covered (a :: l1) t) by (apply Hc, covered_cons; now right).
      apply covered_cons in Hx. destruct Hx as [Hx | Hx]; [|exact Hx].
      pose proof (separated_tail_after Hs2 Ht). unfold covers in Hx. lia.
Qed.

End CanonicalForm.

(** X1. [mergeIntervals] depends only on the set of instants its input
    covers: two lists with the same union, whatever their order,
    duplicates or invalid entries, are merged into the same list. *)
Theorem mergeIntervals_extensional (l1 l2 : list Scheduling.Interval) :
  (forall t, covered l1 t <-> covered l2 t) ->
  Scheduling.mergeIntervals l1 = Scheduling.mergeIntervals l2.
Proof.
  intros Hc.
  destruct (mergeIntervals_spec l1) as (m1 & E1 & Hw1 & Hs1 & Hc1).
  destruct (mergeIntervals_spec l2) as (m2 & E2 & Hw2 & Hs2 & Hc2).
  rewrite E1, E2. f_equal. apply canonical_unique; auto.
  intros t. rewrite Hc1, Hc2. apply Hc.
Qed.

Lemma mergeIntervals_extensional_witness :
  Scheduling.mergeIntervals
    [Scheduling.mkInterval 30 45; Scheduling.mkInterval 0 30;
     Scheduling.mkInterval 7 7]
  = Scheduling.mergeIntervals [Scheduling.mkInterval 0 45].
Proof.
  apply mergeIntervals_extensional. intros t. unfold covered, covers. split.
  - intros (i & Hi & Ht). exists (Scheduling.mkInterval 0 45).
    split; [now left|]. simpl in Hi.
    destruct Hi as [<- | [<- | [<- | []]]]; simpl in *; lia.
  - intros (i & [<- | []] & Ht). simpl in Ht.
    destruct (Z.lt_ge_cases t 30);
      [exists (Scheduling.mkInterval 0 30) | exists (Scheduling.mkInterval 30 45)];
      simpl; split; auto; lia.
Defined.

Section RouteLocalMerge.
Import Scheduling.

Lemma routeMerge_unfold rows :
  FreeSlots.mergeIntervals rows
  = match sort cmpStart rows with
    | [] => []
    | first :: items => mergeRowsLoop [first] items
    end.
Proof. destruct rows; reflexivity. Qed.

(** The route-local merge of valid intervals is canonical and covers
    what its input covers. *)
Lemma routeMerge_spec rows :
  Forall wellFormed rows ->
  Forall wellFormed (FreeSlots.mergeIntervals rows)
  /\ separated (FreeSlots.mergeIntervals rows)
  /\ (forall t, covered (FreeSlots.mergeIntervals rows) t <-> covered rows t).
Proof.
  intros Hw. rewrite routeMerge_unfold.
  destruct (mergeSorted_spec Hw) as (m & -> & H). exact H.
Qed.

Lemma filter_isValid_wellFormed l : Forall wellFormed (filter isValid l).
Proof.
  apply Forall_forall. intros i Hi. apply filter_In in Hi.
  now apply wellFormed_isValid.
Qed.

Lemma covered_filter_isValid l t :
  covered (filter isValid l) t <-> covered l t.
Proof.
  split; intros (i & Hi & Ht); exists i; split; auto.
  - apply filter_In in Hi. tauto.
  - apply filter_In. split; [exact Hi|]. apply wellFormed_isValid.
    unfold covers, wellFormed in *. lia.
Qed.

End RouteLocalMerge.

(** X2. The [mergeIntervals] of lib/scheduling and the route-local
    [mergeIntervals] of the free-slots and availability routes, which sort
    by different keys and grow the result differently, return the same
    list once the route has filtered out the invalid rows, as its GET
    handler does. *)
Theorem merge_implementations_agree (l : list Scheduling.Interval) :
  Scheduling.mergeIntervals l
  = Ok (FreeSlots.mergeIntervals (filter Scheduling.isValid l)).
Proof.
  destruct (mergeIntervals_spec l) as (m & E & Hw & Hs & Hc).
  destruct (routeMerge_spec (filter_isValid_wellFormed l)) as (Hw' & Hs' & Hc').
  rewrite E. f_equal. apply canonical_unique; auto.
  intros t. rewrite Hc, Hc'. symmetry. apply covered_filter_isValid.
Qed.

(** ** Interval algebra: subtract, the other direction *)

Section SubtractComplete.
Import Scheduling.

Lemma StronglySorted_weaken {A} (R Q : A -> A -> Prop) l :
  (forall a b, R a b -> Q a b) -> StronglySorted R l -> StronglySorted Q l.
Proof.
  intros HRQ. induction 1 as [|a l Hs IH Ha]; constructor; [exact IH|].
  eapply Forall_impl; [|exact Ha]. intros b. apply HRQ.
Qed.

(** Whatever of [[curStart, curEnd)] no cut of [bk] covers is in a piece
    or at or after the final [curStart]. *)
Lemma cutSegment_complete curEnd bk : forall curStart pieces final t,
  cutSegment curStart curEnd bk = (pieces, final) ->
  curStart <= t < curEnd -> ~ covered bk t ->
  covered pieces t \/ final <= t < curEnd.
Proof.
  induction bk as [|c bk IH]; intros cs pieces final t Hcut Ht Hn;
    cbn [cutSegment] in Hcut.
  - injection Hcut as <- <-. right. lia.
  - assert (Hnc : ~ covers c t) by (intros H; apply Hn, covered_cons; now left).
    assert (Hnb : ~ covered bk t) by (intros H; apply Hn, covered_cons; now right).
    unfold covers in Hnc.
    destruct (startMs c <? curEnd) eqn:E1.
    + apply Z.ltb_lt in E1.
      destruct (Z.lt_ge_cases t (startMs c)) as [Hlt | Hge].
      * assert (Hleft : covered
                  (if startMs c >? cs
                   then [mkInterval cs (Z.min (startMs c) curEnd)] else []) t).
        { destruct (startMs c >? cs) eqn:E2.
          - eexists. split; [now left | unfold covers; simpl; lia].
          - rewrite Z.gtb_ltb in E2. apply Z.ltb_ge in E2. lia. }
        destruct (Z.max cs (endMs c) >=? curEnd).
        -- injection Hcut as <- <-. now left.
        -- destruct (cutSegment (Z.max cs (endMs c)) curEnd bk) as [more fin].
           injection Hcut as <- <-. left. apply covered_app. now left.
      * assert (Hge' : Z.max cs (endMs c) <= t) by lia.
        destruct (Z.max cs (endMs c) >=? curEnd) eqn:E3.
        -- rewrite Z.geb_leb in E3. apply Z.leb_le in E3. lia.
        -- destruct (cutSegment (Z.max cs (endMs c)) curEnd bk) as [more fin] eqn:Er.
           injection Hcut as <- <-.
           destruct (@IH _ _ _ t Er ltac:(lia) Hnb) as [H | H];
             [left; apply covered_app; now right | now right].
    + injection Hcut as <- <-. right. lia.
Qed.

Lemma subtractLoop_complete a : forall bj t,
  covered a t -> ~ covered bj t -> covered (subtractLoop a bj) t.
Proof.
  induction a as [|seg a IH]; intros bj t Ha Hn; [now apply covered_nil in Ha|].
  cbn [subtractLoop].
  destruct (skipCuts_spec (startMs seg) bj) as (sk & Hsk & _).
  assert (Hn' : ~ covered (skipCuts (startMs seg) bj) t).
  { intros H. apply Hn. rewrite Hsk. apply covered_app. now right. }
  destruct (cutSegment (startMs seg) (endMs seg) (skipCuts (startMs seg) bj))
    as [pieces final] eqn:Ecut.
  apply covered_cons in Ha. destruct Ha as [Ha | Ha].
  - destruct (@cutSegment_complete _ _ _ _ _ t Ecut Ha Hn') as [H | H].
    + apply covered_app. now left.
    + apply covered_app. right. apply covered_app. left.
      destruct (final <? endMs seg) eqn:E; [|apply Z.ltb_ge in E; lia].
      eexists. split; [now left | unfold covers; simpl; lia].
  - apply covered_app. right. apply covered_app. right. now apply IH.
Qed.

(** What [subtractIntervals] returns, with the facts the loop gives. *)
Lemma subtractIntervals_spec base cut :
  exists r, subtractIntervals base cut = Ok r
    /\ Forall wellFormed r
    /\ StronglySorted endLe r
    /\ (forall t, covered r t <-> covered base t /\ ~ covered cut t).
Proof.
  unfold subtractIntervals.
  destruct (mergeIntervals_spec base) as (a & Ha & Hwa & Hsa & Hca).
  destruct (mergeIntervals_spec cut) as (b & Hb & Hwb & Hsb & Hcb).
  rewrite Ha, Hb. cbn [bind].
  assert (Hloop : Forall wellFormed (subtractLoop a b)
                  /\ StronglySorted endLe (subtractLoop a b)
                  /\ (forall t, covered (subtractLoop a b) t
                                <-> covered base t /\ ~ covered cut t)).
  { destruct (@subtractLoop_spec a b Hwa Hsa Hwb Hsb) as (Hs & Hbnd & Hc).
    split; [|split; [exact Hs|]].
    - eapply Forall_impl; [|exact Hbnd]. intros p (seg & _ & _ & Hp & _).
      unfold wellFormed. lia.
    - intros t. split.
      + intros Ht. split.
        * apply Hca. eapply subtractLoop_covered; eauto.
        * intros Hcut. apply (Hc t Ht). now apply Hcb.
      + intros [Hbase Hcut]. apply subtractLoop_complete.
        * now apply Hca.
        * intros H. apply Hcut. now apply Hcb. }
  destruct a as [|a0 a'].
  - exists []. split; [reflexivity|]. split; [constructor|]. split; [constructor|].
    intros t. split.
    + intros H. now apply covered_nil in H.
    + intros [H _]. apply Hca in H. exact H.
  - destruct b as [|b0 b'].
    + exists (a0 :: a'). split; [reflexivity|]. split; [exact Hwa|]. split.
      * eapply StronglySorted_weaken; [|exact Hsa].
        intros x y. unfold before, endLe. lia.
      * intros t. rewrite Hca. split; [|tauto].
        intros H. split; [exact H|]. intros Hc. apply Hcb in Hc.
        now apply covered_nil in Hc.
    + exists (subtractLoop (a0 :: a') (b0 :: b')). split; [reflexivity | exact Hloop].
Qed.

End SubtractComplete.

(** X3. [subtractIntervals] computes exactly the set difference: an
    instant is covered by the result if and only if it is covered by
    [base] and by no interval of [cut]; the pieces are non-empty and come
    in increasing order.  No condition on the input lists: empty and
    inverted intervals are dropped by the merge of either side. *)
Theorem subtractIntervals_exact (base cut : list Scheduling.Interval) :
  exists r, Scheduling.subtractIntervals base cut = Ok r
    /\ (forall t, covered r t <-> covered base t /\ ~ covered cut t)
    /\ Forall wellFormed r
    /\ StronglySorted endLe r.
Proof.
  destruct (subtractIntervals_spec base cut) as (r & Hr & Hw & Hs & Hc).
  exists r. split; [exact Hr|]. split; [exact Hc|]. split; assumption.
Qed.

(** X4. When every instant of [base] is covered by [cut], in particular
    when a list is subtracted from itself, [subtractIntervals] returns
    the empty list. *)
Theorem subtractIntervals_covered_base (base cut : list Scheduling.Interval) :
  (forall t, covered base t -> covered cut t) ->
  Scheduling.subtractIntervals base cut = Ok []
  /\ Scheduling.subtractIntervals cut cut = Ok [].
Proof.
  assert (Hempty : forall b c, (forall t, covered b t -> covered c t) ->
            Scheduling.subtractIntervals b c = Ok []).
  { intros b c Hsub.
    destruct (subtractIntervals_spec b c) as (r & Hr & Hw & _ & Hc).
    rewrite Hr. f_equal. destruct r as [|p r]; [reflexivity|]. exfalso.
    apply Forall_inv in Hw. unfold wellFormed in Hw.
    assert (Hp : covered (p :: r) (Scheduling.startMs p)).
    { exists p. split; [now left | unfold covers; lia]. }
    apply Hc in Hp. destruct Hp as [Hb Hn]. apply Hn, Hsub, Hb. }
  intros Hsub. split; [now apply Hempty | apply Hempty; tauto].
Qed.

Lemma subtractIntervals_covered_base_witness :
  Scheduling.subtractIntervals
    [Scheduling.mkInterval 10 20; Scheduling.mkInterval 30 40]
    [Scheduling.mkInterval 0 25; Scheduling.mkInterval 25 50] = Ok []
  /\ Scheduling.subtractIntervals
       [Scheduling.mkInterval 0 25; Scheduling.mkInterval 25 50]
       [Scheduling.mkInterval 0 25; Scheduling.mkInterval 25 50] = Ok [].
Proof.
  apply subtractIntervals_covered_base.
  intros t (x & Hx & Ht). unfold covers in Ht.
  destruct Hx as [<- | [<- | []]]; simpl in Ht.
  - exists (Scheduling.mkInterval 0 25). split; [now left | unfold covers; simpl; lia].
  - exists (Scheduling.mkInterval 25 50).
    split; [right; now left | unfold covers; simpl; lia].
Defined.

(** ** Free slots: every admissible slot is listed *)

Section GenerateSlotsComplete.

Variable durSet : list Z.

Lemma emit_out_mono t e acc d s :
  In s (out acc) -> In s (out (emit t e acc d)).
Proof.
  intros H. unfold emit. destruct (t + d * 60000 <=? e); [|exact H].
  destruct (has (seen acc) _); [exact H|]. simpl. apply in_or_app. now left.
Qed.

Lemma emit_seen t e acc d :
  seen acc = map key (out acc) ->
  seen (emit t e acc d) = map key (out (emit t e acc d)).
Proof.
  intros H. unfold emit. destruct (t + d * 60000 <=? e); [|exact H].
  destruct (has (seen acc) _); [exact H|]. simpl.
  rewrite map_app, H. reflexivity.
Qed.

Lemma emit_adds t e acc d :
  seen acc = map key (out acc) ->
  t + d * 60000 <= e ->
  In (mkSlot t (t + d * 60000) d) (out (emit t e acc d)).
Proof.
  intros Hseen Hle. unfold emit.
  destruct (t + d * 60000 <=? e) eqn:E; [|apply Z.leb_gt in E; lia].
  destruct (has (seen acc) (key (mkSlot t (t + d * 60000) d))) eqn:Hhas.
  - apply has_In in Hhas. rewrite Hseen in Hhas. apply in_map_iff in Hhas.
    destruct Hhas as (s & Hk & Hs). apply key_inj in Hk. now subst.
  - simpl. apply in_or_app. right. now left.
Qed.

Lemma emitAll_complete t e : forall ds acc,
  seen acc = map key (out acc) ->
  let acc' := fold_left (emit t e) ds acc in
  seen acc' = map key (out acc')
  /\ (forall s, In s (out acc) -> In s (out acc'))
  /\ (forall d, In d ds -> t + d * 60000 <= e ->
        In (mkSlot t (t + d * 60000) d) (out acc')).
Proof.
  induction ds as [|d0 ds IH]; intros acc Hseen; cbn [fold_left].
  - split; [exact Hseen|]. split; [auto|]. intros d [].
  - destruct (IH (emit t e acc d0) (@emit_seen t e acc d0 Hseen)) as (H1 & H2 & H3).
    split; [exact H1|]. split.
    + intros s Hs. apply H2. now apply emit_out_mono.
    + intros d [<- | Hd] Hle; [|now apply H3].
      apply H2. now apply emit_adds.
Qed.

Lemma walk_complete e fuel : forall t acc acc',
  seen acc = map key (out acc) ->
  walk fuel durSet e t acc = Some acc' ->
  seen acc' = map key (out acc')
  /\ (forall s, In s (out acc) -> In s (out acc'))
  /\ (forall k d, 0 <= k -> In d durSet -> 0 < d ->
        t + k * stepMs + d * 60000 <= e ->
        In (mkSlot (t + k * stepMs) (t + k * stepMs + d * 60000) d) (out acc')).
Proof.
  pose proof stepMs_pos as Hpos.
  induction fuel as [|fuel IH]; intros t acc acc' Hseen Hw;
    cbn [walk] in Hw; destruct (t <? e) eqn:E; try discriminate.
  - injection Hw as <-. apply Z.ltb_ge in E.
    split; [exact Hseen|]. split; [auto|]. intros k d Hk _ Hd Hle. nia.
  - apply Z.ltb_lt in E.
    destruct (@emitAll_complete t e durSet acc Hseen) as (F1 & F2 & F3).
    destruct (@IH _ _ _ F1 Hw) as (H1 & H2 & H3).
    split; [exact H1|]. split; [intros s Hs; apply H2, F2, Hs|].
    intros k d Hk Hd Hdpos Hle.
    destruct (Z.eq_dec k 0) as [-> | Hk0].
    + rewrite Z.mul_0_l, Z.add_0_r in *. apply H2. now apply F3.
    + replace (t + k * stepMs) with (t + stepMs + (k - 1) * stepMs) in * by lia.
      apply H3; [lia | exact Hd | exact Hdpos | exact Hle].
  - injection Hw as <-. apply Z.ltb_ge in E.
    split; [exact Hseen|]. split; [auto|]. intros k d Hk _ Hd Hle. nia.
Qed.

Variables fromMs toMs : Z.

Lemma visit_complete it acc acc' :
  seen acc = map key (out acc) ->
  visit fromMs toMs durSet acc it = Some acc' ->
  seen acc' = map key (out acc')
  /\ (forall s, In s (out acc) -> In s (out acc'))
  /\ (forall t d, 0 <= Z.max (startMs it) fromMs <= t ->
        t mod stepMs = 0 -> In d durSet -> 0 < d ->
        t + d * 60000 <= Z.min (endMs it) toMs ->
        In (mkSlot t (t + d * 60000) d) (out acc')).
Proof.
  pose proof stepMs_pos as Hpos.
  intros Hseen Hv. unfold visit in Hv.
  destruct (Z.min (endMs it) toMs <=? Z.max (startMs it) fromMs) eqn:E.
  - injection Hv as <-. apply Z.leb_le in E.
    split; [exact Hseen|]. split; [auto|]. intros t d Ht _ _ Hd Hle. lia.
  - cbv zeta in Hv.
    set (start := Z.max (startMs it) fromMs) in *.
    set (t0 := if Z.rem start stepMs =? 0 then start
               else start + (stepMs - Z.rem start stepMs)) in *.
    destruct (@walk_complete _ _ _ _ _ Hseen Hv) as (H1 & H2 & H3).
    split; [exact H1|]. split; [exact H2|].
    intros t d [Hs0 Hst] Hg Hd Hdpos Hle.
    assert (Ht0 : t0 mod stepMs = 0 /\ start <= t0 < start + stepMs).
    { subst t0. rewrite Z.rem_mod_nonneg by lia.
      pose proof (Z.mod_pos_bound start stepMs Hpos) as Hb.
      pose proof (Z.div_mod start stepMs ltac:(lia)) as Hdm.
      destruct (start mod stepMs =? 0) eqn:E0.
      - apply Z.eqb_eq in E0. split; [exact E0 | lia].
      - apply Z.eqb_neq in E0. split; [|lia].
        replace (start + (stepMs - start mod stepMs))
          with ((start / stepMs + 1) * stepMs) by lia.
        apply Z_mod_mult. }
    destruct Ht0 as [Hg0 Hb0].
    pose proof (Z.div_mod t stepMs ltac:(lia)) as Hdt.
    pose proof (Z.div_mod t0 stepMs ltac:(lia)) as Hdt0.
    rewrite Hg, Z.add_0_r in Hdt. rewrite Hg0, Z.add_0_r in Hdt0.
    assert (Hk : 0 <= t / stepMs - t0 / stepMs) by nia.
    replace t with (t0 + (t / stepMs - t0 / stepMs) * stepMs) by lia.
    apply H3; [exact Hk | exact Hd | exact Hdpos | lia].
Qed.

Lemma visitAll_complete its : forall acc acc',
  seen acc = map key (out acc) ->
  visitAll fromMs toMs durSet acc its = Some acc' ->
  seen acc' = map key (out acc')
  /\ (forall s, In s (out acc) -> In s (out acc'))
  /\ (forall it t d, In it its ->
        0 <= Z.max (startMs it) fromMs <= t ->
        t mod stepMs = 0 -> In d durSet -> 0 < d ->
        t + d * 60000 <= Z.min (endMs it) toMs ->
        In (mkSlot t (t + d * 60000) d) (out acc')).
Proof.
  induction its as [|it0 its IH]; intros acc acc' Hseen Hv; cbn [visitAll] in Hv.
  - injection Hv as <-. split; [exact Hseen|]. split; [auto|].
    intros it t d [].
  - destruct (visit fromMs toMs durSet acc it0) as [acc1|] eqn:E1; [|discriminate].
    destruct (@visit_complete _ _ _ Hseen E1) as (V1 & V2 & V3).
    destruct (@IH _ _ V1 Hv) as (H1 & H2 & H3).
    split; [exact H1|]. split; [intros s Hs; apply H2, V2, Hs|].
    intros it t d [<- | Hit] Ht Hg Hd Hdpos Hle.
    + apply H2. now apply V3.
    + now apply (H3 it).
Qed.

End GenerateSlotsComplete.

(** X5. For a query window that starts at or after the epoch,
    [generateSlots] lists exactly the admissible slots: a slot is returned
    if and only if it starts on the 15-minute grid, has an active
    supported duration that fixes its end, and lies inside one interval
    clipped to the window.  (Before the epoch the remainder of the start
    is negative and the first grid point of an interval is skipped.) *)
Theorem generateSlots_exact (intervals : list Scheduling.Interval)
        (fromMs toMs : Z) (durations : list Z) :
  0 <= fromMs ->
  exists slots,
    generateSlots intervals fromMs toMs durations = Some slots
    /\ forall s, In s slots <-> slotOk intervals fromMs toMs durations s.
Proof.
  intros Hfrom. unfold generateSlots.
  destruct (@visitAll_spec intervals fromMs toMs durations intervals (mkAcc [] []))
    as (acc & Hv & _ & _ & Hall).
  { auto. }
  { repeat split; simpl; constructor. }
  rewrite Hv. eexists. split; [reflexivity|]. intros s.
  pose proof (sort_perm cmpSlot (out acc)) as Hperm.
  split.
  - intros Hs. rewrite Forall_forall in Hall. apply Hall.
    eapply Permutation_in; [exact Hperm | exact Hs].
  - intros (Hg & (Hd1 & Hd2 & He) & (it & Hit & Hlo & Hhi)).
    eapply Permutation_in; [symmetry; exact Hperm|].
    destruct (@visitAll_complete _ fromMs toMs intervals (mkAcc [] []) acc
                eq_refl Hv) as (_ & _ & H3).
    destruct s as [t e d]. simpl in *. subst e.
    apply (H3 it); auto.
    + lia.
    + apply filter_In. split; [exact Hd1 | now apply includes_In].
    + destruct Hd2 as [<- | [<- | [<- | []]]]; lia.
Qed.

Lemma generateSlots_exact_witness :
  exists slots,
    generateSlots [Scheduling.mkInterval 14400000 18000000] 0 86400000 [30; 60]
    = Some slots
    /\ forall s, In s slots
         <-> slotOk [Scheduling.mkInterval 14400000 18000000] 0 86400000 [30; 60] s.
Proof.
  apply generateSlots_exact. lia.
Defined.

(** A window that starts one millisecond before the epoch: the grid
    point 0 is inside the interval and is skipped. *)
Example generateSlots_before_epoch :
  generateSlots [Scheduling.mkInterval (-1) 2700000] (-1) 2700000 [30]
  = Some [mkSlot 900000 2700000 30].
Proof. vm_compute. reflexivity. Qed.

(** ** Free-slot query: what is offered is available *)

Section FreeSlotSound.

Lemma overlapRows_covered s teacherId fromMs toMs u :
  covered (overlapRows s teacherId fromMs toMs) u ->
  exists r, In r (teacherAvailability s)
    /\ a_teacherId r = teacherId
    /\ a_startUtc r <= u < a_endUtc r.
Proof.
  intros (x & Hx & Hu). unfold overlapRows in Hx.
  apply in_map_iff in Hx. destruct Hx as (r & <- & Hr).
  apply filter_In in Hr. destruct Hr as [Hin Hf].
  rewrite !andb_true_iff in Hf. destruct Hf as [[Ht _] _].
  apply Z.eqb_eq in Ht. exists r. unfold covers in Hu. simpl in Hu. auto.
Qed.

Lemma slotOk_inside intervals fromMs toMs durations sl :
  slotOk intervals fromMs toMs durations sl ->
  fromMs <= slotStartUtc sl /\ slotEndUtc sl <= toMs
  /\ slotStartUtc sl < slotEndUtc sl
  /\ In (durationMinutes sl) durations
  /\ forall u, slotStartUtc sl <= u < slotEndUtc sl -> covered intervals u.
Proof.
  intros (_ & (Hd1 & Hd2 & He) & (it & Hit & Hlo & Hhi)).
  assert (0 < durationMinutes sl)
    by (destruct Hd2 as [<- | [<- | [<- | []]]]; lia).
  repeat split; try lia; [exact Hd1|].
  intros u Hu. exists it. split; [exact Hit | unfold covers; lia].
Qed.

(** One slot of an answer: its window, its duration and the rows under
    it. *)
Lemma GET_slot_sound s rq teacherId fromMs toMs durs n slots sl :
  GET s rq = Some (Slots teacherId fromMs toMs durs n slots) ->
  In sl slots ->
  (fromMs <= slotStartUtc sl /\ slotEndUtc sl <= toMs)
  /\ (In (durationMinutes sl) [30; 45; 60]
      /\ slotEndUtc sl = slotStartUtc sl + durationMinutes sl * 60000)
  /\ (activeDurations s teacherId <> [] ->
      In (durationMinutes sl) (activeDurations s teacherId))
  /\ forall u, slotStartUtc sl <= u < slotEndUtc sl ->
       exists r, In r (teacherAvailability s)
         /\ a_teacherId r = teacherId
         /\ a_startUtc r <= u < a_endUtc r.
Proof.
  unfold GET. destruct (FreeSlots.rq_teacherId rq) as [tid|]; [|discriminate].
  destruct (rq_from rq) as [f|], (rq_to rq) as [t|]; try discriminate.
  destruct (t <=? f); [discriminate|].
  set (rows := filter Scheduling.isValid (overlapRows s tid f t)).
  set (durations := match activeDurations s tid with
                    | [] => [30; 45; 60] | _ => activeDurations s tid end).
  destruct (@visitAll_spec (FreeSlots.mergeIntervals rows) f t durations
              (FreeSlots.mergeIntervals rows) (mkAcc [] []))
    as (acc & Hv & _ & _ & Hall).
  { auto. }
  { repeat split; simpl; constructor. }
  unfold generateSlots. fold durations in Hv |- *. rewrite Hv.
  intros [= <- <- <- <- <- <-] Hin.
  apply sort_in in Hin. rewrite Forall_forall in Hall.
  specialize (Hall sl Hin). pose proof Hall as (_ & (_ & Hsup & Hend) & _).
  apply slotOk_inside in Hall. destruct Hall as (H1 & H2 & H3 & H4 & H5).
  split; [split; assumption|]. split; [split; assumption|]. split.
  - intros Hne. subst durations.
    destruct (activeDurations s tid); [congruence | exact H4].
  - intros u Hu. specialize (H5 u Hu).
    destruct (@routeMerge_spec rows (filter_isValid_wellFormed _))
      as (_ & _ & Hc).
    apply Hc in H5. subst rows.
    apply (proj1 (covered_filter_isValid _ _)) in H5.
    now apply overlapRows_covered in H5.
Qed.

End FreeSlotSound.

(** X6. Every slot the free-slot query returns lies inside the queried
    range, is non-empty, has the duration of one of the teacher's active
    offers whenever the teacher has any, and every instant of it is inside
    an availability row of that teacher: the query never offers time the
    teacher has not published. *)
Theorem freeSlots_within_availability (s : Db) (rq : FreeSlots.Request)
        (teacherId fromMs toMs : Z) (durs : list Z) (n : Z)
        (slots : list Slot) :
  GET s rq = Some (Slots teacherId fromMs toMs durs n slots) ->
  Forall (fun sl =>
            fromMs <= slotStartUtc sl /\ slotEndUtc sl <= toMs
            /\ slotStartUtc sl < slotEndUtc sl
            /\ (activeDurations s teacherId <> [] ->
                In (durationMinutes sl) (activeDurations s teacherId))
            /\ forall u, slotStartUtc sl <= u < slotEndUtc sl ->
                 exists r, In r (teacherAvailability s)
                   /\ a_teacherId r = teacherId
                   /\ a_startUtc r <= u < a_endUtc r) slots.
Proof.
  intros Hget. apply Forall_forall. intros sl Hin.
  destruct (@GET_slot_sound s rq teacherId fromMs toMs durs n slots sl Hget Hin)
    as ((Hlo & Hhi) & (Hsup & Hend) & Hdur & Hrows).
  assert (0 < durationMinutes sl)
    by (destruct Hsup as [<- | [<- | [<- | []]]]; lia).
  split; [exact Hlo|]. split; [exact Hhi|]. split; [lia|].
  split; [exact Hdur | exact Hrows].
Qed.

Lemma freeSlots_within_availability_witness :
  exists slots,
    slots <> []
    /\ Forall (fun sl =>
            FreeSlotExample.day <= slotStartUtc sl
            /\ slotEndUtc sl <= FreeSlotExample.day + 86400000
            /\ slotStartUtc sl < slotEndUtc sl
            /\ (activeDurations FreeSlotExample.store 7 <> [] ->
                In (durationMinutes sl) (activeDurations FreeSlotExample.store 7))
            /\ forall u, slotStartUtc sl <= u < slotEndUtc sl ->
                 exists r, In r (teacherAvailability FreeSlotExample.store)
                   /\ a_teacherId r = 7
                   /\ a_startUtc r <= u < a_endUtc r) slots.
Proof.
  eexists. split; [|eapply (@freeSlots_within_availability
                      FreeSlotExample.store FreeSlotExample.query);
                    vm_compute; reflexivity].
  discriminate.
Defined.

(** ** Checkout: what a reservation writes *)

Section CheckoutEffects.
Import Checkout.

(** The transaction of a reservation, read backwards from its success:
    the offer that priced it, the rows it matched, and the store it
    leaves, on a store whose booking ids are all below the serial. *)
Lemma checkoutTx_inv env user teacherId start d s url s' :
  Forall (fun b => b_id b < bookingsSeq s) (bookings s) ->
  checkoutTx env user teacherId start d s = Ok (url, s') ->
  let rows := matchingRows s teacherId (requiredStarts start d) in
  exists offer session,
    findOffer s teacherId d = Some offer
    /\ List.length rows = List.length (requiredStarts start d)
    /\ Forall (fun r => a_endUtc r - a_startUtc r = minutes GRID_MINUTES) rows
    /\ (STRIPE_DISABLED env = true -> session = None)
    /\ bookings s'
       = bookings s
         ++ [mkBooking (bookingsSeq s) teacherId (u_id user) start
                       (start + minutes d) d (o_priceCents offer)
                       (o_currency offer)
                       (if STRIPE_DISABLED env then Paid else Pending)
                       session None (now env)]
    /\ teacherAvailability s'
       = filter (fun r => negb (includes (map a_id rows) (a_id r)))
                (teacherAvailability s)
    /\ lessonOffers s' = lessonOffers s
    /\ availabilityOverrides s' = availabilityOverrides s
    /\ availabilityRules s' = availabilityRules s.
Proof.
  intros Hfresh Htx rows. unfold checkoutTx in Htx. fold rows in Htx.
  destruct (findOffer s teacherId d) as [offer|]; [|discriminate].
  destruct (Nat.eqb (List.length rows) (List.length (requiredStarts start d)))
    eqn:Elen; cbn [negb] in Htx; [|discriminate].
  apply Nat.eqb_eq in Elen.
  destruct (existsb notAtomic rows) eqn:Eat; [discriminate|].
  assert (Hat : Forall (fun r => a_endUtc r - a_startUtc r = minutes GRID_MINUTES)
                       rows).
  { apply Forall_forall. intros r Hr.
    destruct (Z.eq_dec (a_endUtc r - a_startUtc r) (minutes GRID_MINUTES))
      as [E | E]; [exact E|].
    assert (existsb notAtomic rows = true); [|congruence].
    apply existsb_exists. exists r. split; [exact Hr|].
    unfold notAtomic. apply negb_true_iff. now apply Z.eqb_neq. }
  assert (Hold : forall f,
            map (fun b => if b_id b =? bookingsSeq s then f b else b) (bookings s)
            = bookings s).
  { intros f. rewrite <- (map_id (bookings s)) at 2. apply map_ext_in.
    intros b Hb. rewrite Forall_forall in Hfresh. specialize (Hfresh b Hb).
    destruct (b_id b =? bookingsSeq s) eqn:E; [apply Z.eqb_eq in E; lia|].
    reflexivity. }
  cbn [insertBooking] in Htx.
  destruct (STRIPE_DISABLED env).
  - injection Htx as _ <-. exists offer, None.
    cbn [updateBookingsById setBookings deleteAvailabilityByIds setAvailability
         bookings teacherAvailability lessonOffers availabilityOverrides
         availabilityRules b_id].
    rewrite map_app, Hold. cbn [map b_id]. rewrite Z.eqb_refl.
    repeat split; auto.
  - destruct (stripeCreate env _) as [checkout|]; cbn [bind] in Htx;
      [|discriminate].
    injection Htx as _ <-. exists offer, (Some (cs_id checkout)).
    cbn [updateBookingsById setBookings deleteAvailabilityByIds setAvailability
         bookings teacherAvailability lessonOffers availabilityOverrides
         availabilityRules b_id].
    rewrite map_app, Hold. cbn [map b_id]. rewrite Z.eqb_refl.
    repeat split; auto. discriminate.
Qed.

(** A successful answer comes from a committed transaction. *)
Lemma POST_success_inv env rq s url s' :
  POST env rq s = (CheckoutUrl url, s') ->
  exists user teacherId start d,
    rq_user rq = Some user /\ u_id user <> 0
    /\ rq_teacherId rq = Some teacherId
    /\ rq_startUtc rq = IsoAt start
    /\ rq_durationMinutes rq = Some d
    /\ (d = 30 \/ d = 60)
    /\ checkoutTx env user teacherId start d s = Ok (url, s').
Proof.
  unfold POST. destruct (rq_user rq) as [user|]; [|discriminate].
  destruct (u_id user =? 0) eqn:Eu; [discriminate|]. apply Z.eqb_neq in Eu.
  destruct (rq_teacherId rq) as [teacherId|]; [|discriminate].
  destruct (rq_startUtc rq) as [| |start];
    destruct (rq_durationMinutes rq) as [d|]; try discriminate.
  - destruct (negb (includes [30; 60] d)); discriminate.
  - destruct (includes [30; 60] d) eqn:Ed; cbn [negb]; [|discriminate].
    unfold transaction.
    destruct (checkoutTx env user teacherId start d s) as [[u' s1]|] eqn:Etx;
      [|discriminate].
    intros [= -> ->]. exists user, teacherId, start, d.
    apply includes_In in Ed.
    repeat split; auto. destruct Ed as [<- | [<- | []]]; auto.
Qed.


End CheckoutEffects.

Section PrimaryKey.

(** With [id] a primary key, selecting rows and then deleting by the
    selected ids deletes the selected rows and no other. *)
Lemma ids_of_selected (p : Availability -> bool) l r :
  NoDup (map a_id l) -> In r l ->
  (In (a_id r) (map a_id (filter p l)) <-> p r = true).
Proof.
  intros Hnd Hr. split.
  - intros Hin. apply in_map_iff in Hin. destruct Hin as (r' & Hid & Hr').
    apply filter_In in Hr'. destruct Hr' as [Hin' Hp].
    assert (r' = r); [|now subst].
    clear Hp. induction l as [|x l IH]; [contradiction|].
    cbn [map] in Hnd. inversion Hnd as [|? ? Hx Hl]; subst.
    destruct Hin' as [-> | Hin'], Hr as [-> | Hr]; auto.
    + exfalso. apply Hx. rewrite Hid. now apply in_map.
    + exfalso. apply Hx. rewrite <- Hid. now apply in_map.
  - intros Hp. apply in_map. apply filter_In. now split.
Qed.

Lemma delete_selected (p : Availability -> bool) l :
  NoDup (map a_id l) ->
  filter (fun r => negb (includes (map a_id (filter p l)) (a_id r))) l
  = filter (fun r => negb (p r)) l.
Proof.
  intros Hnd. apply filter_ext_in. intros r Hr. f_equal.
  apply eq_true_iff_eq. rewrite includes_In. now apply ids_of_selected.
Qed.

End PrimaryKey.



(** X8. A checkout that succeeds appends exactly one booking, for the
    requesting student, the requested teacher and range, priced by an
    active offer of that teacher for that duration, paid at once when the
    payment provider is disabled and pending otherwise; and it removes
    from the teacher's availability exactly the rows that start at a
    required block start, keeping every other row. *)
Theorem checkout_success_effects
        (env : Checkout.Env) (rq : Checkout.Request) (s s' : Db) (url : string)
        (user : Checkout.User) (teacherId start d : Z) :
  Forall (fun b => b_id b < bookingsSeq s) (bookings s) ->
  NoDup (map a_id (teacherAvailability s)) ->
  Checkout.rq_user rq = Some user ->
  Checkout.rq_teacherId rq = Some teacherId ->
  Checkout.rq_startUtc rq = IsoAt start ->
  Checkout.rq_durationMinutes rq = Some d ->
  Checkout.POST env rq s = (Checkout.CheckoutUrl url, s') ->
  exists offer b,
    (In offer (lessonOffers s) /\ o_teacherId offer = teacherId
     /\ o_durationMinutes offer = d /\ o_isActive offer = 1)
    /\ bookings s' = bookings s ++ [b]
    /\ (b_id b = bookingsSeq s /\ b_teacherId b = teacherId
        /\ b_studentId b = Checkout.u_id user
        /\ b_startUtc b = start /\ b_endUtc b = start + minutes d
        /\ b_priceCents b = o_priceCents offer
        /\ b_currency b = o_currency offer
        /\ b_status b = if Checkout.STRIPE_DISABLED env then Paid else Pending)
    /\ (forall r, In r (teacherAvailability s')
          <-> In r (teacherAvailability s)
              /\ ~ (a_teacherId r = teacherId
                    /\ In (a_startUtc r) (Checkout.requiredStarts start d)))
    /\ lessonOffers s' = lessonOffers s.
Proof.
  intros Hfresh Hpk Hu Ht Hs Hd Hpost.
  destruct (POST_success_inv _ _ _ Hpost)
    as (user' & t' & start' & d' & Hu' & _ & Ht' & Hs' & Hd' & _ & Htx).
  rewrite Hu in Hu'. rewrite Ht in Ht'. rewrite Hs in Hs'. rewrite Hd in Hd'.
  injection Hu' as <-. injection Ht' as <-. injection Hs' as <-.
  injection Hd' as <-.
  destruct (@checkoutTx_inv env user teacherId start d s url s' Hfresh Htx)
    as (offer & session & Hoff & _ & _ & _ & Hb & Ha & Hlo & _).
  exists offer. eexists. split; [|split; [exact Hb|]].
  - unfold Checkout.findOffer in Hoff. apply find_some in Hoff.
    destruct Hoff as [Hin Hp]. rewrite !andb_true_iff, !Z.eqb_eq in Hp.
    tauto.
  - split; [cbn; tauto|]. split; [|exact Hlo].
    intros r. rewrite Ha. unfold Checkout.matchingRows.
    rewrite (@delete_selected _ _ Hpk), filter_In, negb_true_iff.
    rewrite <- not_true_iff_false, andb_true_iff, Z.eqb_eq, includes_In.
    reflexivity.
Qed.

Lemma checkout_success_effects_witness :
  exists offer b,
    (In offer (lessonOffers CheckoutExample.store) /\ o_teacherId offer = 7
     /\ o_durationMinutes offer = 30 /\ o_isActive offer = 1)
    /\ bookings (snd (Checkout.POST CheckoutExample.env
                        (CheckoutExample.request 30) CheckoutExample.store))
       = bookings CheckoutExample.store ++ [b]
    /\ (b_id b = bookingsSeq CheckoutExample.store /\ b_teacherId b = 7
        /\ b_studentId b = Checkout.u_id CheckoutExample.student
        /\ b_startUtc b = CheckoutExample.day + 14400000
        /\ b_endUtc b = CheckoutExample.day + 14400000 + minutes 30
        /\ b_priceCents b = o_priceCents offer
        /\ b_currency b = o_currency offer
        /\ b_status b
           = if Checkout.STRIPE_DISABLED CheckoutExample.env then Paid else Pending)
    /\ (forall r,
          In r (teacherAvailability
                  (snd (Checkout.POST CheckoutExample.env
                          (CheckoutExample.request 30) CheckoutExample.store)))
          <-> In r (teacherAvailability CheckoutExample.store)
              /\ ~ (a_teacherId r = 7
                    /\ In (a_startUtc r)
                          (Checkout.requiredStarts
                             (CheckoutExample.day + 14400000) 30)))
    /\ lessonOffers (snd (Checkout.POST CheckoutExample.env
                            (CheckoutExample.request 30) CheckoutExample.store))
       = lessonOffers CheckoutExample.store.
Proof.
  eapply (@checkout_success_effects CheckoutExample.env
            (CheckoutExample.request 30) CheckoutExample.store _ _
            CheckoutExample.student 7 (CheckoutExample.day + 14400000) 30);
    try reflexivity.
  - constructor.
  - simpl. repeat constructor. intros [].
Defined.

(** ** Checkout, then cancel *)

Section RoundTrip.
Import Checkout.

Lemma find_app_fresh {A} (p : A -> bool) l l' :
  Forall (fun x => p x = false) l -> find p (l ++ l') = find p l'.
Proof.
  induction 1 as [|x l Hx _ IH]; cbn [app find]; [reflexivity|].
  now rewrite Hx.
Qed.

(** The blocks a cancellation restores are the blocks the checkout of
    that booking required. *)
Lemma impliedStarts_required start d :
  d = 30 \/ d = 60 ->
  impliedStarts start (start + minutes d) = requiredStarts start d.
Proof.
  intros [-> | ->]; unfold impliedStarts, requiredStarts.
  - replace (start + minutes 30 - start) with 1800000
      by (unfold minutes; lia).
    change (map (fun k => start + Z.of_nat k * minutes GRID_MINUTES) [0%nat]
            = [start]).
    cbn [map]. f_equal. lia.
  - replace (start + minutes 60 - start) with 3600000
      by (unfold minutes; lia).
    change (map (fun k => start + Z.of_nat k * minutes GRID_MINUTES)
                [0%nat; 1%nat]
            = [start; start + minutes GRID_MINUTES]).
    cbn [map]. f_equal; try lia; f_equal; lia.
Qed.

Lemma requiredStarts_NoDup start d : NoDup (requiredStarts start d).
Proof.
  unfold requiredStarts. destruct (d =? 60).
  - constructor; [|repeat constructor; intros []].
    intros [H | []]. unfold minutes, GRID_MINUTES in H. lia.
  - repeat constructor. intros [].
Qed.

Variables (s : Db) (teacherId : Z) (starts : list Z).

Let rows := matchingRows s teacherId starts.

Lemma matchingRows_In r :
  In r rows <-> In r (teacherAvailability s)
                /\ a_teacherId r = teacherId /\ In (a_startUtc r) starts.
Proof.
  unfold rows, matchingRows.
  now rewrite filter_In, andb_true_iff, Z.eqb_eq, includes_In.
Qed.

(** On a store with unique starts, a read that finds as many rows as
    there are required starts has found one row for each. *)
Lemma matchingRows_starts :
  uniqueStarts s -> NoDup starts ->
  List.length rows = List.length starts ->
  Permutation (map a_startUtc rows) starts.
Proof.
  intros Hu Hnd Hlen. apply NoDup_Permutation_bis.
  - apply NoDup_map_inv with (f := fun d => (teacherId, d)).
    rewrite map_map.
    assert (E : map (fun r => (teacherId, a_startUtc r)) rows
                = map (fun r => (a_teacherId r, a_startUtc r)) rows).
    { apply map_ext_in. intros r Hr. apply matchingRows_In in Hr.
      destruct Hr as (_ & -> & _). reflexivity. }
    rewrite E. unfold rows, matchingRows. now apply NoDup_map_filter.
  - rewrite length_map. lia.
  - intros d Hd. apply in_map_iff in Hd. destruct Hd as (r & <- & Hr).
    now apply matchingRows_In in Hr.
Qed.

(** After the matched rows are deleted by id, the teacher has no row
    left at a required start. *)
Lemma deleted_not_present s1 c :
  teacherAvailability s1
  = filter (fun r => negb (includes (map a_id rows) (a_id r)))
           (teacherAvailability s) ->
  In c starts -> present s1 teacherId c = false.
Proof.
  intros Ha Hc. unfold present. apply not_true_iff_false. intros H.
  apply existsb_exists in H. destruct H as (r & Hr & Hp).
  rewrite andb_true_iff, !Z.eqb_eq in Hp. destruct Hp as [Ht Hs].
  rewrite Ha in Hr. apply filter_In in Hr. destruct Hr as [Hr Hid].
  apply negb_true_iff in Hid.
  assert (Hin : includes (map a_id rows) (a_id r) = true); [|congruence].
  apply includes_In, in_map, matchingRows_In. rewrite Hs. auto.
Qed.

(** The deleted rows and the rows a cancellation appends carry the same
    (teacher, start, end) triples. *)
Lemma restored_triples s1 s2 news :
  uniqueStarts s -> NoDup (map a_id (teacherAvailability s)) ->
  NoDup starts ->
  List.length rows = List.length starts ->
  Forall (fun r => a_endUtc r - a_startUtc r = minutes GRID_MINUTES) rows ->
  teacherAvailability s1
  = filter (fun r => negb (includes (map a_id rows) (a_id r)))
           (teacherAvailability s) ->
  teacherAvailability s2 = teacherAvailability s1 ++ news ->
  map slotOf news
  = map (fun d => (teacherId, d, d + minutes GRID_MINUTES)) starts ->
  Permutation (map slotOf (teacherAvailability s2))
              (map slotOf (teacherAvailability s)).
Proof.
  intros Hu Hpk Hnd Hlen Hat Ha1 Ha2 Hnews.
  set (p := fun r => (a_teacherId r =? teacherId)
                     && includes starts (a_startUtc r)).
  assert (Hsplit : Permutation (teacherAvailability s)
                     (filter (fun r => negb (p r)) (teacherAvailability s)
                      ++ rows)).
  { clear. unfold rows, matchingRows. fold p.
    induction (teacherAvailability s) as [|x l IH]; cbn [filter];
      [constructor|].
    destruct (p x); cbn [negb app].
    - now apply Permutation_cons_app.
    - now constructor. }
  rewrite Ha2, Ha1. unfold rows at 1, matchingRows. fold p.
  rewrite (@delete_selected p _ Hpk).
  rewrite Hsplit at 2. rewrite !map_app. apply Permutation_app_head.
  rewrite Hnews.
  assert (E : map slotOf rows
              = map (fun d => (teacherId, d, d + minutes GRID_MINUTES))
                    (map a_startUtc rows)).
  { rewrite map_map. apply map_ext_in. intros r Hr.
    rewrite Forall_forall in Hat. specialize (Hat r Hr).
    apply matchingRows_In in Hr. destruct Hr as (_ & Ht & _).
    unfold slotOf. rewrite Ht. repeat f_equal. lia. }
  rewrite E. apply Permutation_map. symmetry.
  now apply matchingRows_starts.
Qed.

End RoundTrip.

(** X9. Checkout followed by cancellation gives the time back.  On a
    store where no two rows of a teacher share a start and ids are
    primary keys, after a checkout that succeeds with the payment
    provider enabled (so the booking is pending), the student's
    cancellation of that booking succeeds, reports one restored row per
    required block, marks the booking canceled, and leaves the teacher
    availability with the same (teacher, start, end) triples as before
    the checkout. *)
Theorem checkout_then_cancel_restores
        (env : Checkout.Env) (rq : Checkout.Request) (s s1 : Db) (url : string)
        (user : Checkout.User) (teacherId start d now' : Z) :
  uniqueStarts s ->
  NoDup (map a_id (teacherAvailability s)) ->
  Forall (fun b => b_id b < bookingsSeq s) (bookings s) ->
  Checkout.STRIPE_DISABLED env = false ->
  Checkout.rq_user rq = Some user ->
  Checkout.rq_teacherId rq = Some teacherId ->
  Checkout.rq_startUtc rq = IsoAt start ->
  Checkout.rq_durationMinutes rq = Some d ->
  Checkout.POST env rq s = (Checkout.CheckoutUrl url, s1) ->
  exists s2,
    Cancel.POST now'
      (Cancel.mkRequest (Some (Checkout.u_id user)) (Some (bookingsSeq s))) s1
    = (Cancel.Restored
         (Z.of_nat (List.length (Checkout.requiredStarts start d))), s2)
    /\ Permutation (map slotOf (teacherAvailability s2))
                   (map slotOf (teacherAvailability s))
    /\ map b_status (bookings s2) = map b_status (bookings s) ++ [Canceled].
Proof.
  intros Hu Hpk Hfresh Hstripe Hru Hrt Hrs Hrd Hpost.
  destruct (POST_success_inv _ _ _ Hpost)
    as (user' & t' & start' & d' & Hu' & Hnz & Ht' & Hs' & Hd' & Hdur & Htx).
  rewrite Hru in Hu'. rewrite Hrt in Ht'. rewrite Hrs in Hs'. rewrite Hrd in Hd'.
  injection Hu' as <-. injection Ht' as <-. injection Hs' as <-.
  injection Hd' as <-.
  destruct (@checkoutTx_inv env user teacherId start d s url s1 Hfresh Htx)
    as (offer & session & _ & Hlen & Hat & _ & Hb & Ha & _).
  rewrite Hstripe in Hb.
  set (nb := mkBooking (bookingsSeq s) teacherId (Checkout.u_id user) start
                       (start + minutes d) d (o_priceCents offer)
                       (o_currency offer) Pending session None
                       (Checkout.now env)) in *.
  assert (Hf : Cancel.findBooking s1 (b_id nb) (b_studentId nb) = Some nb).
  { unfold Cancel.findBooking. rewrite Hb, find_app_fresh.
    - cbn. now rewrite !Z.eqb_refl.
    - eapply Forall_impl; [|exact Hfresh]. intros b Hlt. cbn in Hlt |- *.
      destruct (b_id b =? bookingsSeq s) eqn:E; [apply Z.eqb_eq in E; lia|].
      reflexivity. }
  pose proof (@cancelTx_pending now' s1 nb Hf eq_refl) as Hc. cbv zeta in Hc.
  change (b_teacherId nb) with teacherId in Hc.
  change (b_startUtc nb) with start in Hc.
  change (b_endUtc nb) with (start + minutes d) in Hc.
  change (b_id nb) with (bookingsSeq s) in Hc.
  change (b_studentId nb) with (Checkout.u_id user) in Hc.
  rewrite (impliedStarts_required start Hdur) in Hc.
  assert (Hmiss : missingStarts s1 teacherId (Checkout.requiredStarts start d)
                  = Checkout.requiredStarts start d).
  { unfold missingStarts. apply filter_all. apply Forall_forall. intros c Hin.
    now rewrite (@deleted_not_present s teacherId _ s1 c Ha Hin). }
  rewrite Hmiss in Hc.
  set (s0 := updateBookingsById s1 (bookingsSeq s) (canceled now')) in *.
  destruct (@insertAvailabilities_spec now' teacherId
              (Checkout.requiredStarts start d) s0)
    as (Hb2 & _ & news & Ha2 & Hn).
  set (s2 := insertAvailabilities s0 _) in *.
  exists s2. split; [|split].
  - unfold Cancel.POST, transaction. cbn [Cancel.rq_userId Cancel.rq_bookingId].
    apply Z.eqb_neq in Hnz. now rewrite Hnz, Hc.
  - apply (@restored_triples s teacherId (Checkout.requiredStarts start d)
             s1 s2 news); auto.
    apply requiredStarts_NoDup.
  - rewrite Hb2. unfold s0, updateBookingsById. cbn [setBookings bookings].
    rewrite Hb, !map_app, map_map. cbn [map]. f_equal.
    + apply map_ext_in. intros b Hin. rewrite Forall_forall in Hfresh.
      specialize (Hfresh b Hin).
      destruct (b_id b =? bookingsSeq s) eqn:E; [apply Z.eqb_eq in E; lia|].
      reflexivity.
    + unfold nb. cbn [b_id]. now rewrite Z.eqb_refl.
Qed.

Lemma checkout_then_cancel_restores_witness :
  exists s2,
    Cancel.POST 9
      (Cancel.mkRequest (Some (Checkout.u_id CheckoutExample.student))
                        (Some (bookingsSeq CheckoutExample.store)))
      (snd (Checkout.POST StripeExample.answering (CheckoutExample.request 30)
                          CheckoutExample.store))
    = (Cancel.Restored
         (Z.of_nat (List.length
            (Checkout.requiredStarts (CheckoutExample.day + 14400000) 30))), s2)
    /\ Permutation (map slotOf (teacherAvailability s2))
                   (map slotOf (teacherAvailability CheckoutExample.store))
    /\ map b_status (bookings s2)
       = map b_status (bookings CheckoutExample.store) ++ [Canceled].
Proof.
  eapply (@checkout_then_cancel_restores StripeExample.answering
            (CheckoutExample.request 30) CheckoutExample.store _ _
            CheckoutExample.student 7 (CheckoutExample.day + 14400000) 30 9);
    try reflexivity.
  - simpl. repeat constructor. intros [].
  - simpl. repeat constructor. intros [].
  - constructor.
Defined.

Lemma checkout_serial_exclusive_witness :
  exists msg,
    Checkout.POST CheckoutExample.env (CheckoutExample.request 60)
      (snd (Checkout.POST StripeExample.answering (CheckoutExample.request 30)
                          CheckoutExample.store))
    = (Checkout.Error 400 msg,
       snd (Checkout.POST StripeExample.answering (CheckoutExample.request 30)
                          CheckoutExample.store))
    /\ (Checkout.findOffer CheckoutExample.store 7 60 <> None ->
        msg = "Slot not available"%string).
Proof.
  eapply (@checkout_serial_exclusive StripeExample.answering CheckoutExample.env
            (CheckoutExample.request 30) (CheckoutExample.request 60)
            CheckoutExample.store _ _ CheckoutExample.student 7
            (CheckoutExample.day + 14400000) 30
            (CheckoutExample.day + 14400000) 60
            (CheckoutExample.day + 14400000));
    try reflexivity.
  - unfold uniqueStarts. simpl. repeat constructor. intros [].
  - discriminate.
  - now right.
  - now left.
  - now left.
Defined.

(** ** Cancellation: what is refused *)

Section CancelRefused.
Import Cancel.


End CancelRefused.



(** X12. A booking that is paid or refunded cannot be canceled by this
    route: the owner's request is answered 400 with the status in the
    message, and nothing is written. *)
Theorem cancel_settled_booking_refused (now : Z) (s : Db) (b : Booking) :
  NoDup (map b_id (bookings s)) ->
  In b (bookings s) ->
  b_studentId b <> 0 ->
  b_status b = Paid \/ b_status b = Refunded ->
  Cancel.POST now (Cancel.mkRequest (Some (b_studentId b)) (Some (b_id b))) s
  = (Cancel.Error 400 ("Cannot cancel booking with status "
                       ++ Cancel.statusName (b_status b)), s).
Proof.
  intros Hpk Hin Hnz Hst.
  pose proof (@findBooking_In s b Hpk Hin) as Hf.
  unfold Cancel.POST, transaction, Cancel.cancelTx.
  cbn [Cancel.rq_userId Cancel.rq_bookingId].
  apply Z.eqb_neq in Hnz. rewrite Hnz, Hf.
  destruct Hst as [-> | ->]; reflexivity.
Qed.

Lemma cancel_settled_booking_refused_witness :
  Cancel.POST 5 (Cancel.mkRequest (Some 9) (Some 1))
    (mkDb [mkBooking 1 7 9 1770811200000 1770814800000 60 6000 "EUR" Paid
                     (Some "cs_1"%string) None 0] [] [] [] [] 2 1 1 1)
  = (Cancel.Error 400 "Cannot cancel booking with status paid",
     mkDb [mkBooking 1 7 9 1770811200000 1770814800000 60 6000 "EUR" Paid
                     (Some "cs_1"%string) None 0] [] [] [] [] 2 1 1 1).
Proof.
  apply (@cancel_settled_booking_refused 5
           (mkDb [mkBooking 1 7 9 1770811200000 1770814800000 60 6000 "EUR" Paid
                     (Some "cs_1"%string) None 0] [] [] [] [] 2 1 1 1)
           (mkBooking 1 7 9 1770811200000 1770814800000 60 6000 "EUR" Paid
                     (Some "cs_1"%string) None 0)).
  - simpl. repeat constructor. intros [].
  - now left.
  - simpl. lia.
  - now left.
Defined.

(** ** Payment confirmation: what is written *)

Section WebhookEffects.
Import Webhook.


Lemma updateBookingsById_at s id f b :
  NoDup (map b_id (bookings s)) -> In b (bookings s) -> b_id b = id ->
  exists before after,
    bookings s = before ++ b :: after
    /\ bookings (updateBookingsById s id f) = before ++ f b :: after.
Proof.
  intros Hnd Hin Hid. apply in_split in Hin.
  destruct Hin as (before & after & E). exists before, after.
  split; [exact E|]. unfold updateBookingsById. cbn [setBookings bookings].
  rewrite E in Hnd |- *. rewrite map_app in Hnd. cbn [map] in Hnd.
  apply NoDup_remove_2 in Hnd. rewrite map_app. cbn [map].
  rewrite Hid, Z.eqb_refl.
  assert (Hsame : forall l, ~ In id (map b_id l) ->
            map (fun x => if b_id x =? id then f x else x) l = l).
  { induction l as [|x l IH]; cbn [map]; intros Hx; [reflexivity|].
    destruct (b_id x =? id) eqn:Ex.
    - apply Z.eqb_eq in Ex. elim Hx. now left.
    - rewrite IH; [reflexivity|]. intros H. apply Hx. now right. }
  rewrite Hid in Hnd.
  rewrite !Hsame; [reflexivity | |];
    intros H; apply Hnd, in_or_app; [now right | now left].
Qed.

(** Neither the answer nor the row written depends on the store. *)
Lemma POST_shape rq :
  (exists resp, forall s, POST rq s = (resp, s))
  \/ exists session z,
       forall s,
         POST rq s
         = (Received, updateBookingsById s z (markPaid (rq_now rq) session)).
Proof.
  unfold POST. destruct (rq_sig rq) as [sig|]; [|left; eexists; intros; reflexivity].
  destruct (String.eqb sig EmptyString); [left; eexists; intros; reflexivity|].
  destruct (rq_secret rq) as [secret|]; [|left; eexists; intros; reflexivity].
  destruct (String.eqb secret EmptyString); [left; eexists; intros; reflexivity|].
  destruct (rq_constructEvent rq) as [[session|ty]|msg]; try (left; eexists; intros; reflexivity).
  unfold handle.
  destruct (cs_bookingId session) as [|raw n]; [left; eexists; intros; reflexivity|].
  destruct (String.eqb raw EmptyString); [left; eexists; intros; reflexivity|].
  destruct n as [z| | |]; try (left; eexists; intros; reflexivity).
  unfold pgInteger.
  destruct ((-2147483648 <=? z) && (z <=? 2147483647)); [|left; eexists; intros; reflexivity].
  right. exists session, z. reflexivity.
Qed.

End WebhookEffects.

(** X13. A signed [checkout.session.completed] event whose metadata names
    an existing booking is answered with a success, and sets exactly that
    booking to paid, recording the session id and the payment intent; the
    booking's current status is not looked at, every other booking and
    the availability are left as they were. *)
Theorem webhook_marks_booking_paid
        (sig secret raw : string) (now z : Z) (s : Db) (b : Booking)
        (id : string) (pi : option string) :
  sig <> EmptyString -> secret <> EmptyString -> raw <> EmptyString ->
  -2147483648 <= z <= 2147483647 ->
  NoDup (map b_id (bookings s)) ->
  In b (bookings s) -> b_id b = z ->
  exists s' before after,
    Webhook.POST
      (Webhook.mkRequest (Some sig) (Some secret)
         (Ok (Webhook.CheckoutSessionCompleted
                (Webhook.mkSession id (Webhook.Text raw (Webhook.Int z)) pi)))
         now) s
    = (Webhook.Received, s')
    /\ bookings s = before ++ b :: after
    /\ bookings s'
       = before
         ++ mkBooking (b_id b) (b_teacherId b) (b_studentId b) (b_startUtc b)
                      (b_endUtc b) (b_durationMinutes b) (b_priceCents b)
                      (b_currency b) Paid (Some id) pi now
         :: after
    /\ teacherAvailability s' = teacherAvailability s.
Proof.
  intros Hsig Hsec Hraw Hz Hpk Hin Hid.
  rewrite (@deliver_handle sig secret now s Hsig Hsec).
  cbn [Webhook.handle Webhook.cs_bookingId].
  apply String.eqb_neq in Hraw. rewrite Hraw. unfold Webhook.pgInteger.
  destruct (-2147483648 <=? z) eqn:E1; [|apply Z.leb_gt in E1; lia].
  destruct (z <=? 2147483647) eqn:E2; [|apply Z.leb_gt in E2; lia].
  cbn [andb bind].
  destruct (@updateBookingsById_at s z
              (Webhook.markPaid now
                 (Webhook.mkSession id (Webhook.Text raw (Webhook.Int z)) pi))
              b Hpk Hin Hid) as (before & after & E & E').
  eexists. exists before, after. split; [reflexivity|].
  split; [exact E|]. split; [exact E' | reflexivity].
Qed.

Lemma webhook_marks_booking_paid_witness :
  exists s' before after,
    Webhook.POST
      (Webhook.mkRequest (Some "sig_dummy"%string) (Some "whsec_test"%string)
         (Ok (Webhook.CheckoutSessionCompleted
                (Webhook.mkSession "cs_test_1"
                   (Webhook.Text "1" (Webhook.Int 1)) (Some "pi_test_1"%string))))
         5) WebhookExample.store
    = (Webhook.Received, s')
    /\ bookings WebhookExample.store
       = before
         ++ mkBooking 1 7 9 1770811200000 1770814800000 60 6000 "EUR" Pending
                      None None 0 :: after
    /\ bookings s'
       = before
         ++ mkBooking 1 7 9 1770811200000 1770814800000 60 6000 "EUR" Paid
                      (Some "cs_test_1"%string) (Some "pi_test_1"%string) 5
         :: after
    /\ teacherAvailability s' = teacherAvailability WebhookExample.store.
Proof.
  apply (@webhook_marks_booking_paid "sig_dummy" "whsec_test" "1" 5 1
           WebhookExample.store
           (mkBooking 1 7 9 1770811200000 1770814800000 60 6000 "EUR" Pending
                      None None 0));
    try discriminate; try reflexivity.
  - lia.
  - simpl. repeat constructor. intros [].
  - now left.
Defined.


(** X15. Whatever the request, the payment webhook changes no booking's
    id, teacher, student, range, duration, price or currency, adds and
    removes no booking, moves a status only to paid, and writes neither
    availability nor offers. *)
Theorem webhook_preserves_booking_terms (rq : Webhook.Request) (s : Db) :
  let s' := snd (Webhook.POST rq s) in
  Forall2 (fun b b' =>
             b_id b' = b_id b /\ b_teacherId b' = b_teacherId b
             /\ b_studentId b' = b_studentId b
             /\ b_startUtc b' = b_startUtc b /\ b_endUtc b' = b_endUtc b
             /\ b_durationMinutes b' = b_durationMinutes b
             /\ b_priceCents b' = b_priceCents b
             /\ b_currency b' = b_currency b
             /\ (b_status b' = b_status b \/ b_status b' = Paid))
          (bookings s) (bookings s')
  /\ teacherAvailability s' = teacherAvailability s
  /\ lessonOffers s' = lessonOffers s.
Proof.
  cbv zeta.
  destruct (POST_shape rq) as [(resp & H) | (session & z & H)]; rewrite (H s).
  - split; [|split; reflexivity]. cbn [snd].
    induction (bookings s) as [|b l IH]; constructor; [|exact IH].
    repeat split; auto.
  - cbn [snd]. split; [|split; reflexivity].
    unfold updateBookingsById. cbn [setBookings bookings].
    induction (bookings s) as [|b l IH]; cbn [map]; constructor; [|exact IH].
    destruct (b_id b =? z); cbn; repeat split; auto.
Qed.

(** ** Availability rules: merge on write *)

Import OverrideSpec.

Section MergeOnWrite.
Import AvailabilityRules.

Lemma fold_min_spec (l : list Override) : forall init,
  let m := fold_left (fun m o => if ov_startUtc o <? m then ov_startUtc o else m)
                     l init in
  (forall o, In o l -> m <= ov_startUtc o)
  /\ (m = init \/ exists o, In o l /\ m = ov_startUtc o).
Proof.
  induction l as [|x l IH]; intros init; cbn [fold_left].
  - split; [intros o [] | now left].
  - cbv zeta in IH.
    pose proof (fold_min_le l
                  (if ov_startUtc x <? init then ov_startUtc x else init)) as Hle.
    destruct (IH (if ov_startUtc x <? init then ov_startUtc x else init))
      as [H1 H2].
    split.
    + intros o [<- | Ho]; [|now apply H1].
      destruct (ov_startUtc x <? init) eqn:E; [lia|].
      apply Z.ltb_ge in E. lia.
    + destruct H2 as [H2 | (o & Ho & H2)].
      * destruct (ov_startUtc x <? init); [|now left].
        right. exists x. split; [now left | exact H2].
      * right. exists o. split; [now right | exact H2].
Qed.

Lemma fold_max_spec (l : list Override) : forall init,
  let m := fold_left (fun m o => if ov_endUtc o >? m then ov_endUtc o else m)
                     l init in
  (forall o, In o l -> ov_endUtc o <= m)
  /\ (m = init \/ exists o, In o l /\ m = ov_endUtc o).
Proof.
  induction l as [|x l IH]; intros init; cbn [fold_left].
  - split; [intros o [] | now left].
  - cbv zeta in IH.
    pose proof (fold_max_ge l
                  (if ov_endUtc x >? init then ov_endUtc x else init)) as Hge.
    destruct (IH (if ov_endUtc x >? init then ov_endUtc x else init))
      as [H1 H2].
    split.
    + intros o [<- | Ho]; [|now apply H1].
      destruct (ov_endUtc x >? init) eqn:E; [lia|].
      rewrite Z.gtb_ltb in E. apply Z.ltb_ge in E. lia.
    + destruct H2 as [H2 | (o & Ho & H2)].
      * destruct (ov_endUtc x >? init); [|now left].
        right. exists x. split; [now left | exact H2].
      * right. exists o. split; [now right | exact H2].
Qed.

Lemma touching_spec teacherId a b o :
  touching teacherId a b o = true
  <-> isAdd teacherId o = true /\ ov_startUtc o <= b /\ a <= ov_endUtc o.
Proof.
  unfold touching, isAdd.
  rewrite !andb_true_iff, Z.leb_le, Z.geb_leb, Z.leb_le. tauto.
Qed.

(** The store after one merged insert: the ranges that did not touch
    the window, then one range from the least start to the greatest
    end among the window and the ranges that touched it. *)
Lemma insertMerged_overrides teacherId a b s :
  exists o,
    availabilityOverrides (insertMergedAvailabilityBlock teacherId a b s)
    = filter (fun o => negb (touching teacherId a b o))
             (availabilityOverrides s) ++ [o]
    /\ isAdd teacherId o = true
    /\ (forall x, In x (availabilityOverrides s) ->
          touching teacherId a b x = true ->
          ov_startUtc o <= ov_startUtc x /\ ov_endUtc x <= ov_endUtc o)
    /\ ov_startUtc o <= a /\ b <= ov_endUtc o
    /\ (ov_startUtc o = a
        \/ exists x, In x (availabilityOverrides s)
             /\ touching teacherId a b x = true
             /\ ov_startUtc o = ov_startUtc x)
    /\ (ov_endUtc o = b
        \/ exists x, In x (availabilityOverrides s)
             /\ touching teacherId a b x = true
             /\ ov_endUtc o = ov_endUtc x).
Proof.
  unfold insertMergedAvailabilityBlock.
  set (existing := filter (touching teacherId a b) (availabilityOverrides s)).
  destruct (fold_min_spec existing a) as [Hmin1 Hmin2].
  destruct (fold_max_spec existing b) as [Hmax1 Hmax2].
  pose proof (fold_min_le existing a) as Hmin.
  pose proof (fold_max_ge existing b) as Hmax.
  set (ms := fold_left _ existing a) in *.
  set (me := fold_left _ existing b) in *.
  exists (mkOverride (availabilityOverridesSeq s) teacherId ms me "add").
  assert (Hin : forall x, In x existing
            <-> In x (availabilityOverrides s) /\ touching teacherId a b x = true)
    by (intros x; apply filter_In).
  split; [|split; [|split; [|split; [|split; [|split]]]]].
  - destruct existing eqn:Ee; cbn.
    + now rewrite filter_complement by exact Ee.
    + reflexivity.
  - unfold isAdd. cbn. now rewrite Z.eqb_refl.
  - intros x Hx Ht. cbn. split; [apply Hmin1 | apply Hmax1]; now apply Hin.
  - exact Hmin.
  - exact Hmax.
  - cbn. destruct Hmin2 as [H | (x & Hx & H)]; [now left | right].
    exists x. apply Hin in Hx. tauto.
  - cbn. destruct Hmax2 as [H | (x & Hx & H)]; [now left | right].
    exists x. apply Hin in Hx. tauto.
Qed.

Lemma ForallOrdPairs_filter {A} (R : A -> A -> Prop) (p : A -> bool) l :
  ForallOrdPairs R l -> ForallOrdPairs R (filter p l).
Proof.
  induction 1 as [|x l Hx _ IH]; cbn [filter]; [constructor|].
  destruct (p x); [|exact IH]. constructor; [|exact IH].
  apply Forall_forall. intros y Hy. apply filter_In in Hy.
  rewrite Forall_forall in Hx. now apply Hx.
Qed.

Lemma ForallOrdPairs_snoc {A} (R : A -> A -> Prop) l x :
  ForallOrdPairs R l -> Forall (fun y => R y x) l ->
  ForallOrdPairs R (l ++ [x]).
Proof.
  induction 1 as [|y l Hy _ IH]; intros Hx; cbn [app].
  - constructor; constructor.
  - inversion Hx as [|? ? Hyx Hx']; subst. constructor; [|now apply IH].
    apply Forall_app. split; [exact Hy | now constructor].
Qed.

Lemma apart_sym o1 o2 : apart o1 o2 -> apart o2 o1.
Proof. unfold apart. tauto. Qed.

Variables (teacherId a b : Z) (s : Db).
Hypothesis window : a <= b.

Let s' := insertMergedAvailabilityBlock teacherId a b s.

Lemma insertMerged_covered u :
  addCovered s' teacherId u <-> addCovered s teacherId u \/ a <= u <= b.
Proof.
  destruct (insertMerged_overrides teacherId a b s)
    as (o & Hov & Hadd & Hall & Hlo & Hhi & Hs & He).
  fold s' in Hov. unfold addCovered. rewrite Hov. split.
  - intros (x & Hx & Hxa & Hxu). apply in_app_or in Hx.
    destruct Hx as [Hx | [<- | []]].
    + apply filter_In in Hx. left. exists x. tauto.
    + unfold ovCovers in Hxu.
      destruct (Z.lt_ge_cases u a) as [Hlt | Hge].
      * destruct Hs as [Hs | (x & Hx & Ht & Hs)]; [lia|].
        left. exists x. apply touching_spec in Ht.
        unfold ovCovers. repeat split; try tauto; lia.
      * destruct (Z.lt_ge_cases b u) as [Hgt | Hle]; [|right; lia].
        destruct He as [He | (x & Hx & Ht & He)]; [lia|].
        left. exists x. apply touching_spec in Ht.
        unfold ovCovers. repeat split; try tauto; lia.
  - intros [(x & Hx & Hxa & Hxu) | Hu].
    + destruct (touching teacherId a b x) eqn:Et.
      * exists o. split; [apply in_or_app; right; now left|].
        split; [exact Hadd|]. destruct (Hall x Hx Et).
        unfold ovCovers in *. lia.
      * exists x. split; [|tauto]. apply in_or_app. left.
        apply filter_In. now rewrite Et.
    + exists o. split; [apply in_or_app; right; now left|].
      split; [exact Hadd | unfold ovCovers; lia].
Qed.

Lemma insertMerged_canonical t :
  addsCanonical s t -> addsCanonical s' t.
Proof.
  intros [Hwf Hap].
  destruct (insertMerged_overrides teacherId a b s)
    as (o & Hov & Hadd & Hall & Hlo & Hhi & Hs & He).
  fold s' in Hov. unfold addsCanonical. rewrite Hov. split.
  - apply Forall_app. split.
    + apply Forall_forall. intros x Hx. apply filter_In in Hx.
      rewrite Forall_forall in Hwf. now apply Hwf.
    + constructor; [intros _; lia | constructor].
  - apply ForallOrdPairs_snoc; [now apply ForallOrdPairs_filter|].
    apply Forall_forall. intros x Hx Hxa Hoa.
    apply filter_In in Hx. destruct Hx as [Hx Hnt].
    apply negb_true_iff in Hnt.
    assert (Ett : t = teacherId).
    { unfold isAdd in Hoa, Hadd. rewrite andb_true_iff, Z.eqb_eq in Hoa, Hadd.
      destruct Hoa as [<- _]. now destruct Hadd as [<- _]. }
    subst t.
    assert (Hxwf : ov_startUtc x <= ov_endUtc x).
    { rewrite Forall_forall in Hwf. now apply Hwf. }
    assert (Hout : b < ov_startUtc x \/ ov_endUtc x < a).
    { destruct (Z.lt_ge_cases b (ov_startUtc x)) as [H | H]; [now left|].
      destruct (Z.lt_ge_cases (ov_endUtc x) a) as [H' | H']; [now right|].
      assert (touching teacherId a b x = true); [|congruence].
      apply touching_spec. auto. }
    assert (Hothers : forall y, In y (availabilityOverrides s) ->
              touching teacherId a b y = true -> apart x y).
    { intros y Hy Hty.
      destruct (ForallOrdPairs_In Hap x y Hx Hy) as [-> | [H | H]].
      - congruence.
      - apply H; [exact Hxa | now apply touching_spec in Hty].
      - apply apart_sym, H; [now apply touching_spec in Hty | exact Hxa]. }
    unfold apart. destruct Hout as [Hright | Hleft].
    + right. destruct He as [He | (y & Hy & Hty & He)]; [lia|].
      destruct (Hothers y Hy Hty) as [H | H]; [|lia].
      apply touching_spec in Hty. lia.
    + left. destruct Hs as [Hs | (y & Hy & Hty & Hs)]; [lia|].
      destruct (Hothers y Hy Hty) as [H | H]; [lia|].
      apply touching_spec in Hty. lia.
Qed.

End MergeOnWrite.

Section RuleExpansionFacts.
Import AvailabilityRules.


Lemma insertMerged_others teacherId a b s :
  filter (fun o => negb (isAdd teacherId o))
         (availabilityOverrides (insertMergedAvailabilityBlock teacherId a b s))
  = filter (fun o => negb (isAdd teacherId o)) (availabilityOverrides s).
Proof.
  destruct (insertMerged_overrides teacherId a b s) as (o & -> & Hadd & _).
  rewrite filter_app. cbn [filter]. rewrite Hadd. cbn [negb].
  rewrite app_nil_r.
  induction (availabilityOverrides s) as [|x l IH]; cbn [filter];
    [reflexivity|].
  destruct (touching teacherId a b x) eqn:Et; cbn [negb filter].
  - apply touching_spec in Et. destruct Et as [-> _]. exact IH.
  - destruct (isAdd teacherId x); cbn [negb]; [exact IH | now rewrite IH].
Qed.

Variables (teacherId : Z) (body : RuleBody).
Hypothesis positive : startMin body < endMin body.



End RuleExpansionFacts.

(** X16. Merge on write.  Inserting the window [[a, b]] for a teacher
    replaces the teacher's "add" ranges that overlap or touch it by one
    range spanning them all: afterwards the teacher's "add" ranges cover
    exactly what they covered before together with the window, ranges
    that were non-empty and pairwise apart (for any teacher) still are,
    and the ranges of other teachers and of other kinds are kept. *)
Theorem insertMergedAvailabilityBlock_merges (teacherId a b : Z) (s : Db) :
  a <= b ->
  let s' := AvailabilityRules.insertMergedAvailabilityBlock teacherId a b s in
  (forall u, addCovered s' teacherId u
             <-> addCovered s teacherId u \/ a <= u <= b)
  /\ (forall t, addsCanonical s t -> addsCanonical s' t)
  /\ filter (fun o => negb (isAdd teacherId o)) (availabilityOverrides s')
     = filter (fun o => negb (isAdd teacherId o)) (availabilityOverrides s).
Proof.
  intros Hab s'. split; [|split].
  - intros u. now apply insertMerged_covered.
  - intros t Hc. now apply insertMerged_canonical.
  - apply insertMerged_others.
Qed.

Lemma insertMergedAvailabilityBlock_merges_witness :
  let s := mkDb [] [] [] [mkOverride 1 7 0 10 "add"; mkOverride 2 7 20 30 "add"]
                [] 1 1 3 1 in
  let s' := AvailabilityRules.insertMergedAvailabilityBlock 7 10 20 s in
  (forall u, addCovered s' 7 u <-> addCovered s 7 u \/ 10 <= u <= 20)
  /\ (forall t, addsCanonical s t -> addsCanonical s' t)
  /\ filter (fun o => negb (isAdd 7 o)) (availabilityOverrides s')
     = filter (fun o => negb (isAdd 7 o)) (availabilityOverrides s).
Proof.
  apply (@insertMergedAvailabilityBlock_merges 7 10 20). lia.
Defined.

Example insertMerged_bridges_two_ranges :
  availabilityOverrides
    (AvailabilityRules.insertMergedAvailabilityBlock 7 10 20
       (mkDb [] [] [] [mkOverride 1 7 0 10 "add"; mkOverride 2 7 20 30 "add";
                       mkOverride 3 8 5 25 "add"] [] 1 1 4 1))
  = [mkOverride 3 8 5 25 "add"; mkOverride 4 7 0 30 "add"].
Proof. reflexivity. Qed.



(** ** The teacher's calendar: merged events, range deletes *)

Import EventSpec.

Section CalendarFacts.
Import AvailabilityEvents.

Let toInterval (r : Availability) : Interval :=
  mkInterval (a_startUtc r) (a_endUtc r).

Let toEvent (teacherId : Z) (m : Interval) : Event :=
  mkEvent teacherId (startMs m) (endMs m).

Lemma StronglySorted_map {A B} (f : A -> B) (R : B -> B -> Prop) l :
  StronglySorted (fun x y => R (f x) (f y)) l -> StronglySorted R (map f l).
Proof.
  induction 1 as [|x l Hs IH Hx]; cbn [map]; constructor; [exact IH|].
  apply Forall_map. exact Hx.
Qed.

Lemma events_canonical teacherId merged :
  Forall wellFormed merged -> separated merged ->
  eventsCanonical teacherId (map (toEvent teacherId) merged).
Proof.
  intros Hw Hs. split.
  - apply Forall_map. eapply Forall_impl; [|exact Hw].
    intros m Hm. unfold wellFormed in Hm. cbn. split; [reflexivity | lia].
  - apply StronglySorted_map. exact Hs.
Qed.

Lemma events_covered teacherId merged u :
  (exists e, In e (map (toEvent teacherId) merged) /\ inEvent e u)
  <-> covered merged u.
Proof.
  split.
  - intros (e & He & Hu). apply in_map_iff in He.
    destruct He as (m & <- & Hm). exists m. split; [exact Hm | exact Hu].
  - intros (m & Hm & Hu). exists (toEvent teacherId m).
    split; [now apply in_map | exact Hu].
Qed.

Lemma selectRows_In s teacherId fromMs toMs r :
  In r (selectRows s teacherId fromMs toMs)
  <-> In r (teacherAvailability s) /\ overlapping teacherId fromMs toMs r = true.
Proof. unfold selectRows. now rewrite sort_in, filter_In. Qed.

Lemma rows_covered rows u :
  covered (filter isValid (map toInterval rows)) u
  <-> exists r, In r rows /\ inRow r u.
Proof.
  rewrite covered_filter_isValid. split.
  - intros (i & Hi & Hu). apply in_map_iff in Hi.
    destruct Hi as (r & <- & Hr). exists r. split; [exact Hr | exact Hu].
  - intros (r & Hr & Hu). exists (toInterval r).
    split; [now apply in_map | exact Hu].
Qed.

Lemma cmpStartUtc_sorted l :
  StronglySorted (fun a b => a_startUtc a <= a_startUtc b)
                 (sort cmpStartUtc l).
Proof.
  apply sort_sorted; unfold cmpStartUtc; intros; lia.
Qed.

(** The merged view of a valid query. *)
Lemma GET_merged s teacherId fromMs toMs mode :
  fromMs < toMs -> mode <> "atomic"%string ->
  let merged :=
    mergeIntervals
      (filter isValid
              (map toInterval (selectRows s teacherId fromMs toMs))) in
  GET s (ownView teacherId fromMs toMs mode)
  = Events teacherId (Z.of_nat (List.length merged))
           (map (toEvent teacherId) merged).
Proof.
  intros Hr Hm merged. unfold GET, ownView.
  cbn [rq_userId rq_teacherId rq_from rq_to rq_mode].
  rewrite Z.eqb_refl. cbn [negb].
  destruct (toMs <=? fromMs) eqn:E; [apply Z.leb_le in E; lia|].
  apply String.eqb_neq in Hm. rewrite Hm.
  fold toInterval. fold merged. now rewrite length_map.
Qed.

Lemma GET_atomic s teacherId fromMs toMs :
  fromMs < toMs ->
  GET s (ownView teacherId fromMs toMs "atomic")
  = Rows (selectRows s teacherId fromMs toMs).
Proof.
  intros Hr. unfold GET, ownView.
  cbn [rq_userId rq_teacherId rq_from rq_to rq_mode].
  rewrite Z.eqb_refl. cbn [negb].
  destruct (toMs <=? fromMs) eqn:E; [apply Z.leb_le in E; lia|].
  reflexivity.
Qed.

End CalendarFacts.

(** X18. The two views of the teacher's calendar agree.  For a valid
    range, the atomic view lists exactly the teacher's rows that overlap
    the range, ordered by start; the merged view lists events of that
    teacher that are non-empty, in increasing order and separated by
    gaps, reports their number, and an instant lies in an event if and
    only if it lies in a row of the atomic view. *)
Theorem calendar_views_agree (s : Db) (teacherId fromMs toMs : Z)
        (mode : string) :
  fromMs < toMs -> mode <> "atomic"%string ->
  exists rows events,
    AvailabilityEvents.GET s (ownView teacherId fromMs toMs "atomic")
    = AvailabilityEvents.Rows rows
    /\ AvailabilityEvents.GET s (ownView teacherId fromMs toMs mode)
       = AvailabilityEvents.Events teacherId (Z.of_nat (List.length events))
                                   events
    /\ (forall r, In r rows
          <-> In r (teacherAvailability s)
              /\ AvailabilityEvents.overlapping teacherId fromMs toMs r = true)
    /\ StronglySorted (fun a b => a_startUtc a <= a_startUtc b) rows
    /\ eventsCanonical teacherId events
    /\ (forall u, (exists e, In e events /\ inEvent e u)
                  <-> (exists r, In r rows /\ inRow r u)).
Proof.
  intros Hr Hm.
  pose proof (@GET_merged s teacherId fromMs toMs mode Hr Hm) as Hg.
  cbv zeta in Hg.
  set (rows := AvailabilityEvents.selectRows s teacherId fromMs toMs) in *.
  set (raw := filter isValid
                (map (fun r => mkInterval (a_startUtc r) (a_endUtc r)) rows)) in *.
  destruct (@routeMerge_spec raw (filter_isValid_wellFormed _))
    as (Hw & Hs & Hc).
  fold (AvailabilityEvents.mergeIntervals raw) in Hw, Hs, Hc.
  exists rows. eexists. split; [now apply GET_atomic|].
  split; [rewrite Hg, length_map; reflexivity|].
  split; [intros r; apply selectRows_In|].
  split; [apply cmpStartUtc_sorted|].
  split; [now apply events_canonical|].
  intros u. rewrite events_covered, Hc. apply rows_covered.
Qed.

Lemma calendar_views_agree_witness :
  exists rows events,
    AvailabilityEvents.GET FreeSlotExample.store
      (ownView 7 FreeSlotExample.day (FreeSlotExample.day + 86400000) "atomic")
    = AvailabilityEvents.Rows rows
    /\ AvailabilityEvents.GET FreeSlotExample.store
         (ownView 7 FreeSlotExample.day (FreeSlotExample.day + 86400000) "merged")
       = AvailabilityEvents.Events 7 (Z.of_nat (List.length events)) events
    /\ (forall r, In r rows
          <-> In r (teacherAvailability FreeSlotExample.store)
              /\ AvailabilityEvents.overlapping 7 FreeSlotExample.day
                   (FreeSlotExample.day + 86400000) r = true)
    /\ StronglySorted (fun a b => a_startUtc a <= a_startUtc b) rows
    /\ eventsCanonical 7 events
    /\ (forall u, (exists e, In e events /\ inEvent e u)
                  <-> (exists r, In r rows /\ inRow r u)).
Proof.
  apply calendar_views_agree; [reflexivity | discriminate].
Defined.

Example calendar_merges_adjacent_rows :
  AvailabilityEvents.GET FreeSlotExample.store
    (ownView 7 FreeSlotExample.day (FreeSlotExample.day + 86400000) "merged")
  = AvailabilityEvents.Events 7 1
      [AvailabilityEvents.mkEvent 7 (FreeSlotExample.day + 14400000)
                                  (FreeSlotExample.day + 18000000)].
Proof. reflexivity. Qed.

Section CalendarDelete.
Import AvailabilityEvents.

Lemma overlapping_narrow teacherId fromMs toMs f t r :
  fromMs <= f -> t <= toMs ->
  overlapping teacherId f t r = true ->
  overlapping teacherId fromMs toMs r = true.
Proof.
  unfold overlapping. intros Hf Ht.
  rewrite !andb_true_iff, !Z.ltb_lt, !Z.gtb_ltb, !Z.ltb_lt. lia.
Qed.

Lemma deleteRange_spec s teacherId fromMs toMs :
  let '(n, s') := deleteRange s teacherId fromMs toMs in
  n = Z.of_nat (List.length (teacherAvailability s))
      - Z.of_nat (List.length (teacherAvailability s'))
  /\ (forall r, In r (teacherAvailability s')
        <-> In r (teacherAvailability s)
            /\ overlapping teacherId fromMs toMs r = false)
  /\ bookings s' = bookings s.
Proof.
  unfold deleteRange. cbn [setAvailability teacherAvailability bookings].
  split; [|split; [|reflexivity]].
  - pose proof (filter_length (overlapping teacherId fromMs toMs)
                              (teacherAvailability s)). lia.
  - intros r. now rewrite filter_In, negb_true_iff.
Qed.

(** Once a range is deleted, a query inside it finds nothing. *)
Lemma GET_after_delete s s' teacherId fromMs toMs f t mode :
  (forall r, In r (teacherAvailability s')
     <-> In r (teacherAvailability s)
         /\ overlapping teacherId fromMs toMs r = false) ->
  fromMs <= f -> f < t -> t <= toMs ->
  GET s' (ownView teacherId f t mode)
  = if String.eqb mode "atomic" then Rows [] else Events teacherId 0 [].
Proof.
  intros Hs' Hf Hft Ht.
  assert (Hnone : selectRows s' teacherId f t = []).
  { unfold selectRows. rewrite filter_none; [reflexivity|].
    apply Forall_forall. intros r Hr. apply Hs' in Hr. destruct Hr as [_ Hr].
    apply not_true_iff_false. intros Ho.
    apply (@overlapping_narrow teacherId fromMs toMs f t r Hf Ht) in Ho.
    congruence. }
  unfold GET, ownView. cbn [rq_userId rq_teacherId rq_from rq_to rq_mode].
  rewrite Z.eqb_refl. cbn [negb].
  destruct (t <=? f) eqn:E; [apply Z.leb_le in E; lia|].
  rewrite Hnone. destruct (String.eqb mode "atomic"); reflexivity.
Qed.

End CalendarDelete.

(** X19. Deleting a range of the calendar, given by a merged event id or
    by [from] and [to], removes exactly the teacher's rows that overlap
    the range and keeps every other row; the answer reports the number of
    rows removed; bookings are not touched; and afterwards a query of the
    teacher for any window inside the range finds nothing, in either
    view. *)
Theorem calendar_delete_range (s : Db) (rq : AvailabilityEvents.DeleteRequest)
        (teacherId fromMs toMs : Z) :
  fromMs < toMs ->
  AvailabilityEvents.dq_userId rq = Some teacherId ->
  AvailabilityEvents.dq_teacherId rq = Some teacherId ->
  AvailabilityEvents.dq_id rq = None ->
  (AvailabilityEvents.dq_eventId rq
   = Some (AvailabilityEvents.Parts (Some teacherId) (Some fromMs) (Some toMs))
   \/ (AvailabilityEvents.dq_eventId rq = None
       /\ AvailabilityEvents.dq_from rq = Some fromMs
       /\ AvailabilityEvents.dq_to rq = Some toMs)) ->
  exists mode s',
    AvailabilityEvents.DELETE rq s
    = (Ok (AvailabilityEvents.Deleted
             (Z.of_nat (List.length (teacherAvailability s))
              - Z.of_nat (List.length (teacherAvailability s'))) mode), s')
    /\ (forall r, In r (teacherAvailability s')
          <-> In r (teacherAvailability s)
              /\ AvailabilityEvents.overlapping teacherId fromMs toMs r = false)
    /\ bookings s' = bookings s
    /\ (forall f t m, fromMs <= f -> f < t -> t <= toMs ->
          AvailabilityEvents.GET s' (ownView teacherId f t m)
          = if String.eqb m "atomic" then AvailabilityEvents.Rows []
            else AvailabilityEvents.Events teacherId 0 []).
Proof.
  intros Hr Hu Ht Hid Hsel.
  pose proof (deleteRange_spec s teacherId fromMs toMs) as Hd.
  assert (Hgo : forall mode,
    let '(n, s') := AvailabilityEvents.deleteRange s teacherId fromMs toMs in
    AvailabilityEvents.DELETE rq s = (Ok (AvailabilityEvents.Deleted n mode), s') ->
    exists mode s',
      AvailabilityEvents.DELETE rq s
      = (Ok (AvailabilityEvents.Deleted
               (Z.of_nat (List.length (teacherAvailability s))
                - Z.of_nat (List.length (teacherAvailability s'))) mode), s')
      /\ (forall r, In r (teacherAvailability s')
            <-> In r (teacherAvailability s)
                /\ AvailabilityEvents.overlapping teacherId fromMs toMs r = false)
      /\ bookings s' = bookings s
      /\ (forall f t m, fromMs <= f -> f < t -> t <= toMs ->
            AvailabilityEvents.GET s' (ownView teacherId f t m)
            = if String.eqb m "atomic" then AvailabilityEvents.Rows []
              else AvailabilityEvents.Events teacherId 0 [])).
  { intros mode.
    destruct (AvailabilityEvents.deleteRange s teacherId fromMs toMs) as [n s'].
    destruct Hd as (Hn & Hrows & Hb). intros Hdel.
    exists mode, s'. rewrite Hdel, Hn.
    split; [reflexivity|]. split; [exact Hrows|]. split; [exact Hb|].
    intros f t m Hf Hft Htt. now apply (@GET_after_delete s s' teacherId fromMs toMs). }
  assert (Hlt : (toMs <=? fromMs) = false) by (apply Z.leb_gt; lia).
  destruct Hsel as [He | (He & Hfrom & Hto)].
  - specialize (Hgo "eventId"%string).
    destruct (AvailabilityEvents.deleteRange s teacherId fromMs toMs)
      as [n s'] eqn:Edel.
    apply Hgo. unfold AvailabilityEvents.DELETE.
    rewrite Hu, Ht, Hid, He, Z.eqb_refl.
    cbn [negb AvailabilityEvents.parseMergedEventId]. rewrite Hlt.
    cbn [AvailabilityEvents.p_teacherId AvailabilityEvents.p_from
         AvailabilityEvents.p_to].
    rewrite Z.eqb_refl. cbn [negb]. now rewrite Edel.
  - specialize (Hgo "range"%string).
    destruct (AvailabilityEvents.deleteRange s teacherId fromMs toMs)
      as [n s'] eqn:Edel.
    apply Hgo. unfold AvailabilityEvents.DELETE.
    rewrite Hu, Ht, Hid, He, Hfrom, Hto, Z.eqb_refl. cbn [negb].
    now rewrite Hlt, Edel.
Qed.

Lemma calendar_delete_range_witness :
  exists mode s',
    AvailabilityEvents.DELETE
      (AvailabilityEvents.mkDelete (Some 7) (Some 7) None None
         (Some (FreeSlotExample.day + 14400000))
         (Some (FreeSlotExample.day + 16200000)))
      FreeSlotExample.store
    = (Ok (AvailabilityEvents.Deleted
             (Z.of_nat (List.length (teacherAvailability FreeSlotExample.store))
              - Z.of_nat (List.length (teacherAvailability s'))) mode), s')
    /\ (forall r, In r (teacherAvailability s')
          <-> In r (teacherAvailability FreeSlotExample.store)
              /\ AvailabilityEvents.overlapping 7
                   (FreeSlotExample.day + 14400000)
                   (FreeSlotExample.day + 16200000) r = false)
    /\ bookings s' = bookings FreeSlotExample.store
    /\ (forall f t m,
          FreeSlotExample.day + 14400000 <= f -> f < t ->
          t <= FreeSlotExample.day + 16200000 ->
          AvailabilityEvents.GET s' (ownView 7 f t m)
          = if String.eqb m "atomic" then AvailabilityEvents.Rows []
            else AvailabilityEvents.Events 7 0 []).
Proof.
  apply calendar_delete_range; try reflexivity.
  right. repeat split.
Defined.

(** X20. A calendar delete never reaches beyond the signed-in teacher:
    whatever the parameters, the rows left are the rows found with some
    of them removed, in the same order, no row of any teacher other than
    the signed-in user is removed, bookings and offers are not touched,
    and a request refused by the database leaves the store as it was. *)
Theorem calendar_delete_own_rows_only
        (rq : AvailabilityEvents.DeleteRequest) (s : Db) :
  let s' := snd (AvailabilityEvents.DELETE rq s) in
  (exists keep,
     teacherAvailability s' = filter keep (teacherAvailability s)
     /\ forall r, AvailabilityEvents.dq_userId rq <> Some (a_teacherId r) ->
                  keep r = true)
  /\ bookings s' = bookings s
  /\ lessonOffers s' = lessonOffers s
  /\ (forall msg, fst (AvailabilityEvents.DELETE rq s) = Throw msg -> s' = s).
Proof.
  cbv zeta.
  assert (Hsame : (exists keep : Availability -> bool,
            teacherAvailability s = filter keep (teacherAvailability s)
            /\ forall r, AvailabilityEvents.dq_userId rq <> Some (a_teacherId r) ->
                         keep r = true)
          /\ bookings s = bookings s /\ lessonOffers s = lessonOffers s).
  { split; [|split; reflexivity]. exists (fun _ => true). split; [|reflexivity].
    symmetry. apply filter_all. apply Forall_forall. reflexivity. }
  unfold AvailabilityEvents.DELETE.
  destruct (AvailabilityEvents.dq_userId rq) as [userId|] eqn:Eu;
    [|cbn [fst snd]; intuition discriminate].
  destruct (AvailabilityEvents.dq_teacherId rq) as [teacherId|];
    [|cbn [fst snd]; intuition discriminate].
  destruct (userId =? teacherId) eqn:Eut; cbn [negb];
    [|cbn [fst snd]; intuition discriminate].
  apply Z.eqb_eq in Eut. subst userId.
  assert (Hrange : forall fromMs toMs mode,
    let '(n, s') := AvailabilityEvents.deleteRange s teacherId fromMs toMs in
    (exists keep,
       teacherAvailability (snd (@Ok AvailabilityEvents.DeleteResponse
                                   (AvailabilityEvents.Deleted n mode), s'))
       = filter keep (teacherAvailability s)
       /\ forall r, Some teacherId <> Some (a_teacherId r) -> keep r = true)
    /\ bookings s' = bookings s /\ lessonOffers s' = lessonOffers s).
  { intros fromMs toMs mode. unfold AvailabilityEvents.deleteRange.
    cbn [snd setAvailability teacherAvailability bookings lessonOffers].
    split; [|split; reflexivity]. eexists. split; [reflexivity|].
    intros r Hr. cbv beta. apply negb_true_iff.
    unfold AvailabilityEvents.overlapping.
    destruct (a_teacherId r =? teacherId) eqn:E; [|reflexivity].
    apply Z.eqb_eq in E. congruence. }
  destruct (AvailabilityEvents.dq_id rq) as [n|].
  - destruct n as [z| | |]; try solve [cbn [fst snd]; intuition discriminate].
    destruct (Webhook.pgInteger (Webhook.Int z)) as [id|msg];
      [|cbn [fst snd]; intuition discriminate].
    cbn [fst snd AvailabilityEvents.deleteById setAvailability
         teacherAvailability bookings lessonOffers].
    split; [|split; [reflexivity | split; [reflexivity | discriminate]]].
    eexists. split; [reflexivity|]. intros r Hr. cbv beta.
    apply negb_true_iff.
    destruct (a_teacherId r =? teacherId) eqn:E; [|reflexivity].
    apply Z.eqb_eq in E. congruence.
  - destruct (AvailabilityEvents.dq_eventId rq) as [eventId|].
    + destruct (AvailabilityEvents.parseMergedEventId eventId) as [parsed|];
        [|cbn [fst snd]; intuition discriminate].
      destruct (negb (AvailabilityEvents.p_teacherId parsed =? teacherId));
        [cbn [fst snd]; intuition discriminate|].
      specialize (Hrange (AvailabilityEvents.p_from parsed)
                         (AvailabilityEvents.p_to parsed) "eventId"%string).
      destruct (AvailabilityEvents.deleteRange s teacherId _ _) as [n s'].
      cbn [fst snd] in *. intuition discriminate.
    + destruct (AvailabilityEvents.dq_from rq) as [fromMs|],
               (AvailabilityEvents.dq_to rq) as [toMs|];
        try solve [cbn [fst snd]; intuition discriminate].
      destruct (toMs <=? fromMs); [cbn [fst snd]; intuition discriminate|].
      specialize (Hrange fromMs toMs "range"%string).
      destruct (AvailabilityEvents.deleteRange s teacherId _ _) as [n s'].
      cbn [fst snd] in *. intuition discriminate.
Qed.

Section DeleteEvent.
Import AvailabilityEvents.

Lemma separated_In l a b :
  separated l -> In a l -> In b l -> a = b \/ before a b \/ before b a.
Proof.
  intros Hs. apply ForallOrdPairs_In.
  eapply StronglySorted_pairs; [|exact Hs]. auto.
Qed.

(** A non-empty interval covered by a canonical list lies inside one
    of its blocks. *)
Lemma within_one_block l i :
  Forall wellFormed l -> separated l -> wellFormed i ->
  (forall t, covers i t -> covered l t) ->
  exists b, In b l /\ startMs b <= startMs i /\ endMs i <= endMs b.
Proof.
  intros Hw Hs Hi Hall. unfold wellFormed in Hi.
  destruct (Hall (startMs i)) as (b & Hb & Hbs); [unfold covers; lia|].
  exists b. split; [exact Hb|]. unfold covers in Hbs. split; [lia|].
  destruct (Z.le_gt_cases (endMs i) (endMs b)) as [Hle | Hgt]; [exact Hle|].
  exfalso.
  destruct (Hall (endMs b)) as (b' & Hb' & Hbs'); [unfold covers; lia|].
  unfold covers in Hbs'.
  rewrite Forall_forall in Hw. pose proof (Hw b Hb) as Hwb.
  unfold wellFormed in Hwb.
  destruct (@separated_In l b b' Hs Hb Hb') as [-> | [H | H]];
    unfold before in *; lia.
Qed.

Lemma separated_split before0 m after :
  separated (before0 ++ m :: after) ->
  separated (before0 ++ after)
  /\ (forall x, In x (before0 ++ after) -> before x m \/ before m x).
Proof.
  induction before0 as [|y l IH]; cbn [app]; intros Hs.
  - inversion Hs as [|? ? Hs' Hm]; subst. split; [exact Hs'|].
    intros x Hx. right. rewrite Forall_forall in Hm. now apply Hm.
  - inversion Hs as [|? ? Hs' Hy]; subst.
    destruct (IH Hs') as [H1 H2]. rewrite Forall_forall in Hy. split.
    + constructor; [exact H1|]. apply Forall_forall. intros x Hx.
      apply Hy. apply in_app_or in Hx. apply in_or_app.
      destruct Hx; [now left | right; now right].
    + intros x [<- | Hx]; [|now apply H2].
      left. apply Hy. apply in_or_app. right. now left.
Qed.

End DeleteEvent.

(** X21. Deleting an event of the merged view removes that event and no
    other.  When the teacher's merged view of a range lists the event
    [e], the delete addressed by the id of [e] succeeds, and the merged
    view of the same range afterwards lists the same events without
    [e], one fewer.  (The id is read back by [parseMergedEventId] as the
    three values it was formatted from; its pattern asks for a teacher id
    written in digits.) *)
Theorem delete_event_removes_it
        (s : Db) (teacherId fromMs toMs n : Z) (mode : string)
        (events : list AvailabilityEvents.Event) (e : AvailabilityEvents.Event) :
  0 <= teacherId ->
  fromMs < toMs -> mode <> "atomic"%string ->
  AvailabilityEvents.GET s (ownView teacherId fromMs toMs mode)
  = AvailabilityEvents.Events teacherId n events ->
  In e events ->
  exists k s' before after,
    AvailabilityEvents.DELETE
      (AvailabilityEvents.mkDelete (Some teacherId) (Some teacherId) None
         (Some (AvailabilityEvents.Parts
                  (Some (AvailabilityEvents.ev_teacherId e))
                  (Some (AvailabilityEvents.ev_start e))
                  (Some (AvailabilityEvents.ev_end e))))
         None None) s
    = (Ok (AvailabilityEvents.Deleted k "eventId"), s')
    /\ events = before ++ e :: after
    /\ AvailabilityEvents.GET s' (ownView teacherId fromMs toMs mode)
       = AvailabilityEvents.Events teacherId (n - 1) (before ++ after).
Proof.
  intros _ Hr Hm Hget He.
  rewrite (@GET_merged s teacherId fromMs toMs mode Hr Hm) in Hget.
  set (toI := fun r : Availability => mkInterval (a_startUtc r) (a_endUtc r)) in *.
  set (toE := fun m : Interval =>
                AvailabilityEvents.mkEvent teacherId (startMs m) (endMs m)) in *.
  set (raw := filter isValid
                (map toI (AvailabilityEvents.selectRows s teacherId fromMs toMs)))
    in *.
  assert (Hrc : forall rows u,
            covered (filter isValid (map toI rows)) u
            <-> exists r, In r rows /\ inRow r u)
    by (intros; apply rows_covered).
  destruct (@routeMerge_spec raw (filter_isValid_wellFormed _))
    as (Hw & Hs & Hc).
  fold (AvailabilityEvents.mergeIntervals raw) in Hw, Hs, Hc.
  set (merged := AvailabilityEvents.mergeIntervals raw) in *.
  injection Hget as Hn Hev. subst events.
  apply in_map_iff in He. destruct He as (M & <- & HM).
  destruct (in_split M merged HM) as (b0 & a0 & Hsplit).
  assert (HwM : startMs M < endMs M).
  { rewrite Forall_forall in Hw. specialize (Hw M HM).
    unfold wellFormed in Hw. lia. }
  pose proof (deleteRange_spec s teacherId (startMs M) (endMs M)) as Hd.
  destruct (AvailabilityEvents.deleteRange s teacherId (startMs M) (endMs M))
    as [k s'] eqn:Edel.
  destruct Hd as (_ & Hrows & _).
  exists k, s', (map toE b0), (map toE a0).
  split; [|split].
  - unfold AvailabilityEvents.DELETE.
    cbn [AvailabilityEvents.dq_userId AvailabilityEvents.dq_teacherId
         AvailabilityEvents.dq_id AvailabilityEvents.dq_eventId
         AvailabilityEvents.parseMergedEventId toE
         AvailabilityEvents.ev_teacherId AvailabilityEvents.ev_start
         AvailabilityEvents.ev_end].
    rewrite Z.eqb_refl. cbn [negb].
    destruct (endMs M <=? startMs M) eqn:E; [apply Z.leb_le in E; lia|].
    cbn [AvailabilityEvents.p_teacherId AvailabilityEvents.p_from
         AvailabilityEvents.p_to].
    rewrite Z.eqb_refl. cbn [negb]. now rewrite Edel.
  - rewrite Hsplit, map_app. reflexivity.
  - rewrite (@GET_merged s' teacherId fromMs toMs mode Hr Hm).
    fold toI. fold toE.
    set (raw' := filter isValid
                   (map toI (AvailabilityEvents.selectRows s' teacherId fromMs toMs))).
    destruct (@routeMerge_spec raw' (filter_isValid_wellFormed _))
      as (Hw' & Hs' & Hc').
    fold (AvailabilityEvents.mergeIntervals raw') in Hw', Hs', Hc'.
    assert (Hrest : Forall wellFormed (b0 ++ a0) /\ separated (b0 ++ a0)
                    /\ forall x, In x (b0 ++ a0) -> before x M \/ before M x).
    { rewrite Hsplit in Hw, Hs. destruct (separated_split _ _ _ Hs) as [H1 H2].
      split; [|split; assumption].
      apply Forall_app in Hw. destruct Hw as [Hwb Hwa].
      inversion Hwa; subst. now apply Forall_app. }
    destruct Hrest as (Hwr & Hsr & Hapart).
    assert (Hin_rest : forall x, In x merged <-> x = M \/ In x (b0 ++ a0)).
    { intros x. rewrite Hsplit, !in_app_iff. cbn [In]. intuition congruence. }
    assert (Heq : AvailabilityEvents.mergeIntervals raw' = b0 ++ a0).
    { apply canonical_unique; try assumption.
      intros u. rewrite Hc'. unfold raw'. rewrite Hrc. split.
      - intros (r & Hr' & Hu). apply selectRows_In in Hr'.
        destruct Hr' as [Hr' Hov]. apply Hrows in Hr'.
        destruct Hr' as [Hin Hkeep].
        assert (Hcm : covered merged u).
        { apply Hc. unfold raw. apply Hrc. exists r.
          split; [|exact Hu]. apply selectRows_In. auto. }
        destruct Hcm as (x & Hx & Hxu). apply Hin_rest in Hx.
        destruct Hx as [-> | Hx]; [|exists x; auto].
        exfalso. unfold covers in Hxu. unfold inRow in Hu.
        assert (AvailabilityEvents.overlapping teacherId (startMs M) (endMs M) r
                = true); [|congruence].
        unfold AvailabilityEvents.overlapping in *.
        rewrite !andb_true_iff in *. rewrite Z.ltb_lt, Z.gtb_ltb, Z.ltb_lt.
        split; [split; [tauto | lia] | lia].
      - intros (x & Hx & Hxu).
        assert (Hcm : covered merged u).
        { exists x. split; [apply Hin_rest; now right | exact Hxu]. }
        apply Hc in Hcm. unfold raw in Hcm. apply Hrc in Hcm.
        destruct Hcm as (r & Hr' & Hu). exists r. split; [|exact Hu].
        apply selectRows_In in Hr'. destruct Hr' as [Hin Hov].
        apply selectRows_In. split; [|exact Hov]. apply Hrows.
        split; [exact Hin|]. apply not_true_iff_false. intros Hdel.
        destruct (@within_one_block merged (toI r) Hw Hs) as (B & HB & HB1 & HB2).
        { unfold wellFormed, toI. cbn. unfold inRow in Hu. lia. }
        { intros t Ht. apply Hc. unfold raw. apply Hrc.
          exists r. split; [apply selectRows_In; auto | exact Ht]. }
        unfold AvailabilityEvents.overlapping in Hdel.
        rewrite !andb_true_iff, Z.ltb_lt, Z.gtb_ltb, Z.ltb_lt in Hdel.
        cbn [toI startMs endMs] in HB1, HB2.
        unfold covers in Hxu. unfold inRow in Hu.
        destruct (Hapart x Hx) as [HxM | HMx]; unfold before in *.
        + apply Hin_rest in HB. destruct HB as [-> | HB]; [lia|].
          destruct (@separated_In merged B x Hs) as [-> | [H | H]];
            try (apply Hin_rest; now right); unfold before in *; lia.
        + apply Hin_rest in HB. destruct HB as [-> | HB]; [lia|].
          destruct (@separated_In merged B x Hs) as [-> | [H | H]];
            try (apply Hin_rest; now right); unfold before in *; lia. }
    rewrite Heq, map_app. f_equal. rewrite <- Hn. fold merged.
    rewrite Hsplit, !length_app. cbn [List.length]. lia.
Qed.

Lemma delete_event_removes_it_witness :
  exists k s' before after,
    AvailabilityEvents.DELETE
      (AvailabilityEvents.mkDelete (Some 7) (Some 7) None
         (Some (AvailabilityEvents.Parts
                  (Some 7) (Some (FreeSlotExample.day + 14400000))
                  (Some (FreeSlotExample.day + 18000000))))
         None None) FreeSlotExample.store
    = (Ok (AvailabilityEvents.Deleted k "eventId"), s')
    /\ [AvailabilityEvents.mkEvent 7 (FreeSlotExample.day + 14400000)
                                   (FreeSlotExample.day + 18000000)]
       = before
         ++ AvailabilityEvents.mkEvent 7 (FreeSlotExample.day + 14400000)
                                      (FreeSlotExample.day + 18000000)
         :: after
    /\ AvailabilityEvents.GET s'
         (ownView 7 FreeSlotExample.day (FreeSlotExample.day + 86400000) "merged")
       = AvailabilityEvents.Events 7 (1 - 1) (before ++ after).
Proof.
  apply (@delete_event_removes_it FreeSlotExample.store 7 FreeSlotExample.day
           (FreeSlotExample.day + 86400000) 1 "merged"
           [AvailabilityEvents.mkEvent 7 (FreeSlotExample.day + 14400000)
                                       (FreeSlotExample.day + 18000000)]
           (AvailabilityEvents.mkEvent 7 (FreeSlotExample.day + 14400000)
                                       (FreeSlotExample.day + 18000000)));
    try reflexivity.
  - lia.
  - discriminate.
  - now left.
Defined.

(** X22. Deleting one row by id removes the row with that id if it
    belongs to the signed-in teacher, and nothing else; the [id]
    parameter takes precedence over [eventId], [from] and [to]; and the
    answer reports one deleted row whether or not a row was there. *)
Theorem calendar_delete_by_id
        (s : Db) (rq : AvailabilityEvents.DeleteRequest) (teacherId id : Z) :
  -2147483648 <= id <= 2147483647 ->
  AvailabilityEvents.dq_userId rq = Some teacherId ->
  AvailabilityEvents.dq_teacherId rq = Some teacherId ->
  AvailabilityEvents.dq_id rq = Some (Webhook.Int id) ->
  exists s',
    AvailabilityEvents.DELETE rq s
    = (Ok (AvailabilityEvents.Deleted 1 "atomic"), s')
    /\ (forall r, In r (teacherAvailability s')
          <-> In r (teacherAvailability s)
              /\ ~ (a_teacherId r = teacherId /\ a_id r = id))
    /\ ((forall r, In r (teacherAvailability s) ->
           ~ (a_teacherId r = teacherId /\ a_id r = id)) -> s' = s).
Proof.
  intros Hid Hu Ht Hi. unfold AvailabilityEvents.DELETE.
  rewrite Hu, Ht, Hi, Z.eqb_refl. cbn [negb Webhook.pgInteger].
  destruct (-2147483648 <=? id) eqn:E1; [|apply Z.leb_gt in E1; lia].
  destruct (id <=? 2147483647) eqn:E2; [|apply Z.leb_gt in E2; lia].
  cbn [andb]. eexists. split; [reflexivity|]. split.
  - intros r. unfold AvailabilityEvents.deleteById.
    cbn [setAvailability teacherAvailability].
    rewrite filter_In, negb_true_iff, <- not_true_iff_false.
    now rewrite andb_true_iff, !Z.eqb_eq.
  - intros Hnone. unfold AvailabilityEvents.deleteById, setAvailability.
    rewrite filter_all; [now destruct s|].
    apply Forall_forall. intros r Hr. apply negb_true_iff.
    apply not_true_iff_false. rewrite andb_true_iff, !Z.eqb_eq.
    now apply Hnone.
Qed.

Lemma calendar_delete_by_id_witness :
  exists s',
    AvailabilityEvents.DELETE
      (AvailabilityEvents.mkDelete (Some 7) (Some 7) (Some (Webhook.Int 1))
         None None None) FreeSlotExample.store
    = (Ok (AvailabilityEvents.Deleted 1 "atomic"), s')
    /\ (forall r, In r (teacherAvailability s')
          <-> In r (teacherAvailability FreeSlotExample.store)
              /\ ~ (a_teacherId r = 7 /\ a_id r = 1))
    /\ ((forall r, In r (teacherAvailability FreeSlotExample.store) ->
           ~ (a_teacherId r = 7 /\ a_id r = 1)) -> s' = FreeSlotExample.store).
Proof.
  apply calendar_delete_by_id; try reflexivity. lia.
Defined.

(** ** Direct bookings *)

Import BookingSpec.

Section BookingFacts.
Import Bookings.




End BookingFacts.





(** A range of 30 minutes and 20 seconds is booked as 30 minutes. *)
Example bookings_post_rounds_duration :
  fst (Bookings.POST BookingExample.request BookingExample.store)
  = Bookings.Created 1 30 3000 "EUR".
Proof. reflexivity. Qed.



(** ** From the list of free slots to the checkout *)

Import InventorySpec.

Section ListedSlots.
Import Checkout.

Lemma requiredStarts_In start d c :
  In c (requiredStarts start d) ->
  c = start \/ (d = 60 /\ c = start + minutes GRID_MINUTES).
Proof.
  unfold requiredStarts. intros [<- | H]; [now left|].
  destruct (d =? 60) eqn:E; [|destruct H].
  apply Z.eqb_eq in E. destruct H as [<- | []]. now right.
Qed.

(** A read that finds a row for every required start, on a store with
    unique starts, finds exactly as many rows as required. *)
Lemma matchingRows_complete s teacherId starts :
  uniqueStarts s -> NoDup starts ->
  (forall c, In c starts ->
     exists r, In r (teacherAvailability s)
       /\ a_teacherId r = teacherId /\ a_startUtc r = c) ->
  List.length (matchingRows s teacherId starts) = List.length starts.
Proof.
  intros Hu Hnd Hall.
  rewrite <- (length_map a_startUtc). apply Permutation_length.
  apply NoDup_Permutation; [|exact Hnd|].
  - apply NoDup_map_inv with (f := fun d => (teacherId, d)).
    rewrite map_map.
    assert (E : map (fun r => (teacherId, a_startUtc r))
                    (matchingRows s teacherId starts)
                = map (fun r => (a_teacherId r, a_startUtc r))
                      (matchingRows s teacherId starts)).
    { apply map_ext_in. intros r Hr. apply matchingRows_In in Hr.
      destruct Hr as (_ & -> & _). reflexivity. }
    rewrite E. unfold matchingRows. now apply NoDup_map_filter.
  - intros c. rewrite in_map_iff. split.
    + intros (r & <- & Hr). now apply matchingRows_In in Hr.
    + intros Hc. destruct (Hall c Hc) as (r & Hr & Ht & Hs).
      exists r. split; [exact Hs|]. apply matchingRows_In. rewrite Hs. auto.
Qed.

(** When the offer is there and the rows are, the transaction commits. *)
Lemma checkoutTx_commits env user teacherId start d s offer :
  providerAnswers env ->
  findOffer s teacherId d = Some offer ->
  List.length (matchingRows s teacherId (requiredStarts start d))
  = List.length (requiredStarts start d) ->
  Forall (fun r => a_endUtc r - a_startUtc r = minutes GRID_MINUTES)
         (matchingRows s teacherId (requiredStarts start d)) ->
  exists url s', checkoutTx env user teacherId start d s = Ok (url, s').
Proof.
  intros Hp Hoff Hlen Hat. unfold checkoutTx. rewrite Hoff, Hlen, Nat.eqb_refl.
  cbn [negb].
  assert (Hna : existsb notAtomic
                  (matchingRows s teacherId (requiredStarts start d)) = false).
  { apply not_true_iff_false. intros H. apply existsb_exists in H.
    destruct H as (r & Hr & Hn). rewrite Forall_forall in Hat.
    specialize (Hat r Hr). unfold notAtomic in Hn.
    apply negb_true_iff, Z.eqb_neq in Hn. contradiction. }
  rewrite Hna. cbn [insertBooking].
  destruct Hp as [Hp | Hp].
  - rewrite Hp. eauto.
  - destruct (STRIPE_DISABLED env); [eauto|].
    match goal with
    | |- context [stripeCreate env ?b] => destruct (Hp b) as (c & ->)
    end.
    cbn [bind]. eauto.
Qed.

End ListedSlots.

(** X26. What the free-slot list shows can be bought.  On an availability
    table of grid-aligned 30-minute rows with unique starts, every slot
    listed for a teacher with active offers whose start is on the
    30-minute grid and whose duration is 30 or 60 minutes is accepted by
    the checkout of any signed-in user, provided the payment provider
    answers. *)
Theorem listed_slot_can_be_checked_out
        (s : Db) (rq : FreeSlots.Request) (teacherId fromMs toMs n : Z)
        (durs : list Z) (slots : list Slot) (sl : Slot)
        (env : Checkout.Env) (user : Checkout.User) :
  inventoryOk s ->
  activeDurations s teacherId <> [] ->
  GET s rq = Some (Slots teacherId fromMs toMs durs n slots) ->
  In sl slots ->
  onHalfHour (slotStartUtc sl) ->
  durationMinutes sl = 30 \/ durationMinutes sl = 60 ->
  Checkout.u_id user <> 0 ->
  providerAnswers env ->
  exists url s',
    Checkout.POST env (requestFor user teacherId sl) s
    = (Checkout.CheckoutUrl url, s').
Proof.
  intros [Hal Hu] Hact Hget Hin Hgrid Hd Hnz Hprov.
  destruct (@GET_slot_sound s rq teacherId fromMs toMs durs n slots sl Hget Hin)
    as (_ & (_ & Hend) & Hdur & Hrows).
  specialize (Hdur Hact).
  set (start := slotStartUtc sl) in *. set (d := durationMinutes sl) in *.
  (* the offer *)
  assert (Hoff : exists offer, Checkout.findOffer s teacherId d = Some offer).
  { unfold activeDurations in Hdur. apply in_map_iff in Hdur.
    destruct Hdur as (o & Hod & Ho). apply filter_In in Ho.
    destruct Ho as [Ho Hp]. apply andb_true_iff in Hp. destruct Hp as [Ht Ha].
    unfold Checkout.findOffer.
    destruct (find _ (lessonOffers s)) as [offer|] eqn:E; [eauto|].
    exfalso. apply (find_none _ _ E) in Ho.
    rewrite Ht, Ha, Hod, Z.eqb_refl in Ho. discriminate. }
  destruct Hoff as (offer & Hoff).
  (* a row at every required start *)
  assert (Hall : forall c, In c (Checkout.requiredStarts start d) ->
            exists r, In r (teacherAvailability s)
              /\ a_teacherId r = teacherId /\ a_startUtc r = c).
  { intros c Hc. apply requiredStarts_In in Hc.
    assert (Hcin : start <= c < slotEndUtc sl /\ onHalfHour c).
    { unfold onHalfHour in *. unfold minutes, GRID_MINUTES in *.
      destruct Hc as [-> | [Hd60 ->]].
      - split; [destruct Hd as [Hd | Hd]; lia | exact Hgrid].
      - split; [lia|].
        rewrite <- Zplus_mod_idemp_r, Z_mod_same_full, Z.add_0_r. exact Hgrid. }
    destruct Hcin as [Hcin Hcg].
    destruct (Hrows c Hcin) as (r & Hr & Ht & Hcov).
    exists r. split; [exact Hr|]. split; [exact Ht|].
    rewrite Forall_forall in Hal. destruct (Hal r Hr) as [Hrg Hre].
    unfold onHalfHour, minutes, GRID_MINUTES in *.
    pose proof (Z.div_mod (a_startUtc r) (30 * 60000) ltac:(lia)) as H1.
    pose proof (Z.div_mod c (30 * 60000) ltac:(lia)) as H2.
    rewrite Hrg in H1. rewrite Hcg in H2. nia. }
  pose proof (@matchingRows_complete s teacherId (Checkout.requiredStarts start d)
                Hu (requiredStarts_NoDup start d) Hall) as Hlen.
  assert (Hat : Forall (fun r => a_endUtc r - a_startUtc r = minutes GRID_MINUTES)
                  (Checkout.matchingRows s teacherId
                     (Checkout.requiredStarts start d))).
  { apply Forall_forall. intros r Hr. apply matchingRows_In in Hr.
    destruct Hr as (Hr & _). rewrite Forall_forall in Hal.
    destruct (Hal r Hr) as [_ ->]. lia. }
  destruct (@checkoutTx_commits env user teacherId start d s offer
              Hprov Hoff Hlen Hat) as (url & s' & Htx).
  exists url, s'. unfold Checkout.POST, requestFor.
  cbn [Checkout.rq_user Checkout.rq_teacherId Checkout.rq_startUtc
       Checkout.rq_durationMinutes].
  apply Z.eqb_neq in Hnz. rewrite Hnz. fold start. fold d.
  assert (Hinc : includes [30; 60] d = true)
    by (destruct Hd as [-> | ->]; reflexivity).
  rewrite Hinc. cbn [negb]. unfold transaction. now rewrite Htx.
Qed.

Lemma listed_slot_can_be_checked_out_witness :
  exists url s',
    Checkout.POST CheckoutExample.env
      (requestFor CheckoutExample.student 7
         (mkSlot (CheckoutExample.day + 14400000)
                 (CheckoutExample.day + 16200000) 30))
      CheckoutExample.store
    = (Checkout.CheckoutUrl url, s').
Proof.
  apply (@listed_slot_can_be_checked_out CheckoutExample.store
           (FreeSlots.mkRequest (Some 7) (Some CheckoutExample.day)
                                (Some (CheckoutExample.day + 86400000)))
           7 CheckoutExample.day (CheckoutExample.day + 86400000) 1
           [30; 60]
           [mkSlot (CheckoutExample.day + 14400000)
                   (CheckoutExample.day + 16200000) 30]
           (mkSlot (CheckoutExample.day + 14400000)
                   (CheckoutExample.day + 16200000) 30)
           CheckoutExample.env CheckoutExample.student).
  - split.
    + repeat constructor.
    + unfold uniqueStarts. simpl. repeat constructor. intros [].
  - discriminate.
  - vm_compute. reflexivity.
  - now left.
  - reflexivity.
  - now left.
  - discriminate.
  - now left.
Defined.

(** X27. What the free-slot list shows off the half hour cannot be
    bought.  On a table of grid-aligned rows, a checkout whose start is
    not on the 30-minute grid is refused with status 400 and writes
    nothing, also when the free-slot list, which steps by 15 minutes,
    shows that very slot; and a 45-minute slot is refused whatever the
    store holds. *)
Theorem offgrid_slot_cannot_be_checked_out
        (s : Db) (env : Checkout.Env) (user : Checkout.User) (teacherId : Z)
        (sl : Slot) :
  Forall alignedRow (teacherAvailability s) ->
  ~ onHalfHour (slotStartUtc sl) \/ durationMinutes sl = 45 ->
  exists msg,
    Checkout.POST env (requestFor user teacherId sl) s
    = (Checkout.Error (if Checkout.u_id user =? 0 then 401 else 400) msg, s).
Proof.
  intros Hal Hoff. unfold Checkout.POST, requestFor.
  cbn [Checkout.rq_user Checkout.rq_teacherId Checkout.rq_startUtc
       Checkout.rq_durationMinutes].
  destruct (Checkout.u_id user =? 0); [eauto|].
  destruct (includes [30; 60] (durationMinutes sl)) eqn:Einc; cbn [negb];
    [|eauto].
  destruct Hoff as [Hoff | H45];
    [|rewrite H45 in Einc; discriminate].
  destruct (@checkoutTx_unavailable env user teacherId (slotStartUtc sl)
              (durationMinutes sl) s) as (msg & Htx & _).
  - left. intros Hlen.
    set (rows := Checkout.matchingRows s teacherId _) in *.
    destruct rows as [|r rows'] eqn:Er.
    + unfold Checkout.requiredStarts in Hlen. cbn in Hlen.
      destruct (durationMinutes sl =? 60); discriminate.
    + assert (Hr : In r (Checkout.matchingRows s teacherId
                           (Checkout.requiredStarts (slotStartUtc sl)
                                                    (durationMinutes sl))))
        by (fold rows; rewrite Er; now left).
      apply matchingRows_In in Hr. destruct Hr as (Hr & _ & Hs).
      rewrite Forall_forall in Hal. destruct (Hal r Hr) as [Hg _].
      (* some required start is a row's start: every required start is
         off the grid *)
      apply requiredStarts_In in Hs. apply Hoff.
      unfold onHalfHour in *. destruct Hs as [<- | [_ Hs]]; [exact Hg|].
      rewrite Hs in Hg.
      rewrite <- Zplus_mod_idemp_r, Z_mod_same_full, Z.add_0_r in Hg.
      exact Hg.
  - rewrite (transaction_throw _ _ Htx). eauto.
Qed.

Lemma offgrid_slot_cannot_be_checked_out_witness :
  exists msg,
    Checkout.POST CheckoutExample.env
      (requestFor CheckoutExample.student 7
         (mkSlot (CheckoutExample.day + 15300000)
                 (CheckoutExample.day + 17100000) 30))
      FreeSlotExample.store
    = (Checkout.Error
         (if Checkout.u_id CheckoutExample.student =? 0 then 401 else 400) msg,
       FreeSlotExample.store).
Proof.
  apply offgrid_slot_cannot_be_checked_out.
  - repeat constructor.
  - left. unfold onHalfHour. vm_compute. discriminate.
Defined.

(** ** The weekly repeat of the calendar *)

Section WeeklyRepeat.
Import FullCalendarWeek.

Lemma occurrencesFrom_nth first startMin endMin n : forall w k occ,
  nth_error (occurrencesFrom first startMin endMin w n) k = Some occ ->
  (k < n)%nat
  /\ oc_startUtc occ
     = first + (w + Z.of_nat k) * 604800000 + startMin * 60000
  /\ oc_endUtc occ
     = first + (w + Z.of_nat k) * 604800000 + endMin * 60000.
Proof.
  induction n as [|n IH]; intros w k occ H; cbn [occurrencesFrom] in H.
  - destruct k; discriminate.
  - destruct k as [|k]; cbn [nth_error] in H.
    + injection H as <-. cbn [oc_startUtc oc_endUtc].
      unfold addMinutes, addDays. split; [lia|]. split; lia.
    + apply IH in H. destruct H as (Hk & Hs & He).
      split; [lia|]. rewrite Hs, He. split; lia.
Qed.

Lemma occurrencesFrom_length first startMin endMin n : forall w,
  List.length (occurrencesFrom first startMin endMin w n) = n.
Proof.
  induction n as [|n IH]; intros w; cbn [occurrencesFrom List.length];
    [reflexivity | now rewrite IH].
Qed.

Lemma getUTCDay_shift d k m :
  d mod 86400000 = 0 -> 0 <= m < 86400000 ->
  getUTCDay (d + k * 604800000 + m) = getUTCDay d.
Proof.
  intros Hd Hm. unfold getUTCDay.
  pose proof (Z.div_mod d 86400000 ltac:(lia)) as Hdm.
  rewrite Hd, Z.add_0_r in Hdm.
  assert (E : (d + k * 604800000 + m) / 86400000 = d / 86400000 + 7 * k).
  { symmetry. apply (Z.div_unique _ _ _ m); [left; exact Hm | lia]. }
  rewrite E.
  replace (d / 86400000 + 7 * k + 4) with (d / 86400000 + 4 + k * 7) by lia.
  apply Z_mod_plus_full.
Qed.

End WeeklyRepeat.

(** X28. The weekly repeat plans thirteen occurrences, one per week, all
    on the chosen weekday.  For a weekday 0..6 and two times of day on
    the quarter hour with the start before the end, the plan is no
    alert; its first day is a UTC midnight of the chosen weekday, at most
    six days after the day of the anchor; and the k-th occurrence runs
    from the start time to the end time of the day k weeks after the
    first, so it starts on the chosen weekday. *)
Theorem weekly_repeat_plan (anchor repeatWeekday startMin endMin : Z) :
  0 <= repeatWeekday <= 6 ->
  0 <= startMin < endMin -> endMin <= 1440 ->
  startMin mod 15 = 0 -> endMin mod 15 = 0 ->
  exists first occs,
    FullCalendarWeek.planRepeatWeekly anchor repeatWeekday startMin endMin
    = FullCalendarWeek.Occurrences occs
    /\ List.length occs = 13%nat
    /\ first mod 86400000 = 0
    /\ FullCalendarWeek.startOfDayUtc anchor <= first
       < FullCalendarWeek.startOfDayUtc anchor + 7 * 86400000
    /\ FullCalendarWeek.getUTCDay first = repeatWeekday
    /\ forall k occ, nth_error occs k = Some occ ->
         FullCalendarWeek.oc_startUtc occ
         = first + Z.of_nat k * 604800000 + startMin * 60000
         /\ FullCalendarWeek.oc_endUtc occ
            = first + Z.of_nat k * 604800000 + endMin * 60000
         /\ FullCalendarWeek.getUTCDay (FullCalendarWeek.oc_startUtc occ)
            = repeatWeekday.
Proof.
  intros Hw Hs He Hs15 He15.
  unfold FullCalendarWeek.planRepeatWeekly.
  destruct (endMin <=? startMin) eqn:E1; [apply Z.leb_le in E1; lia|].
  rewrite !Z.rem_mod_nonneg by lia. rewrite Hs15, He15. cbn [Z.eqb negb orb].
  set (day0 := FullCalendarWeek.startOfDayUtc anchor).
  set (aw := FullCalendarWeek.getUTCDay day0).
  assert (Haw : 0 <= aw < 7) by (apply Z.mod_pos_bound; lia).
  rewrite Z.rem_mod_nonneg by lia.
  set (delta := (repeatWeekday - aw + 7) mod 7).
  assert (Hdelta : 0 <= delta < 7) by (apply Z.mod_pos_bound; lia).
  set (first := FullCalendarWeek.addDays day0 delta).
  assert (Hday0 : day0 mod 86400000 = 0)
    by (unfold day0, FullCalendarWeek.startOfDayUtc; apply Z_mod_mult).
  assert (Hfirst : first = day0 + delta * 86400000)
    by (unfold first, FullCalendarWeek.addDays; lia).
  assert (Hfmod : first mod 86400000 = 0).
  { rewrite Hfirst, Z_mod_plus_full. exact Hday0. }
  assert (Hfday : FullCalendarWeek.getUTCDay first = repeatWeekday).
  { unfold FullCalendarWeek.getUTCDay. rewrite Hfirst.
    rewrite Z_div_plus_full by lia.
    replace (day0 / 86400000 + delta + 4) with (delta + (day0 / 86400000 + 4))
      by lia.
    rewrite <- Zplus_mod_idemp_r.
    fold (FullCalendarWeek.getUTCDay day0). fold aw. unfold delta.
    rewrite Zplus_mod_idemp_l.
    replace (repeatWeekday - aw + 7 + aw) with (repeatWeekday + 1 * 7) by lia.
    rewrite Z_mod_plus_full. apply Z.mod_small. lia. }
  exists first. eexists. split; [reflexivity|].
  split; [apply occurrencesFrom_length|].
  split; [exact Hfmod|]. split; [lia|]. split; [exact Hfday|].
  intros k occ Hk. apply occurrencesFrom_nth in Hk.
  destruct Hk as (_ & Hst & Hen). rewrite Z.add_0_l in Hst, Hen.
  split; [exact Hst|]. split; [exact Hen|].
  rewrite Hst, getUTCDay_shift; [exact Hfday | exact Hfmod | lia].
Qed.

Lemma weekly_repeat_plan_witness :
  exists first occs,
    FullCalendarWeek.planRepeatWeekly 1770800000000 3 540 720
    = FullCalendarWeek.Occurrences occs
    /\ List.length occs = 13%nat
    /\ first mod 86400000 = 0
    /\ FullCalendarWeek.startOfDayUtc 1770800000000 <= first
       < FullCalendarWeek.startOfDayUtc 1770800000000 + 7 * 86400000
    /\ FullCalendarWeek.getUTCDay first = 3
    /\ forall k occ, nth_error occs k = Some occ ->
         FullCalendarWeek.oc_startUtc occ
         = first + Z.of_nat k * 604800000 + 540 * 60000
         /\ FullCalendarWeek.oc_endUtc occ
            = first + Z.of_nat k * 604800000 + 720 * 60000
         /\ FullCalendarWeek.getUTCDay (FullCalendarWeek.oc_startUtc occ) = 3.
Proof.
  apply weekly_repeat_plan; try reflexivity; lia.
Defined.

Section RepeatPublishes.
Import FullCalendarWeek.

Lemma gridSlots_In start n g :
  In g (gridSlots start n) <->
  exists k, 0 <= k < Z.of_nat n
    /\ g = Availability.mkSlot (start + k * gridMs) (start + (k + 1) * gridMs).
Proof.
  unfold gridSlots. rewrite in_map_iff. split.
  - intros (k & <- & Hk). apply in_seq in Hk. exists (Z.of_nat k).
    split; [lia | reflexivity].
  - intros (k & Hk & ->). exists (Z.to_nat k). rewrite Z2Nat.id by lia.
    split; [reflexivity|]. apply in_seq. lia.
Qed.

(** One manual entry whose two ends are on the 30-minute grid. *)
Lemma manualPOST_on_grid now teacherId a b s :
  a < b -> a mod gridMs = 0 -> b mod gridMs = 0 ->
  exists k s1 news,
    Availability.POST now
      (Availability.mkRequest (Some teacherId) (Some teacherId)
                              (IsoAt a) (IsoAt b)) s
    = Some (Availability.Inserted k, s1)
    /\ teacherAvailability s1 = teacherAvailability s ++ news
    /\ Forall (fun r => a_teacherId r = teacherId /\ alignedRow r
                        /\ a <= a_startUtc r /\ a_endUtc r <= b) news
    /\ forall u, a <= u < b ->
         exists r, In r (teacherAvailability s1)
           /\ a_teacherId r = teacherId /\ alignedRow r /\ inRow r u.
Proof.
  intros Hab Ha Hb. rewrite gridMs_eq in Ha, Hb.
  assert (Hfa : floorToGrid a = a)
    by (unfold floorToGrid; rewrite gridMs_eq, Ha; lia).
  assert (Hcb : Availability.clearSeconds b = b).
  { unfold Availability.clearSeconds.
    pose proof (Z.div_mod b 1800000 ltac:(lia)) as H. rewrite Hb in H.
    rewrite H at 1. replace (1800000 * (b / 1800000) + 0)
      with (b / 1800000 * 30 * 60000) by lia.
    rewrite Z_div_mult by lia. lia. }
  pose proof (splitIntoGridSlots_spec Hab) as Hsplit.
  rewrite Hfa, Hcb in Hsplit.
  set (n := Z.to_nat ((b - a) / gridMs)) in *.
  assert (Hn : b - a = Z.of_nat n * gridMs /\ (1 <= n)%nat).
  { unfold n. rewrite gridMs_eq.
    pose proof (Z.div_mod (b - a) 1800000 ltac:(lia)) as H.
    assert (Hm : (b - a) mod 1800000 = 0).
    { rewrite Zminus_mod, Ha, Hb. reflexivity. }
    rewrite Hm in H. rewrite Z2Nat.id by (apply Z.div_pos; lia).
    split; [lia|]. apply Nat2Z.inj_le. rewrite Z2Nat.id by (apply Z.div_pos; lia).
    change (Z.of_nat 1) with 1. lia. }
  destruct Hn as [Hlen Hn1].
  destruct (@fold_insertIfMissing_spec now teacherId (gridSlots a n) s)
    as (news & Hrows & Hnews); [apply gridSlots_NoDup|].
  assert (Hslot : forall r,
            In (slotOf r) (map (tripleOf teacherId) (gridSlots a n)) ->
            a_teacherId r = teacherId /\ alignedRow r
            /\ a <= a_startUtc r /\ a_endUtc r <= b
            /\ exists k, 0 <= k < Z.of_nat n /\ a_startUtc r = a + k * gridMs).
  { intros r Hr. apply in_map_iff in Hr. destruct Hr as (g & Hg & Hin).
    apply gridSlots_In in Hin. destruct Hin as (k & Hk & ->).
    unfold tripleOf, slotOf in Hg. cbn in Hg. injection Hg as Ht Hs He.
    unfold alignedRow, onHalfHour.
    change (minutes GRID_MINUTES) with gridMs. rewrite gridMs_eq in *.
    split; [auto|]. split; [split|].
    - rewrite <- Hs, Z_mod_plus_full. exact Ha.
    - lia.
    - split; [nia|]. split; [nia|]. exists k. split; [lia | lia]. }
  exists (Z.of_nat (List.length (gridSlots a n))),
         (fold_left (Availability.insertIfMissing now teacherId)
                    (gridSlots a n) s), news.
  split; [|split; [exact Hrows | split]].
  - unfold Availability.POST.
    cbn [Availability.rq_userId Availability.rq_teacherId
         Availability.rq_startUtc Availability.rq_endUtc].
    rewrite Z.eqb_refl. cbn [negb]. rewrite Hsplit.
    assert (Hne : gridSlots a n <> []).
    { destruct n as [|n']; [lia|]. rewrite gridSlots_S. discriminate. }
    destruct (gridSlots a n); [contradiction | reflexivity].
  - apply Forall_forall. intros r Hr.
    assert (Hin : In (slotOf r) (map slotOf news)) by now apply in_map.
    rewrite Hnews in Hin. apply filter_In in Hin. destruct Hin as [Hin _].
    destruct (Hslot r Hin) as (H1 & H2 & H3 & H4 & _). auto.
  - intros u Hu.
    set (k := (u - a) / gridMs).
    assert (Hk : 0 <= k < Z.of_nat n
                 /\ a + k * gridMs <= u < a + (k + 1) * gridMs).
    { unfold k. rewrite gridMs_eq in *.
      pose proof (Z.div_mod (u - a) 1800000 ltac:(lia)) as H.
      pose proof (Z.mod_pos_bound (u - a) 1800000 ltac:(lia)) as H'.
      assert (0 <= (u - a) / 1800000) by (apply Z.div_pos; lia).
      split; [split; [lia | nia] | lia]. }
    destruct Hk as [Hk Hku].
    set (g := Availability.mkSlot (a + k * gridMs) (a + (k + 1) * gridMs)).
    assert (Hg : In (tripleOf teacherId g)
                    (map (tripleOf teacherId) (gridSlots a n))).
    { apply in_map. apply gridSlots_In. exists k. auto. }
    assert (Hrow : exists r, In r (teacherAvailability s ++ news)
                             /\ slotOf r = tripleOf teacherId g).
    { destruct (stored s (tripleOf teacherId g)) eqn:Est.
      - apply stored_In in Est. apply in_map_iff in Est.
        destruct Est as (r & Hr & Hin). exists r.
        split; [apply in_or_app; now left | exact Hr].
      - assert (Hin : In (tripleOf teacherId g) (map slotOf news)).
        { rewrite Hnews. apply filter_In. split; [exact Hg|].
          now rewrite Est. }
        apply in_map_iff in Hin. destruct Hin as (r & Hr & Hin).
        exists r. split; [apply in_or_app; now right | exact Hr]. }
    destruct Hrow as (r & Hr & Hsl). exists r. rewrite Hrows.
    split; [exact Hr|].
    assert (Hin : In (slotOf r) (map (tripleOf teacherId) (gridSlots a n)))
      by (rewrite Hsl; exact Hg).
    destruct (Hslot r Hin) as (H1 & H2 & _).
    split; [exact H1|]. split; [exact H2|].
    unfold slotOf, tripleOf, g in Hsl. cbn in Hsl. injection Hsl as _ Hs He.
    unfold inRow. unfold gridMs, minutes, GRID_MINUTES in *. lia.
Qed.

(** Posting a list of ranges on the grid, one after the other. *)
Lemma postOccurrences_on_grid now teacherId occs : forall s,
  Forall (fun occ => oc_startUtc occ < oc_endUtc occ
                     /\ oc_startUtc occ mod gridMs = 0
                     /\ oc_endUtc occ mod gridMs = 0) occs ->
  exists s' news,
    postOccurrences now (Some teacherId) teacherId occs s = Some (Ok tt, s')
    /\ teacherAvailability s' = teacherAvailability s ++ news
    /\ Forall (fun r => a_teacherId r = teacherId /\ alignedRow r
                        /\ exists occ, In occ occs
                             /\ oc_startUtc occ <= a_startUtc r
                             /\ a_endUtc r <= oc_endUtc occ) news
    /\ forall occ u, In occ occs -> oc_startUtc occ <= u < oc_endUtc occ ->
         exists r, In r (teacherAvailability s')
           /\ a_teacherId r = teacherId /\ alignedRow r /\ inRow r u.
Proof.
  induction occs as [|occ occs IH]; intros s Hall; cbn [postOccurrences].
  - exists s, []. split; [reflexivity|]. split; [now rewrite app_nil_r|].
    split; [constructor | intros occ u []].
  - inversion Hall as [|? ? (Hlt & Hs & He) Hrest]; subst.
    destruct (@manualPOST_on_grid now teacherId (oc_startUtc occ)
                (oc_endUtc occ) s Hlt Hs He)
      as (k & s1 & news1 & Hpost & Hrows1 & Hnew1 & Hcov1).
    rewrite Hpost.
    destruct (IH s1 Hrest) as (s' & news2 & Hgo & Hrows2 & Hnew2 & Hcov2).
    exists s', (news1 ++ news2). split; [exact Hgo|].
    split; [rewrite Hrows2, Hrows1, app_assoc; reflexivity|]. split.
    + apply Forall_app. split.
      * eapply Forall_impl; [|exact Hnew1]. intros r (H1 & H2 & H3 & H4).
        split; [exact H1|]. split; [exact H2|]. exists occ.
        split; [now left | auto].
      * eapply Forall_impl; [|exact Hnew2].
        intros r (H1 & H2 & o & Ho & H3). split; [exact H1|].
        split; [exact H2|]. exists o. split; [now right | exact H3].
    + intros o u [<- | Ho] Hu.
      * destruct (Hcov1 u Hu) as (r & Hr & H). exists r.
        split; [|exact H]. rewrite Hrows2. apply in_or_app. now left.
      * now apply (Hcov2 o).
Qed.

End RepeatPublishes.

(** X29. A weekly repeat on the half hour publishes the chosen hours and
    nothing else.  When the weekday is 0..6, the two times are on the
    30-minute grid with the start before the end, and the signed-in user
    is the teacher, every one of the thirteen posts is accepted; the
    availability table afterwards is the table before followed by new
    rows of that teacher, each a grid-aligned 30-minute row inside one
    of the planned occurrences; and every instant of every occurrence
    lies in such a row of the teacher. *)
Theorem weekly_repeat_publishes
        (now teacherId anchor repeatWeekday startMin endMin : Z) (s : Db) :
  0 <= repeatWeekday <= 6 ->
  0 <= startMin < endMin -> endMin <= 1440 ->
  startMin mod 30 = 0 -> endMin mod 30 = 0 ->
  exists occs s' news,
    FullCalendarWeek.planRepeatWeekly anchor repeatWeekday startMin endMin
    = FullCalendarWeek.Occurrences occs
    /\ FullCalendarWeek.postOccurrences now (Some teacherId) teacherId occs s
       = Some (Ok tt, s')
    /\ teacherAvailability s' = teacherAvailability s ++ news
    /\ Forall (fun r => a_teacherId r = teacherId /\ alignedRow r
                        /\ exists occ, In occ occs
                             /\ FullCalendarWeek.oc_startUtc occ <= a_startUtc r
                             /\ a_endUtc r <= FullCalendarWeek.oc_endUtc occ)
              news
    /\ forall occ u, In occ occs ->
         FullCalendarWeek.oc_startUtc occ <= u < FullCalendarWeek.oc_endUtc occ ->
         exists r, In r (teacherAvailability s')
           /\ a_teacherId r = teacherId /\ alignedRow r /\ inRow r u.
Proof.
  intros Hw Hs He Hs30 He30.
  assert (H15 : forall m, m mod 30 = 0 -> m mod 15 = 0).
  { intros m Hm. pose proof (Z.div_mod m 30 ltac:(lia)) as H.
    rewrite Hm, Z.add_0_r in H. rewrite H.
    replace (30 * (m / 30)) with (m / 30 * 2 * 15) by lia. apply Z_mod_mult. }
  unfold FullCalendarWeek.planRepeatWeekly.
  destruct (endMin <=? startMin) eqn:E1; [apply Z.leb_le in E1; lia|].
  rewrite !Z.rem_mod_nonneg by lia.
  rewrite (H15 _ Hs30), (H15 _ He30). cbn [Z.eqb negb orb].
  set (first := FullCalendarWeek.addDays _ _).
  assert (Hfirst : first mod gridMs = 0).
  { unfold first, FullCalendarWeek.addDays, FullCalendarWeek.startOfDayUtc.
    rewrite gridMs_eq.
    match goal with
    | |- (?q * 86400000 + ?d * 24 * 60 * 60 * 1000) mod _ = 0 =>
        replace (q * 86400000 + d * 24 * 60 * 60 * 1000)
          with ((q * 48 + d * 48) * 1800000) by lia
    end.
    apply Z_mod_mult. }
  assert (Hgrid : forall m, m mod 30 = 0 -> (m * 60000) mod gridMs = 0).
  { intros m Hm. rewrite gridMs_eq.
    pose proof (Z.div_mod m 30 ltac:(lia)) as H.
    rewrite Hm, Z.add_0_r in H. rewrite H.
    replace (30 * (m / 30) * 60000) with (m / 30 * 1800000) by lia.
    apply Z_mod_mult. }
  set (occs := FullCalendarWeek.occurrencesFrom first startMin endMin 0 13).
  assert (Hall : Forall (fun occ =>
              FullCalendarWeek.oc_startUtc occ < FullCalendarWeek.oc_endUtc occ
              /\ FullCalendarWeek.oc_startUtc occ mod gridMs = 0
              /\ FullCalendarWeek.oc_endUtc occ mod gridMs = 0) occs).
  { apply Forall_forall. intros occ Hin. apply In_nth_error in Hin.
    destruct Hin as (k & Hk). apply occurrencesFrom_nth in Hk.
    destruct Hk as (_ & -> & ->). rewrite Z.add_0_l.
    assert (Hweek : forall m, (first + Z.of_nat k * 604800000 + m * 60000)
                              mod gridMs
                              = (first + m * 60000) mod gridMs).
    { intros m. rewrite gridMs_eq.
      replace (first + Z.of_nat k * 604800000 + m * 60000)
        with (first + m * 60000 + Z.of_nat k * 336 * 1800000) by lia.
      apply Z_mod_plus_full. }
    split; [lia|]. rewrite !Hweek.
    split; rewrite Zplus_mod, Hfirst, Hgrid by assumption; reflexivity. }
  destruct (@postOccurrences_on_grid now teacherId occs s Hall)
    as (s' & news & Hgo & Hrows & Hnew & Hcov).
  exists occs, s', news. repeat split; assumption.
Qed.

Lemma weekly_repeat_publishes_witness :
  exists occs s' news,
    FullCalendarWeek.planRepeatWeekly 1770800000000 3 540 720
    = FullCalendarWeek.Occurrences occs
    /\ FullCalendarWeek.postOccurrences 5 (Some 7) 7 occs RuleExample.empty
       = Some (Ok tt, s')
    /\ teacherAvailability s' = teacherAvailability RuleExample.empty ++ news
    /\ Forall (fun r => a_teacherId r = 7 /\ alignedRow r
                        /\ exists occ, In occ occs
                             /\ FullCalendarWeek.oc_startUtc occ <= a_startUtc r
                             /\ a_endUtc r <= FullCalendarWeek.oc_endUtc occ)
              news
    /\ forall occ u, In occ occs ->
         FullCalendarWeek.oc_startUtc occ <= u < FullCalendarWeek.oc_endUtc occ ->
         exists r, In r (teacherAvailability s')
           /\ a_teacherId r = 7 /\ alignedRow r /\ inRow r u.
Proof.
  apply weekly_repeat_publishes; try reflexivity; lia.
Defined.

(** ** After the checkout, the list *)

(** X30. Time that was sold is no longer listed.  On a table of
    grid-aligned 30-minute rows, after a checkout that succeeds, no slot
    the free-slot query lists for that teacher overlaps the booked
    range. *)
Theorem booked_time_is_not_listed
        (s s1 : Db) (env : Checkout.Env) (rq : Checkout.Request) (url : string)
        (teacherId start d : Z)
        (rqF : FreeSlots.Request) (fromMs toMs n : Z) (durs : list Z)
        (slots : list Slot) (sl : Slot) :
  Forall alignedRow (teacherAvailability s) ->
  Checkout.rq_teacherId rq = Some teacherId ->
  Checkout.rq_startUtc rq = IsoAt start ->
  Checkout.rq_durationMinutes rq = Some d ->
  Checkout.POST env rq s = (Checkout.CheckoutUrl url, s1) ->
  GET s1 rqF = Some (Slots teacherId fromMs toMs durs n slots) ->
  In sl slots ->
  slotEndUtc sl <= start \/ start + minutes d <= slotStartUtc sl.
Proof.
  intros Hal Ht Hs Hd Hpost Hget Hin.
  destruct (POST_success_inv _ _ _ Hpost)
    as (user & t' & start' & d' & _ & _ & Ht' & Hs' & Hd' & Hdur & Htx).
  rewrite Ht in Ht'. rewrite Hs in Hs'. rewrite Hd in Hd'.
  injection Ht' as <-. injection Hs' as <-. injection Hd' as <-.
  pose proof (@checkoutTx_ok env user teacherId start d s url s1 Htx)
    as [_ Hrows].
  (* the start is on the grid: some matched row starts at a required start *)
  assert (Hgrid : onHalfHour start).
  { unfold Checkout.checkoutTx in Htx.
    destruct (Checkout.findOffer s teacherId d); [|discriminate].
    destruct (Nat.eqb _ _) eqn:E; cbn [negb] in Htx; [|discriminate].
    apply Nat.eqb_eq in E.
    destruct (Checkout.matchingRows s teacherId
                (Checkout.requiredStarts start d)) as [|r rows] eqn:Er.
    - unfold Checkout.requiredStarts in E. cbn in E.
      destruct (d =? 60); discriminate.
    - assert (Hr : In r (Checkout.matchingRows s teacherId
                           (Checkout.requiredStarts start d)))
        by (rewrite Er; now left).
      apply matchingRows_In in Hr. destruct Hr as (Hr & _ & Hreq).
      rewrite Forall_forall in Hal. destruct (Hal r Hr) as [Hg _].
      apply requiredStarts_In in Hreq. unfold onHalfHour in *.
      destruct Hreq as [<- | [_ Hreq]]; [exact Hg|].
      rewrite Hreq, <- Zplus_mod_idemp_r, Z_mod_same_full, Z.add_0_r in Hg.
      exact Hg. }
  destruct (@GET_slot_sound s1 rqF teacherId fromMs toMs durs n slots sl Hget Hin)
    as (_ & (Hsup & Hend) & _ & Hcov).
  assert (Hpos : 0 < durationMinutes sl)
    by (destruct Hsup as [<- | [<- | [<- | []]]]; lia).
  destruct (Z.le_gt_cases (slotEndUtc sl) start) as [Hle | Hgt]; [now left|].
  destruct (Z.le_gt_cases (start + minutes d) (slotStartUtc sl)) as [Hle | Hgt'];
    [now right|].
  exfalso.
  destruct (Hcov (Z.max (slotStartUtc sl) start) ltac:(lia))
    as (r & Hr & Hrt & Hru).
  rewrite Hrows in Hr. apply filter_In in Hr. destruct Hr as [Hr Hkeep].
  apply negb_true_iff in Hkeep.
  assert (Hmatched : includes
            (map a_id (Checkout.matchingRows s teacherId
                         (Checkout.requiredStarts start d))) (a_id r) = true);
    [|congruence].
  apply includes_In, in_map, matchingRows_In.
  split; [exact Hr|]. split; [exact Hrt|].
  rewrite Forall_forall in Hal. destruct (Hal r Hr) as [Hg He].
  unfold onHalfHour, minutes, GRID_MINUTES in *.
  unfold Checkout.requiredStarts, minutes, GRID_MINUTES.
  pose proof (Z.div_mod (a_startUtc r) (30 * 60000) ltac:(lia)) as H1.
  pose proof (Z.div_mod start (30 * 60000) ltac:(lia)) as H2.
  rewrite Hg in H1. rewrite Hgrid in H2.
  destruct Hdur as [-> | ->]; cbn [Z.eqb].
  - left. nia.
  - assert (Hwhich : a_startUtc r = start \/ a_startUtc r = start + 30 * 60000)
      by nia.
    destruct Hwhich as [-> | ->]; [now left | right; now left].
Qed.

Lemma booked_time_is_not_listed_witness :
  slotEndUtc (mkSlot (CheckoutExample.day + 16200000)
                     (CheckoutExample.day + 18000000) 30)
  <= CheckoutExample.day + 14400000
  \/ CheckoutExample.day + 14400000 + minutes 30
     <= slotStartUtc (mkSlot (CheckoutExample.day + 16200000)
                             (CheckoutExample.day + 18000000) 30).
Proof.
  eapply (@booked_time_is_not_listed
            (mkDb []
               [mkAvailability 1 7 (CheckoutExample.day + 14400000)
                               (CheckoutExample.day + 16200000) "manual" 0;
                mkAvailability 2 7 (CheckoutExample.day + 16200000)
                               (CheckoutExample.day + 18000000) "manual" 0]
               [mkOffer 1 7 30 3000 "EUR" 1] [] [] 1 3 1 1)
            _ CheckoutExample.env (CheckoutExample.request 30) _ 7
            (CheckoutExample.day + 14400000) 30
            (FreeSlots.mkRequest (Some 7) (Some CheckoutExample.day)
                                 (Some (CheckoutExample.day + 86400000)))).
  - repeat constructor.
  - reflexivity.
  - reflexivity.
  - reflexivity.
  - vm_compute. reflexivity.
  - vm_compute. reflexivity.
  - now left.
Defined.
